(** * AnKing note types add-on: the setting extraction / rewrite engine

    A shallow embedding of [src/anking_notetypes/config.py] (the
    [NoteTypeSetting] class hierarchy, [updated_model], [safe_update_model],
    [read_in_settings_from_notetypes], [adjust_hint_button_nts_order]), of
    [notetype_setting_definitions.py] (the descriptor table,
    [btn_name_to_shortcut_odict], [configurable_fields_for_notetype]) and of
    [gui/config_window.py] ([_adjust_configurable_field_nts_order]).

    Template text is a list of characters; a character is a code point
    below 256, so the texts are the Python strings over Latin-1, and the
    character classes and [int] below are Python's on these code points.
    Regular expressions are an
    abstract syntax for the fragment of Python's [re] that the descriptor
    table uses, run by a backtracking matcher with Python's priorities.
    Python objects that are shared and mutated (note type dicts and their
    template dicts) live in an explicit store. *)

From Stdlib Require Import ZArith Ascii String List Bool Lia Permutation Sorted.
From stdpp Require Import base option list strings gmap.

Import ListNotations.
Open Scope string_scope.
Open Scope list_scope.
Open Scope nat_scope.

(** ** Text *)

Definition text := list ascii.

Definition txt (s : string) : text := list_ascii_of_string s.

#[global] Instance ascii_eq_dec : EqDecision ascii := Ascii.ascii_dec.

Definition text_eqb (a b : text) : bool := bool_decide (a = b).

(** [s.startswith(p)] *)
Fixpoint starts_with (p s : text) : bool :=
  match p, s with
  | [], _ => true
  | a :: p', b :: s' => if decide (a = b) then starts_with p' s' else false
  | _ :: _, [] => false
  end.

(** [s.find(p)]: the least index at which [p] occurs in [s]. *)
Fixpoint find (p s : text) : option nat :=
  if starts_with p s then Some 0
  else match s with
       | [] => None
       | _ :: s' => option_map S (find p s')
       end.

(** [p in s] *)
Definition contains (p s : text) : bool :=
  match find p s with Some _ => true | None => false end.

(** [s.replace(old, new, 1)]: with an empty [old], Python inserts [new]
    in front of the text. *)
Definition replace_first (s old new : text) : text :=
  match find old s with
  | Some i => firstn i s ++ new ++ skipn (i + length old) s
  | None => s
  end.

(** [s.replace(old, new)]: all non-overlapping occurrences, left to right;
    with an empty [old], [new] goes in front of every character and at the
    end. *)
Fixpoint replace_all_aux (fuel : nat) (s old new : text) : text :=
  match fuel with
  | 0 => s
  | S fuel' =>
      match find old s with
      | Some i =>
          firstn i s ++ new ++ replace_all_aux fuel' (skipn (i + length old) s) old new
      | None => s
      end
  end.

Definition replace_all (s old new : text) : text :=
  match old with
  | [] => new ++ flat_map (fun a => a :: new) s
  | _ :: _ => replace_all_aux (length s) s old new
  end.

(** [s[a:b]] for [0 <= a <= b] *)
Definition slice (a b : nat) (s : text) : text := firstn (b - a) (skipn a s).

(** ** Regular expressions

    The fragment of Python's [re] syntax used by the descriptor table:
    literals, [.], character classes, sequence, alternation, greedy and lazy
    repetition, capturing groups.  There are no anchors, look-arounds or
    back-references in the table, and none in this syntax. *)

Inductive cls_item :=
| IChar (c : ascii)            (* a literal character *)
| IRange (lo hi : ascii)       (* lo-hi *)
| IDigit                       (* \d *)
| IWord                        (* \w *)
| INotWord.                    (* \W *)

Inductive cls :=
| CChar (c : ascii)                          (* a literal character *)
| CDot                                       (* . : anything but a newline *)
| CSet (negated : bool) (items : list cls_item).  (* [...] and [^...] *)

Inductive regex :=
| Eps
| Cls (p : cls)
| Seq (r1 r2 : regex)
| Alt (r1 r2 : regex)
| Star (greedy : bool) (r : regex)           (* r*  and  r*? *)
| Group (i : nat) (r : regex).               (* the i-th capturing group *)

#[global] Instance cls_item_eq_dec : EqDecision cls_item.
Proof. solve_decision. Defined.
#[global] Instance cls_eq_dec : EqDecision cls.
Proof. solve_decision. Defined.
#[global] Instance regex_eq_dec : EqDecision regex.
Proof. solve_decision. Defined.

Definition newline : ascii := "010"%char.

Definition is_digit (a : ascii) : bool :=
  let n := nat_of_ascii a in (48 <=? n) && (n <=? 57).

(** [\w] of a text pattern: the underscore and the alphanumeric characters
    ([str.isalnum]), which below 256 are the ASCII letters and digits, the
    ordinal indicators, the superscript digits, the micro sign, the vulgar
    fractions and the accented letters. *)
Definition is_word (a : ascii) : bool :=
  let n := nat_of_ascii a in
  ((48 <=? n) && (n <=? 57)) || ((65 <=? n) && (n <=? 90))
  || ((97 <=? n) && (n <=? 122)) || (n =? 95)
  || (n =? 170) || ((178 <=? n) && (n <=? 179)) || (n =? 181)
  || ((185 <=? n) && (n <=? 186)) || ((188 <=? n) && (n <=? 190))
  || ((192 <=? n) && (n <=? 214)) || ((216 <=? n) && (n <=? 246))
  || ((248 <=? n) && (n <=? 255)).

Definition item_mem (it : cls_item) (a : ascii) : bool :=
  match it with
  | IChar c => bool_decide (a = c)
  | IRange lo hi =>
      (nat_of_ascii lo <=? nat_of_ascii a) && (nat_of_ascii a <=? nat_of_ascii hi)
  | IDigit => is_digit a
  | IWord => is_word a
  | INotWord => negb (is_word a)
  end.

Definition cls_mem (p : cls) (a : ascii) : bool :=
  match p with
  | CChar c => bool_decide (a = c)
  | CDot => negb (bool_decide (a = newline))
  | CSet negated items => xorb negated (existsb (fun it => item_mem it a) items)
  end.

(** Derived forms. *)
Definition Plus (greedy : bool) (r : regex) : regex := Seq r (Star greedy r).
Definition Opt (r : regex) : regex := Alt r Eps.
Fixpoint lit_text (s : text) : regex :=
  match s with
  | [] => Eps
  | a :: s' => Seq (Cls (CChar a)) (lit_text s')
  end.
Definition lit (s : string) : regex := lit_text (txt s).
Definition chr (s : string) : regex :=
  match s with String a _ => Cls (CChar a) | EmptyString => Eps end.
Definition ichr (s : string) : cls_item :=
  match s with String a _ => IChar a | EmptyString => IChar zero end.
Fixpoint seqs (rs : list regex) : regex :=
  match rs with
  | [] => Eps
  | [r] => r
  | r :: rs' => Seq r (seqs rs')
  end.

(** Captures: group number, with the lengths of the text that remained when
    the group was entered and when it was left; the latest capture first. *)
Definition caps := list (nat * (nat * nat)).

Definition mres := (text * caps)%type.
Definition kont := text -> caps -> option mres.

Definition orelse (a b : option mres) : option mres :=
  match a with Some x => Some x | None => b end.

(** The loop of a repetition.  An iteration that consumes nothing is cut
    off, so [fuel = length s] iterations are enough. *)
Fixpoint star_loop (body : text -> caps -> kont -> option mres) (greedy : bool)
    (k : kont) (fuel : nat) (s : text) (c : caps) : option mres :=
  match fuel with
  | 0 => k s c
  | S fuel' =>
      let again :=
        body s c (fun s1 c1 =>
          if length s1 <? length s then star_loop body greedy k fuel' s1 c1 else None) in
      if greedy then orelse again (k s c) else orelse (k s c) again
  end.

(** The backtracking matcher: alternatives are tried in order, a greedy
    repetition tries one more iteration first, a lazy one tries to leave
    first. *)
Fixpoint rmatch (r : regex) (s : text) (c : caps) (k : kont) : option mres :=
  match r with
  | Eps => k s c
  | Cls p =>
      match s with
      | a :: s' => if cls_mem p a then k s' c else None
      | [] => None
      end
  | Seq r1 r2 => rmatch r1 s c (fun s1 c1 => rmatch r2 s1 c1 k)
  | Alt r1 r2 => orelse (rmatch r1 s c k) (rmatch r2 s c k)
  | Star greedy r1 => star_loop (rmatch r1) greedy k (length s) s c
  | Group i r1 =>
      rmatch r1 s c (fun s1 c1 => k s1 ((i, (length s, length s1)) :: c1))
  end.

Definition kdone : kont := fun s c => Some (s, c).

(** A match object: [span 0], and the captures as absolute spans. *)
Record Match := mkMatch {
  m_start : nat;
  m_end : nat;
  m_groups : list (nat * (nat * nat))
}.

Definition abs_caps (total : nat) (c : caps) : list (nat * (nat * nat)) :=
  map (fun e => (e.1, (total - e.2.1, total - e.2.2))) c.

(** [re.search]: the first position, from the left, where the pattern
    matches. [pos] is the number of characters already skipped. *)
Fixpoint search_from (r : regex) (pos : nat) (s : text) : option Match :=
  match rmatch r s [] kdone with
  | Some (s', c) =>
      Some (mkMatch pos (pos + (length s - length s')) (abs_caps (pos + length s) c))
  | None =>
      match s with
      | [] => None
      | _ :: s' => search_from r (S pos) s'
      end
  end.

Definition re_search (r : regex) (s : text) : option Match := search_from r 0 s.

(** [re.findall] / [re.finditer]: successive non-overlapping matches.  After
    an empty match the next attempt at the same position must consume
    something ([must_advance]). *)
Definition search_adv (r : regex) (must_advance : bool) (pos : nat) (s : text)
  : option Match :=
  match rmatch r s []
          (fun s' c => if must_advance && (length s' =? length s) then None
                       else Some (s', c)) with
  | Some (s', c) =>
      Some (mkMatch pos (pos + (length s - length s')) (abs_caps (pos + length s) c))
  | None =>
      match s with
      | [] => None
      | _ :: s' => search_from r (S pos) s'
      end
  end.

Fixpoint finditer_aux (fuel : nat) (r : regex) (must_advance : bool) (pos : nat)
    (s : text) : list Match :=
  match fuel with
  | 0 => []
  | S fuel' =>
      match search_adv r must_advance pos s with
      | None => []
      | Some m =>
          m :: finditer_aux fuel' r (m_end m =? m_start m) (m_end m)
                 (skipn (m_end m - pos) s)
      end
  end.

Definition finditer (r : regex) (s : text) : list Match :=
  finditer_aux (2 * length s + 2) r false 0 s.

(** The number of capturing groups of a pattern. *)
Fixpoint ngroups (r : regex) : nat :=
  match r with
  | Eps | Cls _ => 0
  | Seq r1 r2 | Alt r1 r2 => Nat.max (ngroups r1) (ngroups r2)
  | Star _ r1 => ngroups r1
  | Group i r1 => Nat.max i (ngroups r1)
  end.

Fixpoint assoc {A} (i : nat) (l : list (nat * A)) : option A :=
  match l with
  | [] => None
  | (j, x) :: l' => if decide (i = j) then Some x else assoc i l'
  end.

(** ** Python values and exceptions *)

Inductive Value :=
| VNone
| VBool (b : bool)
| VInt (z : Z)
| VStr (t : text).

#[global] Instance Value_eq_dec : EqDecision Value.
Proof. solve_decision. Defined.

(** The text of a [NotetypeParseException]. *)
Inductive ParseMsg :=
| CouldNotFind (name file notetype : string)
    (* could not find '{name}' in {file} template of notetype '{notetype}' *)
| ErrorInvolving (replacement_pairs : list (text * text)) (section : text).
    (* error involving replacement_pairs=... and section=... *)

Inductive Exn :=
| NotetypeParseException (msg : ParseMsg)
| AttributeError            (* 'NoneType' object has no attribute 'group' *)
| AssertionError
| ValueError
| TypeError
| KeyError
| IndexError
| Exception_ (msg : string)
| BadRef.                   (* a reference to no object: the program holds none *)

Inductive res (A : Type) :=
| Ok (a : A)
| Raise (e : Exn).
Arguments Ok {A} a.
Arguments Raise {A} e.

Definition rbind {A B} (x : res A) (f : A -> res B) : res B :=
  match x with Ok a => f a | Raise e => Raise e end.

Declare Scope res_scope.
Delimit Scope res_scope with res.
Notation "x <- e ;; k" := (rbind e (fun x => k))
  (at level 100, e at next level, right associativity) : res_scope.

(** Truth value of a Python object. *)
Definition truthy (v : Value) : bool :=
  match v with
  | VNone => false
  | VBool b => b
  | VInt z => negb (Z.eqb z 0)
  | VStr t => match t with [] => false | _ => true end
  end.

(** Decimal text of an integer: [str(n)]. *)
Definition digit_char (d : Z) : ascii := ascii_of_nat (48 + Z.to_nat d).

Fixpoint dec_digits (fuel : nat) (n : Z) (acc : text) : text :=
  match fuel with
  | 0 => acc
  | S fuel' =>
      let acc' := digit_char (n mod 10) :: acc in
      if (n <? 10)%Z then acc' else dec_digits fuel' (n / 10) acc'
  end.

Definition str_nonneg (n : Z) : text := dec_digits (S (Z.to_nat (Z.log2 n))) n [].

Definition str_int (z : Z) : text :=
  if (z <? 0)%Z then "-"%char :: str_nonneg (- z) else str_nonneg z.

(** [str(v)] *)
Definition py_str (v : Value) : text :=
  match v with
  | VNone => txt "None"
  | VBool true => txt "True"
  | VBool false => txt "False"
  | VInt z => str_int z
  | VStr t => t
  end.

(** [int(s)] for a text: surrounding white space, an optional sign, decimal
    digits with single underscores between them.  The white space [int]
    skips is tab to carriage return, the space, and above 127 the next-line
    control and the no-break space; the separators 28 to 31 are not. *)
Definition is_space (a : ascii) : bool :=
  let n := nat_of_ascii a in
  ((9 <=? n) && (n <=? 13)) || (n =? 32) || (n =? 133) || (n =? 160).

Fixpoint lstrip (s : text) : text :=
  match s with
  | a :: s' => if is_space a then lstrip s' else s
  | [] => []
  end.

Definition strip (s : text) : text := rev (lstrip (rev (lstrip s))).

Definition digit_val (a : ascii) : Z := Z.of_nat (nat_of_ascii a - 48).

(** [after_digit]: the previous character was a digit. *)
Fixpoint parse_digits (s : text) (acc : Z) (after_digit : bool) : option Z :=
  match s with
  | [] => if after_digit then Some acc else None
  | a :: s' =>
      if is_digit a then parse_digits s' (10 * acc + digit_val a)%Z true
      else if bool_decide (a = "_"%char) && after_digit then parse_digits s' acc false
      else None
  end.

Definition parse_int (s : text) : option Z :=
  match strip s with
  | a :: s' =>
      if bool_decide (a = "-"%char) then option_map Z.opp (parse_digits s' 0%Z false)
      else if bool_decide (a = "+"%char) then parse_digits s' 0%Z false
      else parse_digits (a :: s') 0%Z false
  | [] => None
  end.

(** [int(v)] *)
Definition py_int (v : Value) : res Z :=
  match v with
  | VNone => Raise TypeError
  | VBool b => Ok (if b then 1 else 0)%Z
  | VInt z => Ok z
  | VStr t => match parse_int t with Some z => Ok z | None => Raise ValueError end
  end.

(** ** Setting descriptors *)

(** A descriptor of the table: the keys the engine reads. *)
Record Config := mkConfig {
  cfg_type : string;                               (* "type" *)
  cfg_file : string;                               (* "file" *)
  cfg_regex : regex;                               (* "regex" *)
  cfg_name : string;                               (* "name" *)
  cfg_setting_name : string;                       (* "setting_name" *)
  cfg_replacement_pairs : option (list (text * text));
  cfg_options : list text;
  cfg_with_inherit_option : option bool;
  cfg_hint_button_setting : option text;
  cfg_configurable_field_name : option text;
  cfg_min : option Z;
  cfg_max : option Z
}.

#[global] Instance Config_eq_dec : EqDecision Config.
Proof. solve_decision. Defined.

(** The subclasses of [NoteTypeSetting]. *)
Inductive SettingClass :=
| CheckboxSetting
| ReCheckboxSetting
| LineEditSetting
| NumberEditSetting
| ShortcutSetting
| DropdownSetting
| ColorSetting
| FontFamilySetting.

#[global] Instance SettingClass_eq_dec : EqDecision SettingClass.
Proof. solve_decision. Defined.

Record NoteTypeSetting := mkNts {
  nts_class : SettingClass;
  config : Config
}.

#[global] Instance NoteTypeSetting_eq_dec : EqDecision NoteTypeSetting.
Proof. solve_decision. Defined.

(** [NoteTypeSetting.from_config] *)
Definition from_config (config : Config) : res NoteTypeSetting :=
  if String.eqb (cfg_type config) "checkbox" then Ok (mkNts CheckboxSetting config)
  else if String.eqb (cfg_type config) "re_checkbox" then Ok (mkNts ReCheckboxSetting config)
  else if String.eqb (cfg_type config) "text" then Ok (mkNts LineEditSetting config)
  else if String.eqb (cfg_type config) "number" then Ok (mkNts NumberEditSetting config)
  else if String.eqb (cfg_type config) "shortcut" then Ok (mkNts ShortcutSetting config)
  else if String.eqb (cfg_type config) "dropdown" then Ok (mkNts DropdownSetting config)
  else if String.eqb (cfg_type config) "color" then Ok (mkNts ColorSetting config)
  else if String.eqb (cfg_type config) "font_family" then Ok (mkNts FontFamilySetting config)
  else Raise (Exception_ ("unkown NoteTypeSetting type: " ++ cfg_type config)).

(** [key]: [f'{notetype_name}.{self.config["setting_name"]}'] *)
Definition key (nts : NoteTypeSetting) (notetype_name : string) : string :=
  notetype_name ++ "." ++ cfg_setting_name (config nts).

(** ** The codecs *)

(** [m.group(i)]: the captured text, [None] for a group that took no part
    in the match, [IndexError] for a group the pattern does not have. *)
Definition group (r : regex) (s : text) (m : Match) (i : nat) : res Value :=
  if ngroups r <? i then Raise IndexError
  else match assoc i (m_groups m) with
       | Some (a, b) => Ok (VStr (slice a b s))
       | None => Ok VNone
       end.

(** [re.search(self.config["regex"], section).group(1)] *)
Definition search_group1 (r : regex) (section : text) : res Value :=
  match re_search r section with
  | None => Raise AttributeError
  | Some m => group r section m 1
  end.

(** [section[:start] + setting_value + section[end:]] with
    [start, end = m.span(1)]; the span of a group that took no part in the
    match is [(-1, -1)]. *)
Definition splice_group1 (r : regex) (section : text) (setting_value : Value)
  : res text :=
  match re_search r section with
  | None => Raise AttributeError
  | Some m =>
      if ngroups r <? 1 then Raise IndexError
      else
        let '(before, after) :=
          match assoc 1 (m_groups m) with
          | Some (a, b) => (firstn a section, skipn b section)
          | None => (firstn (length section - 1) section,
                     skipn (length section - 1) section)
          end in
        match setting_value with
        | VStr v => Ok (before ++ v ++ after)
        | _ => Raise TypeError
        end
  end.

(** [s.replace(old, new, 1)] on Python objects: both arguments must be
    text. *)
Definition py_replace_first (s : text) (old new : Value) : res text :=
  match old, new with
  | VStr o, VStr n => Ok (replace_first s o n)
  | _, _ => Raise TypeError
  end.

Definition with_inherit_option (c : Config) : bool :=
  match cfg_with_inherit_option c with Some b => b | None => false end.

Definition _extract_setting_value (nts : NoteTypeSetting) (section : text)
  : res Value :=
  let c := config nts in
  match nts_class nts with
  | ReCheckboxSetting =>
      match cfg_replacement_pairs c with
      | None => Raise KeyError
      | Some replacement_pairs =>
          let checked := forallb (fun p => contains p.2 section) replacement_pairs in
          let unchecked := forallb (fun p => contains p.1 section) replacement_pairs in
          if negb ((checked || unchecked) && negb (checked && unchecked))
          then Raise (NotetypeParseException (ErrorInvolving replacement_pairs section))
          else Ok (VBool checked)
      end
  | CheckboxSetting =>
      (value <- search_group1 (cfg_regex c) section ;;
       if bool_decide (value = VStr (txt "true")) || bool_decide (value = VStr (txt "false"))
       then Ok (VBool (bool_decide (value = VStr (txt "true"))))
       else Raise AssertionError)%res
  | LineEditSetting | FontFamilySetting | DropdownSetting | ShortcutSetting =>
      search_group1 (cfg_regex c) section
  | ColorSetting =>
      (color_str <- search_group1 (cfg_regex c) section ;;
       if with_inherit_option c && negb (text_eqb (py_str color_str) (txt "transparent"))
       then Ok (VStr (txt "inherit"))
       else Ok color_str)%res
  | NumberEditSetting =>
      (value_str <- search_group1 (cfg_regex c) section ;;
       n <- py_int value_str ;;
       Ok (VInt n))%res
  end.

Definition _set_setting_value (nts : NoteTypeSetting) (section : text)
    (setting_value : Value) : res text :=
  let c := config nts in
  match nts_class nts with
  | ReCheckboxSetting =>
      match cfg_replacement_pairs c with
      | None => Raise KeyError
      | Some replacement_pairs =>
          Ok (fold_left
                (fun result p =>
                   if truthy setting_value then replace_all result p.1 p.2
                   else replace_all result p.2 p.1)
                replacement_pairs section)
      end
  | CheckboxSetting =>
      (current_value <- _extract_setting_value nts section ;;
       let current_value_str := if truthy current_value then txt "true" else txt "false" in
       let new_value_str := if truthy setting_value then txt "true" else txt "false" in
       Ok (replace_first section current_value_str new_value_str))%res
  | LineEditSetting | FontFamilySetting | ShortcutSetting =>
      splice_group1 (cfg_regex c) section setting_value
  | DropdownSetting =>
      (current_value <- _extract_setting_value nts section ;;
       py_replace_first section current_value setting_value)%res
  | ColorSetting =>
      (current_value <- _extract_setting_value nts section ;;
       if with_inherit_option c && negb (bool_decide (setting_value = VStr (txt "transparent")))
       then py_replace_first section current_value (VStr (txt "inherit"))
       else py_replace_first section current_value setting_value)%res
  | NumberEditSetting =>
      (current_value <- _extract_setting_value nts section ;;
       Ok (replace_first section (py_str current_value) (py_str setting_value)))%res
  end.

(** ** The store

    A note type ("model") is a dict with the keys ["name"], ["css"] and
    ["tmpls"], the list of its template dicts; a template dict has the keys
    ["qfmt"] (front) and ["afmt"] (back).  Dicts are objects in the store
    and are referred to by their address; [other] stands for the keys the
    engine does not read. *)

Record Template := mkTemplate {
  qfmt : text;
  afmt : text;
  t_other : list (string * Value)
}.

Record NotetypeDict := mkModel {
  name : string;
  css : text;
  tmpls : list nat;
  other : list (string * Value)
}.

Inductive UiEvent :=
| Tooltip (msg : ParseMsg)          (* tooltip(f"failed parsing notetype:\n{e}") *)
| ShowInfo (msgs : list ParseMsg).  (* showInfo(error_msg), one entry per failure *)

(** Modelled from the spec: the value-map ([ConfigManager], whose code is
    not part of the sources) is a mapping from
    [f'{notetype_name}.{setting_name}'] to a decoded value. *)
Record World := mkWorld {
  models : list NotetypeDict;
  templates : list Template;
  conf : gmap string Value;
  ui : list UiEvent
}.

Definition M (A : Type) : Type := World -> res A * World.

Definition ret {A} (a : A) : M A := fun w => (Ok a, w).
Definition raise {A} (e : Exn) : M A := fun w => (Raise e, w).
Definition bind {A B} (x : M A) (f : A -> M B) : M B :=
  fun w => match x w with
           | (Ok a, w') => f a w'
           | (Raise e, w') => (Raise e, w')
           end.
Definition lift {A} (x : res A) : M A := fun w => (x, w).

Declare Scope m_scope.
Delimit Scope m_scope with M.
Notation "x <- e ;; k" := (bind e (fun x => k))
  (at level 100, e at next level, right associativity) : m_scope.
Notation "e ;;; k" := (bind e (fun _ => k))
  (at level 100, right associativity) : m_scope.

(** [try: body except NotetypeParseException as e: handler] *)
Definition try_except {A} (body : M A) (handler : ParseMsg -> M A) : M A :=
  fun w => match body w with
           | (Raise (NotetypeParseException e), w') => handler e w'
           | r => r
           end.

Definition set_models (f : list NotetypeDict -> list NotetypeDict) (w : World) : World :=
  mkWorld (f (models w)) (templates w) (conf w) (ui w).
Definition set_templates (f : list Template -> list Template) (w : World) : World :=
  mkWorld (models w) (f (templates w)) (conf w) (ui w).
Definition set_conf (f : gmap string Value -> gmap string Value) (w : World) : World :=
  mkWorld (models w) (templates w) (f (conf w)) (ui w).
Definition set_ui (f : list UiEvent -> list UiEvent) (w : World) : World :=
  mkWorld (models w) (templates w) (conf w) (f (ui w)).

Definition get_model (model : nat) : M NotetypeDict :=
  fun w => match models w !! model with
           | Some d => (Ok d, w)
           | None => (Raise BadRef, w)
           end.

Definition get_template (template : nat) : M Template :=
  fun w => match templates w !! template with
           | Some t => (Ok t, w)
           | None => (Raise BadRef, w)
           end.

(** [model.copy()]: a new dict with the same values under the same keys;
    the list under ["tmpls"] and the template dicts in it are shared. *)
Definition copy (model : nat) : M nat :=
  fun w => match models w !! model with
           | Some d => (Ok (length (models w)), set_models (fun ms => ms ++ [d]) w)
           | None => (Raise BadRef, w)
           end.

(** [template["qfmt"] = text], [template["afmt"] = text], [model["css"] = text] *)
Definition set_qfmt (template : nat) (t : text) : M unit :=
  fun w => (Ok tt, set_templates
                     (alter (fun x => mkTemplate t (afmt x) (t_other x)) template) w).
Definition set_afmt (template : nat) (t : text) : M unit :=
  fun w => (Ok tt, set_templates
                     (alter (fun x => mkTemplate (qfmt x) t (t_other x)) template) w).
Definition set_css (model : nat) (t : text) : M unit :=
  fun w => (Ok tt, set_models
                     (alter (fun d => mkModel (name d) t (tmpls d) (other d)) model) w).

(** [conf[key]] and [conf[key] = value] *)
Definition conf_get (k : string) : M Value :=
  fun w => match conf w !! k with
           | Some v => (Ok v, w)
           | None => (Raise KeyError, w)
           end.
Definition conf_set (k : string) (v : Value) : M unit :=
  fun w => (Ok tt, set_conf (fun c => <[k := v]> c) w).

Definition tooltip (msg : ParseMsg) : M unit :=
  fun w => (Ok tt, set_ui (fun u => u ++ [Tooltip msg]) w).
Definition showInfo (msgs : list ParseMsg) : M unit :=
  fun w => (Ok tt, set_ui (fun u => u ++ [ShowInfo msgs]) w).

(** [templates = model["tmpls"]; assert len(templates) == 1;
     template = templates[0]] *)
Definition the_template (d : NotetypeDict) : M nat :=
  match tmpls d with
  | [template] => ret template
  | _ => raise AssertionError
  end.

Definition _relevant_template_text (nts : NoteTypeSetting) (model : nat) : M text :=
  (d <- get_model model ;;
   template <- the_template d ;;
   t <- get_template template ;;
   if String.eqb (cfg_file (config nts)) "front" then ret (qfmt t)
   else if String.eqb (cfg_file (config nts)) "back" then ret (afmt t)
   else ret (css d))%M.

Definition _relevant_template_section (nts : NoteTypeSetting) (model : nat) : M text :=
  (template_text <- _relevant_template_text nts model ;;
   match re_search (cfg_regex (config nts)) template_text with
   | None =>
       d <- get_model model ;;
       raise (NotetypeParseException
                (CouldNotFind (cfg_name (config nts)) (cfg_file (config nts)) (name d)))
   | Some section_match =>
       ret (slice (m_start section_match) (m_end section_match) template_text)
   end)%M.

(** [setting_value]: decode one setting of a model. *)
Definition setting_value (nts : NoteTypeSetting) (model : nat) : M Value :=
  (section <- _relevant_template_section nts model ;;
   lift (_extract_setting_value nts section))%M.

(** [updated_model]: encode one setting into a copy of the model. *)
Definition updated_model (nts : NoteTypeSetting) (model : nat) (notetype_name : string)
  : M nat :=
  (result <- copy model ;;
   section <- _relevant_template_section nts result ;;
   setting_value <- conf_get (key nts notetype_name) ;;
   processed_section <- lift (_set_setting_value nts section setting_value) ;;
   template_text <- _relevant_template_text nts result ;;
   let updated_text := replace_first template_text section processed_section in
   d <- get_model result ;;
   template <- the_template d ;;
   (if String.eqb (cfg_file (config nts)) "front" then set_qfmt template updated_text
    else if String.eqb (cfg_file (config nts)) "back" then set_afmt template updated_text
    else set_css result updated_text) ;;;
   ret result)%M.

(** [safe_update_model]: encode a list of settings, one after the other;
    a setting that cannot be located is skipped and the last such failure is
    shown. *)
Fixpoint safe_update_loop (ntss : list NoteTypeSetting) (result : nat)
    (parse_exception : option ParseMsg) : M (nat * option ParseMsg) :=
  match ntss with
  | [] => ret (result, parse_exception)
  | nts :: ntss' =>
      (st <- try_except
               (d <- get_model result ;;
                result' <- updated_model nts result (name d) ;;
                ret (result', parse_exception))
               (fun e => ret (result, Some e)) ;;
       safe_update_loop ntss' st.1 st.2)%M
  end.

Definition safe_update_model (ntss : list NoteTypeSetting) (model : nat) : M nat :=
  (result <- copy model ;;
   st <- safe_update_loop ntss result None ;;
   match st.2 with
   | Some e => tooltip e ;;; ret st.1
   | None => ret st.1
   end)%M.

(** ** Sorting and list helpers *)

(** [sorted(l, key=...)] is stable: an element goes in front of the first
    element whose key is not smaller. *)
Fixpoint insert_by {A} (key : A -> Z) (x : A) (l : list A) : list A :=
  match l with
  | [] => [x]
  | y :: l' => if (key x <=? key y)%Z then x :: y :: l' else y :: insert_by key x l'
  end.

Fixpoint sorted_by {A} (key : A -> Z) (l : list A) : list A :=
  match l with
  | [] => []
  | x :: l' => insert_by key x (sorted_by key l')
  end.

(** The order of the keys. *)
Definition key_le {A} (key : A -> Z) (x y : A) : Prop := (key x <= key y)%Z.

(** Evaluate [f] on every element, left to right; the first exception wins. *)
Fixpoint map_res {A B} (f : A -> res B) (l : list A) : res (list B) :=
  match l with
  | [] => Ok []
  | x :: l' => (y <- f x ;; ys <- map_res f l' ;; Ok (y :: ys))%res
  end.

(** [sorted(l, key=key)] where computing a key may raise: the keys of all
    elements are computed first, in list order. *)
Definition py_sorted {A} (key : A -> res Z) (l : list A) : res (list A) :=
  (keyed <- map_res (fun x => k <- key x ;; Ok (k, x)) l ;;
   Ok (map snd (sorted_by fst keyed)))%res.

(** [l.index(x)]: [ValueError] when [x] is not in [l]. *)
Fixpoint index_of {A} `{EqDecision A} (x : A) (l : list A) : option nat :=
  match l with
  | [] => None
  | y :: l' => if decide (x = y) then Some 0 else option_map S (index_of x l')
  end.

Definition py_index {A} `{EqDecision A} (x : A) (l : list A) : res Z :=
  match index_of x l with
  | Some i => Ok (Z.of_nat i)
  | None => Raise ValueError
  end.

(** [x in l].  Setting objects define no [__eq__]; the lists below are
    sublists of the list [x] is taken from, and equal records satisfy the
    same filter, so membership by equality of records selects the same
    elements as membership by identity. *)
Definition py_in {A} `{EqDecision A} (x : A) (l : list A) : bool :=
  bool_decide (x ∈ l).

(** [d[k] = v] on an ordered dict: a new key goes to the end, a known key
    keeps its place. *)
Fixpoint odict_set (k v : text) (d : list (text * text)) : list (text * text) :=
  match d with
  | [] => [(k, v)]
  | (k', v') :: d' => if decide (k = k') then (k, v) :: d' else (k', v') :: odict_set k v d'
  end.

(** ** The descriptor table ([notetype_setting_definitions.py])

    The patterns are given as syntax trees, each under the pattern text of
    the source.  In these comments a backquote stands for a double quote, and
    a star before a closing parenthesis is followed by a space. *)

Definition dquote : ascii := "034"%char.
Definition backslash : ascii := "092"%char.

(** Text with double quotes: a backquote in the literal stands for a
    double quote. *)
Definition qtxt (s : string) : text :=
  map (fun a => if decide (a = "`"%char) then dquote else a) (txt s).
Definition qlit (s : string) : regex := lit_text (qtxt s).

Definition sp_plus : regex := Plus true (chr " ").      (* a space, then + *)
Definition sp_star : regex := Star true (chr " ").      (* a space, then * *)

(** QUOT_STR_RE = r'(?:\\.|[^`\\])' *)
Definition QUOT_STR_RE : regex :=
  Alt (Seq (Cls (CChar backslash)) (Cls CDot))
      (Cls (CSet true [IChar dquote; IChar backslash])).

(** CONDITIONAL_FIELD_RE = r`(?:<!-- ?)?\{\{#.+?\}\}[\w\W]+?\{\{/.+?\}\}(?: ?-->)?` *)
Definition CONDITIONAL_FIELD_RE : regex :=
  seqs [Opt (Seq (lit "<!--") (Opt (chr " ")));
        lit "{{#"; Plus false (Cls CDot); lit "}}";
        Plus false (Cls (CSet false [IWord; INotWord]));
        lit "{{/"; Plus false (Cls CDot); lit "}}";
        Opt (Seq (Opt (chr " ")) (lit "-->"))].

(** CONFIGURABLE_FIELD_HAS_TO_CONTAIN_RE =
      r'(class=`hint`|id=`extra`|id=`dermnet`|id=`ome`)' *)
Definition CONFIGURABLE_FIELD_HAS_TO_CONTAIN_RE : regex :=
  Group 1 (Alt (qlit "class=`hint`")
          (Alt (qlit "id=`extra`")
          (Alt (qlit "id=`dermnet`") (qlit "id=`ome`")))).

(** CONFIGURABLE_FIELD_NAME_RE = r`\{\{#(.+?)\}\}` *)
Definition CONFIGURABLE_FIELD_NAME_RE : regex :=
  seqs [lit "{{#"; Group 1 (Plus false (Cls CDot)); lit "}}"].

Definition descriptor (setting_name type file : string) (regex : regex) : Config :=
  mkConfig type file regex setting_name setting_name None [] None None None None None.

Definition with_pairs (pairs : list (text * text)) (c : Config) : Config :=
  mkConfig (cfg_type c) (cfg_file c) (cfg_regex c) (cfg_name c) (cfg_setting_name c)
    (Some pairs) (cfg_options c) (cfg_with_inherit_option c)
    (cfg_hint_button_setting c) (cfg_configurable_field_name c) (cfg_min c) (cfg_max c).
Definition with_options (options : list text) (c : Config) : Config :=
  mkConfig (cfg_type c) (cfg_file c) (cfg_regex c) (cfg_name c) (cfg_setting_name c)
    (cfg_replacement_pairs c) options (cfg_with_inherit_option c)
    (cfg_hint_button_setting c) (cfg_configurable_field_name c) (cfg_min c) (cfg_max c).
Definition with_inherit (b : bool) (c : Config) : Config :=
  mkConfig (cfg_type c) (cfg_file c) (cfg_regex c) (cfg_name c) (cfg_setting_name c)
    (cfg_replacement_pairs c) (cfg_options c) (Some b)
    (cfg_hint_button_setting c) (cfg_configurable_field_name c) (cfg_min c) (cfg_max c).
Definition with_hint_button (btn : text) (c : Config) : Config :=
  mkConfig (cfg_type c) (cfg_file c) (cfg_regex c) (cfg_name c) (cfg_setting_name c)
    (cfg_replacement_pairs c) (cfg_options c) (cfg_with_inherit_option c)
    (Some btn) (cfg_configurable_field_name c) (cfg_min c) (cfg_max c).
Definition with_field_name (field : text) (c : Config) : Config :=
  mkConfig (cfg_type c) (cfg_file c) (cfg_regex c) (cfg_name c) (cfg_setting_name c)
    (cfg_replacement_pairs c) (cfg_options c) (cfg_with_inherit_option c)
    (cfg_hint_button_setting c) (Some field) (cfg_min c) (cfg_max c).
Definition with_bounds (lo hi : option Z) (c : Config) : Config :=
  mkConfig (cfg_type c) (cfg_file c) (cfg_regex c) (cfg_name c) (cfg_setting_name c)
    (cfg_replacement_pairs c) (cfg_options c) (cfg_with_inherit_option c)
    (cfg_hint_button_setting c) (cfg_configurable_field_name c) lo hi.

Definition not_rbrace_lazy : regex := Star false (Cls (CSet true [ichr "}"])).  (* [^}]*? *)
Definition any_char : cls := CSet false [IWord; INotWord].                     (* [\w\W] *)

(** field_order, type order:  r`[\w\W]*` *)
Definition field_order : Config :=
  descriptor "field_order" "order" "back" (Star true (Cls any_char)).

(** toggle_next_button:  rf'var +ToggleNextButtonShortcut += +`({QUOT_STR_RE}*?)`' *)
Definition toggle_next_button : Config :=
  descriptor "toggle_next_button" "shortcut" "back"
    (seqs [lit "var"; sp_plus; lit "ToggleNextButtonShortcut"; sp_plus; lit "="; sp_plus;
           qlit "`"; Group 1 (Star false QUOT_STR_RE); qlit "`"]).

(** reveal_next_cloze_mode:  r'var +revealNextClozeMode += +`([^`]*?)`' *)
Definition reveal_next_cloze_mode : Config :=
  with_options [txt "cloze"; txt "word"]
    (descriptor "reveal_next_cloze_mode" "dropdown" "back"
       (seqs [lit "var"; sp_plus; lit "revealNextClozeMode"; sp_plus; lit "="; sp_plus;
              qlit "`"; Group 1 (Star false (Cls (CSet true [IChar dquote]))); qlit "`"])).

(** timer:  r`\.timer *{[^}]*?display: (block|none);` *)
Definition timer : Config :=
  with_pairs [(txt "none", txt "block")]
    (descriptor "timer" "re_checkbox" "style"
       (seqs [lit ".timer"; sp_star; lit "{"; not_rbrace_lazy; lit "display: ";
              Group 1 (Alt (lit "block") (lit "none")); lit ";"])).

(** timer_secs:  r`var +seconds += +([^ /\n]* )` *)
Definition timer_secs : Config :=
  with_bounds (Some 0%Z) None
    (descriptor "timer_secs" "number" "front"
       (seqs [lit "var"; sp_plus; lit "seconds"; sp_plus; lit "="; sp_plus;
              Group 1 (Star true (Cls (CSet true [ichr " "; ichr "/"; IChar newline])))])).

(** autoflip:  r`var +autoflip += +(false|true)` *)
Definition autoflip : Config :=
  descriptor "autoflip" "checkbox" "front"
    (seqs [lit "var"; sp_plus; lit "autoflip"; sp_plus; lit "="; sp_plus;
           Group 1 (Alt (lit "false") (lit "true"))]).

(** front_tts:  r`(<!--|{{)tts.+?(-->|}})` *)
Definition front_tts : Config :=
  with_pairs [(txt "<!--", txt "{{"); (txt "-->", txt "}}")]
    (descriptor "front_tts" "re_checkbox" "front"
       (seqs [Group 1 (Alt (lit "<!--") (lit "{{")); lit "tts"; Plus false (Cls CDot);
              Group 2 (Alt (lit "-->") (lit "}}"))])).

(** front_signal_tag:  rf'var +tagID += +`({QUOT_STR_RE}*?)`' *)
Definition front_signal_tag : Config :=
  descriptor "front_signal_tag" "text" "front"
    (seqs [lit "var"; sp_plus; lit "tagID"; sp_plus; lit "="; sp_plus;
           qlit "`"; Group 1 (Star false QUOT_STR_RE); qlit "`"]).

(** font_size:  r`html *{[^}]*?font-size: (\d+)px;` *)
Definition font_size : Config :=
  with_bounds (Some 1%Z) (Some 200%Z)
    (descriptor "font_size" "number" "style"
       (seqs [lit "html"; sp_star; lit "{"; not_rbrace_lazy; lit "font-size: ";
              Group 1 (Plus true (Cls (CSet false [IDigit]))); lit "px;"])).

(** font_family:  r`\.card.*\n*kbd *{[^}]*?font-family: (.+);` *)
Definition font_family : Config :=
  descriptor "font_family" "font_family" "style"
    (seqs [lit ".card"; Star true (Cls CDot); Star true (Cls (CChar newline));
           lit "kbd"; sp_star; lit "{"; not_rbrace_lazy; lit "font-family: ";
           Group 1 (Plus true (Cls CDot)); lit ";"]).

(** text_color:  r`\.card *{[^}]*?color: (.+?);` *)
Definition text_color : Config :=
  descriptor "text_color" "color" "style"
    (seqs [lit ".card"; sp_star; lit "{"; not_rbrace_lazy; lit "color: ";
           Group 1 (Plus false (Cls CDot)); lit ";"]).

(** bold_text_color, with_inherit_option True:
      r`b *{[^}]*?color: (.+?)( +!important)?;` *)
Definition bold_text_color : Config :=
  with_inherit true
    (descriptor "bold_text_color" "color" "style"
       (seqs [lit "b"; sp_star; lit "{"; not_rbrace_lazy; lit "color: ";
              Group 1 (Plus false (Cls CDot));
              Opt (Group 2 (Seq sp_plus (lit "!important"))); lit ";"])).

(** The descriptors of a configurable field put the field name into the
    pattern text as it is, without escaping.  A name without a character of
    pattern syntax stands for itself there; the descriptors are given for
    these names, and a name with pattern syntax has no descriptor in this
    model. *)
Definition pattern_special (a : ascii) : bool :=
  existsb (fun b => bool_decide (a = b))
    (backslash :: txt ".^$*+?{}[]|()").

Definition plain_name (s : string) : bool :=
  forallb (fun a => negb (pattern_special a)) (txt s).

Class PlainName (s : string) : Prop := plain_name_ok : Is_true (plain_name s).
#[global] Hint Extern 0 (PlainName _) => exact I : typeclass_instances.

(** button_auto_reveal_setting_config(field_name, default):
      rf'var+ ButtonAutoReveal *= *{{[^}}]*?`{field_name}` *: *(.+),\n'
    [setting_name] is the key under which [configurable_field_configs] files
    the descriptor. *)
Definition button_auto_reveal_setting_config (setting_name field_name : string)
    `{!PlainName field_name} : Config :=
  with_field_name (txt field_name)
    (descriptor setting_name "checkbox" "back"
       (seqs [lit "va"; Plus true (chr "r"); lit " ButtonAutoReveal"; sp_star; lit "=";
              sp_star; lit "{"; not_rbrace_lazy;
              qlit "`"; lit field_name; qlit "`"; sp_star; lit ":"; sp_star;
              Group 1 (Plus true (Cls CDot)); lit ","; Cls (CChar newline)])).

(** button_shortcut_setting_config(field_name, default):
      rf'var+ ButtonShortcuts *= *{{[^}}]*?`{field_name}` *: *`({QUOT_STR_RE}*?)`' *)
Definition button_shortcut_setting_config (setting_name field_name : string)
    `{!PlainName field_name} : Config :=
  with_field_name (txt field_name)
    (descriptor setting_name "shortcut" "back"
       (seqs [lit "va"; Plus true (chr "r"); lit " ButtonShortcuts"; sp_star; lit "=";
              sp_star; lit "{"; not_rbrace_lazy;
              qlit "`"; lit field_name; qlit "`"; sp_star; lit ":"; sp_star;
              qlit "`"; Group 1 (Star false QUOT_STR_RE); qlit "`"])).

(** disable_field_setting_config(field_name, default), type wrap_checkbox:
      rf`(<!--)?{{{{#{field_name}}}}}[\w\W]+?{{{{/{field_name}}}}}(-->)?` *)
Definition disable_field_setting_config (setting_name field_name : string)
    `{!PlainName field_name} : Config :=
  descriptor setting_name "wrap_checkbox" "back"
    (seqs [Opt (Group 1 (lit "<!--")); lit "{{#"; lit field_name; lit "}}";
           Plus false (Cls any_char);
           lit "{{/"; lit field_name; lit "}}"; Opt (Group 2 (lit "-->"))]).

(** ** Grouping and ordering *)

(** What the engine reads from outside: the shipped templates
    ([anking_notetype_templates()], read from the add-on's files: front,
    back, styling), the descriptor table [setting_configs], the settings of
    each note type ([settings_by_notetype], from a module that is not part
    of the sources: taken as given) and the collection
    ([mw.col.models.by_name]). *)
Record Addon := mkAddon {
  anking_notetype_templates : gmap string (text * text * text);
  setting_configs : gmap string Config;
  settings_by_notetype : list (string * list string);
  by_name : gmap string nat
}.

Definition group_text (s : text) (m : Match) (i : nat) : text :=
  match assoc i (m_groups m) with
  | Some (a, b) => slice a b s
  | None => []
  end.

(** [btn_name_to_shortcut_odict]:
      button_shortcuts_dict_pattern = r`var+ ButtonShortcuts *= *{([^}]* )}`
      dict_key_value_pattern = r'`([^`]+)` *: *`([^`]* )`' *)
Definition button_shortcuts_dict_pattern : regex :=
  seqs [lit "va"; Plus true (chr "r"); lit " ButtonShortcuts"; sp_star; lit "="; sp_star;
        lit "{"; Group 1 (Star true (Cls (CSet true [ichr "}"]))); lit "}"].

Definition dict_key_value_pattern : regex :=
  seqs [qlit "`"; Group 1 (Plus true (Cls (CSet true [IChar dquote]))); qlit "`";
        sp_star; lit ":"; sp_star;
        qlit "`"; Group 2 (Star true (Cls (CSet true [IChar dquote]))); qlit "`"].

Definition btn_name_to_shortcut_odict (a : Addon) (notetype_name : string)
  : res (list (text * text)) :=
  match anking_notetype_templates a !! notetype_name with
  | None => Raise KeyError
  | Some (_, back, _) =>
      match re_search button_shortcuts_dict_pattern back with
      | None => Ok []
      | Some m =>
          let body := group_text back m 1 in
          let button_shorcut_pairs :=
            map (fun kv => (group_text body kv 1, group_text body kv 2))
                (finditer dict_key_value_pattern body) in
          Ok (fold_left (fun result p => odict_set p.1 p.2 result) button_shorcut_pairs [])
      end
  end.

(** [configurable_fields_for_notetype]: the names of the conditional blocks
    of the shipped back template that qualify, in document order. *)
Definition configurable_fields_for_notetype (a : Addon) (notetype_name : string)
  : res (list Value) :=
  match anking_notetype_templates a !! notetype_name with
  | None => Raise KeyError
  | Some (_, back, _) =>
      map_res (fun field => search_group1 CONFIGURABLE_FIELD_NAME_RE field)
        (filter (fun field =>
                   is_Some (re_search CONFIGURABLE_FIELD_HAS_TO_CONTAIN_RE field))
           (map (fun m => slice (m_start m) (m_end m) back)
              (finditer CONDITIONAL_FIELD_RE back)))
  end.

(** [nts.config.get(k, False)] as a condition: the key is there and its value
    is a non-empty text. *)
Definition tagged (o : option text) : bool :=
  match o with Some (_ :: _) => true | _ => false end.

Definition tag_of (o : option text) : Value :=
  match o with Some t => VStr t | None => VNone end.

(** [adjust_hint_button_nts_order] ([config.py]) *)
Definition adjust_hint_button_nts_order (a : Addon) (ntss : list NoteTypeSetting)
    (notetype_name : string) : res (list NoteTypeSetting) :=
  let hint_button_ntss :=
    filter (fun nts => tagged (cfg_hint_button_setting (config nts))) ntss in
  (odict <- btn_name_to_shortcut_odict a notetype_name ;;
   let ordered_btn_names := map (fun p => VStr p.1) odict in
   ordered_hint_button_ntss <-
     py_sorted (fun nts => py_index (tag_of (cfg_hint_button_setting (config nts)))
                             ordered_btn_names)
       hint_button_ntss ;;
   let other_ntss := filter (fun nts => negb (py_in nts hint_button_ntss)) ntss in
   Ok (ordered_hint_button_ntss ++ other_ntss))%res.

(** A setting tagged with a configurable-field name. *)
Definition is_field (nts : NoteTypeSetting) : bool :=
  tagged (cfg_configurable_field_name (config nts)).

(** A setting tagged with a hint-button name. *)
Definition is_hint_button (nts : NoteTypeSetting) : bool :=
  tagged (cfg_hint_button_setting (config nts)).

(** [_adjust_configurable_field_nts_order] ([gui/config_window.py]) *)
Definition field_key (ordered_field_names : list Value) (nts : NoteTypeSetting) : Z :=
  let name := tag_of (cfg_configurable_field_name (config nts)) in
  match index_of name ordered_field_names with
  | Some i => Z.of_nat i
  | None => (-1)%Z   (* can happen because of different quotes in template versions *)
  end.

Definition _adjust_configurable_field_nts_order (a : Addon) (ntss : list NoteTypeSetting)
    (notetype_name : string) : res (list NoteTypeSetting) :=
  let field_ntss :=
    filter (fun nts => tagged (cfg_configurable_field_name (config nts))) ntss in
  (ordered_field_names <- configurable_fields_for_notetype a notetype_name ;;
   let ordered_field_ntss := sorted_by (field_key ordered_field_names) field_ntss in
   let other_ntss := filter (fun nts => negb (py_in nts field_ntss)) ntss in
   Ok (other_ntss ++ ordered_field_ntss))%res.

(** [ntss_for_notetype] ([config.py]): [setting_config["setting_name"] = name]
    stamps the descriptor of the table with the key it is filed under. *)
Definition stamp (name : string) (c : Config) : Config :=
  mkConfig (cfg_type c) (cfg_file c) (cfg_regex c) (cfg_name c) name
    (cfg_replacement_pairs c) (cfg_options c) (cfg_with_inherit_option c)
    (cfg_hint_button_setting c) (cfg_configurable_field_name c) (cfg_min c) (cfg_max c).

Definition dict_get (notetype_name : string) (d : list (string * list string))
  : list string :=
  match List.find (fun p => String.eqb p.1 notetype_name) d with
  | Some p => p.2
  | None => []
  end.

Definition ntss_for_notetype (a : Addon) (notetype_name : string)
  : res (list NoteTypeSetting) :=
  (result <- map_res
               (fun name =>
                  match setting_configs a !! name with
                  | None => Raise KeyError
                  | Some setting_config => from_config (stamp name setting_config)
                  end)
               (dict_get notetype_name (settings_by_notetype a)) ;;
   adjust_hint_button_nts_order a result notetype_name)%res.

(** [read_in_settings_from_notetypes] ([config.py]) *)
Fixpoint read_in_ntss (ntss : list NoteTypeSetting) (model : nat) (notetype_name : string)
    (error_msg : list ParseMsg) : M (list ParseMsg) :=
  match ntss with
  | [] => ret error_msg
  | nts :: ntss' =>
      (error_msg' <- try_except
                       (v <- setting_value nts model ;;
                        conf_set (key nts notetype_name) v ;;;
                        ret error_msg)
                       (fun e => ret (error_msg ++ [e])) ;;
       read_in_ntss ntss' model notetype_name error_msg')%M
  end.

Fixpoint read_in_notetypes (a : Addon) (notetype_names : list string)
    (error_msg : list ParseMsg) : M (list ParseMsg) :=
  match notetype_names with
  | [] => ret error_msg
  | notetype_name :: rest =>
      match by_name a !! notetype_name with
      | None => read_in_notetypes a rest error_msg
      | Some model =>
          (ntss <- lift (ntss_for_notetype a notetype_name) ;;
           error_msg' <- read_in_ntss ntss model notetype_name error_msg ;;
           read_in_notetypes a rest error_msg')%M
      end
  end.

Definition read_in_settings_from_notetypes (a : Addon) : M unit :=
  (error_msg <- read_in_notetypes a (map fst (settings_by_notetype a)) [] ;;
   match error_msg with
   | [] => ret tt
   | _ :: _ => showInfo error_msg
   end)%M.

(** ** What a caller can see of a model *)

Record Blobs := mkBlobs {
  front : text;
  back : text;
  style : text
}.

(** The three blobs of the model at an address: [tmpls[0].qfmt],
    [tmpls[0].afmt] and [css]. *)
Definition blobs_of (w : World) (model : nat) : option Blobs :=
  match models w !! model with
  | Some d =>
      match tmpls d with
      | [template] =>
          match templates w !! template with
          | Some t => Some (mkBlobs (qfmt t) (afmt t) (css d))
          | None => None
          end
      | _ => None
      end
  | None => None
  end.

(** Everything else: the name, the template list, and the other keys of the
    model and of its template. *)
Definition envelope_of (w : World) (model : nat)
  : option (string * list nat * list (string * Value) * list (string * Value)) :=
  match models w !! model with
  | Some d =>
      match tmpls d with
      | [template] =>
          match templates w !! template with
          | Some t => Some (name d, tmpls d, other d, t_other t)
          | None => None
          end
      | _ => None
      end
  | None => None
  end.

(** The blob a descriptor's ["file"] names, and its replacement. *)
Definition target (file : string) (b : Blobs) : text :=
  if String.eqb file "front" then front b
  else if String.eqb file "back" then back b
  else style b.

Definition with_target (file : string) (b : Blobs) (x : text) : Blobs :=
  if String.eqb file "front" then mkBlobs x (back b) (style b)
  else if String.eqb file "back" then mkBlobs (front b) x (style b)
  else mkBlobs (front b) (back b) x.

(** ** The language of a pattern

    [Matches r t]: the pattern [r] can consume exactly [t].  Iterations of a
    repetition are non-empty, as in the matcher. *)
Inductive Matches : regex -> text -> Prop :=
| MEps : Matches Eps []
| MCls p a : cls_mem p a = true -> Matches (Cls p) [a]
| MSeq r1 r2 t1 t2 : Matches r1 t1 -> Matches r2 t2 -> Matches (Seq r1 r2) (t1 ++ t2)
| MAltL r1 r2 t : Matches r1 t -> Matches (Alt r1 r2) t
| MAltR r1 r2 t : Matches r2 t -> Matches (Alt r1 r2) t
| MStar0 g r : Matches (Star g r) []
| MStarS g r t1 t2 :
    Matches r t1 -> t1 <> [] -> Matches (Star g r) t2 -> Matches (Star g r) (t1 ++ t2)
| MGroup i r t : Matches r t -> Matches (Group i r) t.

(** ** The effect of [updated_model] on the model's dict and the template
    dicts, apart from where the copy is stored *)

Definition encode_pure (nts : NoteTypeSetting) (notetype_name : string)
    (cf : gmap string Value) (d : NotetypeDict) (ts : list Template)
  : res (NotetypeDict * list Template) :=
  match tmpls d with
  | [template] =>
      match ts !! template with
      | None => Raise BadRef
      | Some t =>
          let file := cfg_file (config nts) in
          let template_text := target file (mkBlobs (qfmt t) (afmt t) (css d)) in
          match re_search (cfg_regex (config nts)) template_text with
          | None =>
              Raise (NotetypeParseException
                       (CouldNotFind (cfg_name (config nts)) file (name d)))
          | Some m =>
              let section := slice (m_start m) (m_end m) template_text in
              match cf !! key nts notetype_name with
              | None => Raise KeyError
              | Some v =>
                  match _set_setting_value nts section v with
                  | Raise e => Raise e
                  | Ok processed_section =>
                      let updated_text :=
                        replace_first template_text section processed_section in
                      if String.eqb file "front"
                      then Ok (d, alter (fun x => mkTemplate updated_text (afmt x) (t_other x))
                                    template ts)
                      else if String.eqb file "back"
                      then Ok (d, alter (fun x => mkTemplate (qfmt x) updated_text (t_other x))
                                    template ts)
                      else Ok (mkModel (name d) updated_text (tmpls d) (other d), ts)
                  end
              end
          end
      end
  | _ => Raise AssertionError
  end.

Fixpoint safe_update_pure (ntss : list NoteTypeSetting) (cf : gmap string Value)
    (d : NotetypeDict) (ts : list Template) (parse_exception : option ParseMsg)
  : res (NotetypeDict * list Template * option ParseMsg) :=
  match ntss with
  | [] => Ok (d, ts, parse_exception)
  | nts :: ntss' =>
      match encode_pure nts (name d) cf d ts with
      | Ok (d', ts') => safe_update_pure ntss' cf d' ts' parse_exception
      | Raise (NotetypeParseException e) => safe_update_pure ntss' cf d ts (Some e)
      | Raise e => Raise e
      end
  end.

(** ** What the settings do to the three blobs

    The rewrite of one setting: the section that the pattern locates in the
    blob the descriptor names is replaced, where it was located, by the
    encoding of the value that the value-map holds for the setting.  There
    is no rewrite ([None]) when the pattern is not found, when the value-map
    has no value for the setting, or when the codec raises. *)
Definition rewrite_blobs (nts : NoteTypeSetting) (notetype_name : string)
    (cf : gmap string Value) (b : Blobs) : option Blobs :=
  let file := cfg_file (config nts) in
  let blob := target file b in
  match re_search (cfg_regex (config nts)) blob with
  | None => None
  | Some m =>
      match cf !! key nts notetype_name with
      | None => None
      | Some v =>
          match _set_setting_value nts (slice (m_start m) (m_end m) blob) v with
          | Raise _ => None
          | Ok processed_section =>
              Some (with_target file b
                      (firstn (m_start m) blob ++ processed_section
                       ++ skipn (m_end m) blob))
          end
      end
  end.

(** The rewrites of a list of settings, one after the other. *)
Fixpoint rewrite_all (ntss : list NoteTypeSetting) (notetype_name : string)
    (cf : gmap string Value) (b : Blobs) : option Blobs :=
  match ntss with
  | [] => Some b
  | nts :: ntss' =>
      match rewrite_blobs nts notetype_name cf b with
      | Some b' => rewrite_all ntss' notetype_name cf b'
      | None => None
      end
  end.

(** The type tags [from_config] knows, and the class of each. *)
Definition known_types : list string :=
  ["checkbox"; "re_checkbox"; "text"; "number"; "shortcut"; "dropdown"; "color";
   "font_family"].

Definition class_of_type (type : string) : option SettingClass :=
  if String.eqb type "checkbox" then Some CheckboxSetting
  else if String.eqb type "re_checkbox" then Some ReCheckboxSetting
  else if String.eqb type "text" then Some LineEditSetting
  else if String.eqb type "number" then Some NumberEditSetting
  else if String.eqb type "shortcut" then Some ShortcutSetting
  else if String.eqb type "dropdown" then Some DropdownSetting
  else if String.eqb type "color" then Some ColorSetting
  else if String.eqb type "font_family" then Some FontFamilySetting
  else None.

(** Captures that were left with no more text than they were entered with. *)
Definition caps_ok (c : caps) : Prop := Forall (fun e => e.2.2 <= e.2.1) c.

(** ** The domain of the round trip *)

(** An integer within the bounds the descriptor configures. *)
Definition within_bounds (c : Config) (z : Z) : Prop :=
  (forall lo, cfg_min c = Some lo -> (lo <= z)%Z) /\
  (forall hi, cfg_max c = Some hi -> (z <= hi)%Z).


(** The pattern, searched in [s], captures [s[a:b]] as its group 1. *)
Definition captures (r : regex) (s : text) (a b : nat) : Prop :=
  1 <= ngroups r /\
  exists m, re_search r s = Some m /\ assoc 1 (m_groups m) = Some (a, b).

(** [s] with [s[a:b]] replaced by [v]. *)
Definition splice (s : text) (a b : nat) (v : text) : text :=
  firstn a s ++ v ++ skipn b s.

Definition bool_token (b : bool) : text := if b then txt "true" else txt "false".

(** All on-literals, all off-literals of the pairs are in the section. *)
Definition all_on (pairs : list (text * text)) (section : text) : bool :=
  forallb (fun p => contains p.2 section) pairs.
Definition all_off (pairs : list (text * text)) (section : text) : bool :=
  forallb (fun p => contains p.1 section) pairs.

(** What [ReCheckboxSetting._set_setting_value] writes. *)
Definition swap_pairs (pairs : list (text * text)) (on : bool) (section : text) : text :=
  fold_left (fun result p => if on then replace_all result p.1 p.2
                             else replace_all result p.2 p.1) pairs section.

(** The stored token is captured at [a..b], occurs nowhere in the section
    before [a], and the pattern captures [t] in its place once it is
    written. *)
Definition rewritable (r : regex) (section : text) (a b : nat) (t : text) : Prop :=
  captures r section a b /\
  find (slice a b section) section = Some a /\
  captures r (splice section a b t) a (a + length t).

(** [z] occurs in [s] at position [p]. *)
Definition occurs_at (z s : text) (p : nat) : Prop :=
  p <= length s /\ starts_with z (skipn p s) = true.

(** No occurrence of [x] in [s] overlaps the [n] characters from position
    [p] on. *)
Definition clear_of (x s : text) (p n : nat) : Prop :=
  forall q, occurs_at x s q -> q + length x <= p \/ p + n <= q.

Definition shares_no_char (u v : text) : Prop := forall a, a ∈ u -> a ∉ v.

(** Writing [t] in place of the occurrences of [s] cannot make a new
    occurrence of [s]: [t] holds neither the first nor the last character of
    [s] and is not a part of [s]. *)
Definition not_recreated (s t : text) : Prop :=
  (forall a, head s = Some a -> a ∉ t) /\
  (forall a, last s = Some a -> a ∉ t) /\
  contains t s = false.

(** The pairs as (literal to replace, literal to write) when the state [on]
    is written. *)
Definition oriented (pairs : list (text * text)) (on : bool) : list (text * text) :=
  map (fun p => if on then (p.1, p.2) else (p.2, p.1)) pairs.

(** A section into which the pairs can be written, stated on the section
    and the literals alone.  There is a pair, and no literal to replace is
    empty.  The last pair cannot recreate the literal it replaces.  A literal
    that was written stays: it shares no character with the literals
    replaced after it.  And every pair has one of its two literals in the
    section, at a place that no occurrence of the first literal to replace
    overlaps, and this literal shares no character with the literals
    replaced between the first one and its own. *)
Definition rc_writable (dir : list (text * text)) (section : text) : Prop :=
  dir <> [] /\
  (forall s t, (s, t) ∈ dir -> s <> []) /\
  (forall front s t, dir = front ++ [(s, t)] -> not_recreated s t) /\
  (forall pre s t post, dir = pre ++ (s, t) :: post ->
     Forall (fun st => shares_no_char t st.1) post /\
     exists z p,
       (z = s \/ z = t) /\ occurs_at z section p /\
       match pre with
       | [] => True
       | (s1, _) :: mid =>
           clear_of s1 section p (length z) /\
           Forall (fun st => shares_no_char z st.1) mid
       end).

(** The values of a descriptor that can be written into a section and read
    back: for text, shortcut and font family every text that the pattern
    captures in place; for check boxes, drop-downs, numbers and colors
    (without the inherit option) moreover the stored token, for a number in
    decimal form, must not occur in the section before its captured place;
    for a pair check box a boolean and a section into which the pairs can be
    written in the direction of this boolean. *)
Definition in_domain (nts : NoteTypeSetting) (section : text) (v : Value) : Prop :=
  let r := cfg_regex (config nts) in
  match nts_class nts with
  | LineEditSetting | FontFamilySetting | ShortcutSetting =>
      exists t a b,
        v = VStr t /\ captures r section a b /\
        captures r (splice section a b t) a (a + length t)
  | CheckboxSetting =>
      exists bv a b,
        v = VBool bv /\
        (slice a b section = txt "true" \/ slice a b section = txt "false") /\
        rewritable r section a b (bool_token bv)
  | DropdownSetting =>
      exists t a b, v = VStr t /\ rewritable r section a b t
  | ColorSetting =>
      with_inherit_option (config nts) = false /\
      exists t a b, v = VStr t /\ rewritable r section a b t
  | NumberEditSetting =>
      exists z cur a b,
        v = VInt z /\ slice a b section = str_int cur /\
        rewritable r section a b (str_int z)
  | ReCheckboxSetting =>
      exists bv pairs,
        v = VBool bv /\ cfg_replacement_pairs (config nts) = Some pairs /\
        rc_writable (oriented pairs bv) section
  end.

(** The number a text of decimal digits denotes, after the digits [acc]. *)
Fixpoint digits_val (ds : text) (acc : Z) : Z :=
  match ds with
  | [] => acc
  | a :: ds' => digits_val ds' (10 * acc + digit_val a)
  end.

(** ** Example data *)

Definition nl : text := [newline].

(** A note type Cloze: front and back template and styling. *)
Definition ex_front : text :=
  txt "<!-- version 1a2b -->" ++ nl ++
  txt "var autoflip = true;" ++ nl ++
  qtxt "var tagID = `XXXYYYZZZ`;" ++ nl.

Definition ex_back : text :=
  qtxt "var ButtonShortcuts = { `Extra` : `Alt+1`, `Notes` : `Alt+2` }" ++ nl ++
  qtxt "{{#Extra}}<div id=`extra`>{{Extra}}</div>{{/Extra}}" ++ nl ++
  qtxt "{{#Source}}<b>{{Source}}</b>{{/Source}}" ++ nl ++
  qtxt "<!-- {{#Notes}}<div class=`hint`>{{Notes}}</div>{{/Notes}} -->" ++ nl.

Definition ex_css : text :=
  txt "html { font-size: 28px; }" ++ nl ++
  txt ".timer {display: none;}" ++ nl ++
  txt "b { color: red; }" ++ nl.

Definition ex_model : NotetypeDict := mkModel "Cloze" ex_css [0] [("id", VInt 7)].
Definition ex_template : Template := mkTemplate ex_front ex_back [("name", VStr (txt "Card 1"))].

Definition ex_conf : gmap string Value :=
  <["Cloze.autoflip" := VBool false]>
  (<["Cloze.font_size" := VInt 30]>
  (<["Cloze.timer_secs" := VInt 5]> ∅)).

Definition ex_world : World := mkWorld [ex_model] [ex_template] ex_conf [].

Definition nts_autoflip : NoteTypeSetting := mkNts CheckboxSetting autoflip.
Definition nts_timer_secs : NoteTypeSetting := mkNts NumberEditSetting timer_secs.
Definition nts_font_size : NoteTypeSetting := mkNts NumberEditSetting font_size.
Definition nts_signal_tag : NoteTypeSetting := mkNts LineEditSetting front_signal_tag.
Definition nts_timer : NoteTypeSetting := mkNts ReCheckboxSetting timer.
Definition nts_front_tts : NoteTypeSetting := mkNts ReCheckboxSetting front_tts.
Definition nts_bold : NoteTypeSetting := mkNts ColorSetting bold_text_color.
Definition nts_cloze_mode : NoteTypeSetting := mkNts DropdownSetting reveal_next_cloze_mode.
Definition nts_autoreveal_extra : NoteTypeSetting :=
  mkNts CheckboxSetting (button_auto_reveal_setting_config "autoreveal_extra" "Extra").

(** Settings tagged with the button they belong to. *)
Definition hint_nts (setting_name btn : string) `{!PlainName btn} : NoteTypeSetting :=
  mkNts ShortcutSetting
    (with_hint_button (txt btn) (button_shortcut_setting_config setting_name btn)).

(** Settings tagged with a configurable field. *)
Definition field_nts (setting_name field : string) `{!PlainName field}
  : NoteTypeSetting :=
  mkNts ShortcutSetting (button_shortcut_setting_config setting_name field).

Definition ex_addon : Addon :=
  mkAddon (<["Cloze" := (ex_front, ex_back, ex_css)]> ∅)
    (<["timer_secs" := timer_secs]> (<["autoflip" := autoflip]> ∅))
    [("Cloze", ["timer_secs"; "autoflip"])]
    (<["Cloze" := 0]> ∅).

(** The collection's Cloze note type with a timer of nine and a half
    seconds, and with no timer at all. *)
Definition ex_world_decimal : World :=
  mkWorld [ex_model]
    [mkTemplate (txt "var seconds = 9.5" ++ nl ++ txt "var autoflip = true;" ++ nl)
       ex_back []]
    ∅ [].

Definition ex_world_no_timer : World :=
  mkWorld [ex_model] [mkTemplate (txt "var autoflip = true;" ++ nl) ex_back []] ∅ [].

(** ** Further functions of the add-on *)

(** [update_clayout_on_reset] ([config.py], in [change_window_settings]):
    the settings of the note type are written into the model of the card
    layout screen one after the other, with no handler around
    [updated_model]; the source notes that a [NotetypeParseException] could
    occur.  The model that ends up as [clayout.model] is returned. *)
Fixpoint update_clayout_loop (ntss : list NoteTypeSetting) (model : nat)
    (notetype_name : string) : M nat :=
  match ntss with
  | [] => ret model
  | nts :: ntss' =>
      (model' <- updated_model nts model notetype_name ;;
       update_clayout_loop ntss' model' notetype_name)%M
  end.

Definition update_clayout_on_reset (a : Addon) (model : nat) : M nat :=
  (d <- get_model model ;;
   let notetype_name := name d in
   ntss <- lift (ntss_for_notetype a notetype_name) ;;
   update_clayout_loop ntss model notetype_name)%M.

(** [update_all], the handler that [register_general_setting] installs: a
    change of the general value of a setting is copied to every note type
    that lists the setting.  [conf.set(..., trigger_change_hook=False)] is
    the plain store of the value-map; the refresh of the widgets at the end
    is not part of the model. *)
Fixpoint update_all_loop (a : Addon) (nts : NoteTypeSetting) (value : Value)
    (notetype_names : list string) : M unit :=
  match notetype_names with
  | [] => ret tt
  | notetype_name :: rest =>
      if negb (bool_decide (cfg_setting_name (config nts)
                              ∈ dict_get notetype_name (settings_by_notetype a)))
      then update_all_loop a nts value rest
      else (conf_set (key nts notetype_name) value ;;;
            update_all_loop a nts value rest)%M
  end.

Definition update_all (a : Addon) (nts : NoteTypeSetting) (k : string) (value : Value)
  : M unit :=
  if negb (String.eqb (key nts "general") k) then ret tt
  else update_all_loop a nts value (map fst (settings_by_notetype a)).

(** [re.match]: a match at the start of the text only. *)
Definition re_match (r : regex) (s : text) : option Match :=
  match rmatch r s [] kdone with
  | Some (s', c) => Some (mkMatch 0 (length s - length s') (abs_caps (length s) c))
  | None => None
  end.

(** The version stamp, r`<!-- version ([\w\d]+) -->\n` *)
Definition VERSION_RE : regex :=
  seqs [lit "<!-- version "; Group 1 (Plus true (Cls (CSet false [IWord; IDigit])));
        lit " -->"; Cls (CChar newline)].

(** [model_version] ([gui/config_window.py]): the version stamp in the first
    line of the front template, [None] when there is none. *)
Definition model_version (model : nat) : M Value :=
  (d <- get_model model ;;
   match tmpls d with
   | [] => raise IndexError
   | template :: _ =>
       t <- get_template template ;;
       let front := qfmt t in
       match re_match VERSION_RE front with
       | None => ret VNone
       | Some m => lift (group VERSION_RE front m 1)
       end
   end)%M.

(** The front template with a version stamp in front of it. *)
Definition version_header (v : text) : text :=
  txt "<!-- version " ++ v ++ txt " -->" ++ nl.

Definition is_version_char (a : ascii) : bool :=
  cls_mem (CSet false [IWord; IDigit]) a.

(** The position in the mapping of the button a setting is tagged with. *)
Definition hint_key (ordered_btn_names : list Value) (nts : NoteTypeSetting) : Z :=
  match index_of (tag_of (cfg_hint_button_setting (config nts))) ordered_btn_names with
  | Some i => Z.of_nat i
  | None => 0%Z
  end.

(** The effect of [update_clayout_on_reset]'s loop on the model's dict and the
    template dicts. *)
Fixpoint update_clayout_pure (ntss : list NoteTypeSetting) (notetype_name : string)
    (cf : gmap string Value) (d : NotetypeDict) (ts : list Template)
  : res (NotetypeDict * list Template) :=
  match ntss with
  | [] => Ok (d, ts)
  | nts :: ntss' =>
      match encode_pure nts notetype_name cf d ts with
      | Ok (d', ts') => update_clayout_pure ntss' notetype_name cf d' ts'
      | Raise e => Raise e
      end
  end.

(** The decoded value of a setting, from the dicts alone. *)
Definition decode_pure (nts : NoteTypeSetting) (ms : list NotetypeDict)
    (ts : list Template) (model : nat) : res Value :=
  match ms !! model with
  | None => Raise BadRef
  | Some d =>
      match tmpls d with
      | [template] =>
          match ts !! template with
          | None => Raise BadRef
          | Some t =>
              let file := cfg_file (config nts) in
              let template_text := target file (mkBlobs (qfmt t) (afmt t) (css d)) in
              match re_search (cfg_regex (config nts)) template_text with
              | None =>
                  Raise (NotetypeParseException
                           (CouldNotFind (cfg_name (config nts)) file (name d)))
              | Some m =>
                  _extract_setting_value nts
                    (slice (m_start m) (m_end m) template_text)
              end
          end
      | _ => Raise AssertionError
      end
  end.

(** The message of a [NotetypeParseException], when that is how decoding
    ended. *)
Definition parse_failure (r : res Value) : option ParseMsg :=
  match r with
  | Raise (NotetypeParseException e) => Some e
  | _ => None
  end.

(** A pair of worlds that differ only in what [updated_model] may change:
    the value-map and the shown messages are the same and no stored model
    dict was overwritten. *)
Definition extends (w w' : World) : Prop :=
  conf w' = conf w /\ ui w' = ui w /\
  forall m d, models w !! m = Some d -> models w' !! m = Some d.

(** * Properties *)

(** ** Text *)

Lemma starts_with_app p r : starts_with p (p ++ r) = true.
Proof.
  induction p as [|a p IH]; simpl; [done|].
  destruct (decide (a = a)); [done|congruence].
Qed.

Lemma starts_with_inv p s : starts_with p s = true -> exists r, s = p ++ r.
Proof.
  revert s; induction p as [|a p IH]; intros s H; simpl in *.
  - by exists s.
  - destruct s as [|b s]; [done|].
    destruct (decide (a = b)) as [->|]; [|done].
    destruct (IH _ H) as [r ->]. by exists r.
Qed.

Lemma find_bound p s i : find p s = Some i -> i <= length s.
Proof.
  revert i; induction s as [|b s IH]; intros i; simpl.
  - destruct (starts_with p []); [|done]. intros [= <-]. lia.
  - destruct (starts_with p (b :: s)); [intros [= <-]; lia|].
    destruct (find p s) as [j|] eqn:E; simpl; [|done].
    intros [= <-]. specialize (IH j eq_refl). lia.
Qed.

(** [find] returns the first position at which the text occurs. *)
Lemma find_first p s i :
  i <= length s ->
  starts_with p (skipn i s) = true ->
  (forall j, j < i -> starts_with p (skipn j s) = false) ->
  find p s = Some i.
Proof.
  revert i; induction s as [|b s IH]; intros i Hi Hp Hlt.
  - assert (i = 0) as -> by (simpl in Hi; lia). simpl in *. by rewrite Hp.
  - destruct i as [|i].
    + simpl in Hp. simpl. by rewrite Hp.
    + cbn [find]. pose proof (Hlt 0 ltac:(lia)) as H0. simpl in H0. rewrite H0.
      rewrite (IH i); [done|simpl in Hi; lia|done|].
      intros j Hj. apply (Hlt (S j)). lia.
Qed.

Lemma find_Some_starts p s i : find p s = Some i -> starts_with p (skipn i s) = true.
Proof.
  revert i; induction s as [|b s IH]; intros i; cbn [find].
  - destruct (starts_with p []) eqn:E; [|done]. by intros [= <-].
  - destruct (starts_with p (b :: s)) eqn:E; [by intros [= <-]|].
    destruct (find p s) as [j|] eqn:F; simpl; [|done].
    intros [= <-]. simpl. by apply IH.
Qed.

Lemma find_None_starts p s j :
  find p s = None -> j <= length s -> starts_with p (skipn j s) = false.
Proof.
  revert j; induction s as [|b s IH]; intros j; cbn [find].
  - destruct (starts_with p []) eqn:E; [done|]. intros _ Hj.
    assert (j = 0) as -> by (simpl in Hj; lia). done.
  - destruct (starts_with p (b :: s)) eqn:E; [done|].
    destruct (find p s) as [k|] eqn:F; simpl; [done|].
    intros _ Hj. destruct j as [|j]; [done|]. simpl. apply IH; [done|simpl in Hj; lia].
Qed.

Lemma slice_app a t r : slice (length a) (length a + length t) (a ++ t ++ r) = t.
Proof.
  unfold slice. replace (length a + length t - length a) with (length t) by lia.
  by rewrite drop_app_length, take_app_length.
Qed.

(** Replacing the first occurrence of a slice that first occurs where it was
    cut out rewrites exactly that slice. *)
Lemma replace_first_at s a b new :
  a <= b -> b <= length s ->
  find (slice a b s) s = Some a ->
  replace_first s (slice a b s) new = firstn a s ++ new ++ skipn b s.
Proof.
  intros Hab Hb Hf. unfold replace_first. rewrite Hf.
  do 3 f_equal. unfold slice. rewrite length_firstn, length_skipn. lia.
Qed.

(** ** The matcher against the language of a pattern *)

Lemma orelse_Some a b x :
  orelse a b = Some x -> a = Some x \/ (a = None /\ b = Some x).
Proof. destruct a; simpl; intros; [left; congruence | by right]. Qed.

Lemma orelse_not_None_l a b : a <> None -> orelse a b <> None.
Proof. by destruct a. Qed.

Lemma orelse_not_None_r a b : b <> None -> orelse a b <> None.
Proof. by destruct a. Qed.

(** Soundness: a successful run has consumed a text of the language, and the
    continuation succeeded on the rest. *)
Lemma rmatch_sound r :
  forall s c k res,
    rmatch r s c k = Some res ->
    exists t s' c', s = t ++ s' /\ Matches r t /\ k s' c' = Some res.
Proof.
  induction r as [|p|r1 IH1 r2 IH2|r1 IH1 r2 IH2|g r1 IH1|i r1 IH1];
    intros s c k res H; simpl in H.
  - exists [], s, c. split_and!; [done|constructor|done].
  - destruct s as [|a s]; [done|].
    destruct (cls_mem p a) eqn:E; [|done].
    exists [a], s, c. split_and!; [done|by constructor|done].
  - apply IH1 in H as (t1 & s1 & c1 & -> & M1 & H).
    apply IH2 in H as (t2 & s2 & c2 & -> & M2 & H).
    exists (t1 ++ t2), s2, c2. split_and!; [by rewrite app_assoc|by constructor|done].
  - apply orelse_Some in H as [H|[_ H]].
    + apply IH1 in H as (t & s' & c' & -> & M & H).
      exists t, s', c'. split_and!; [done|by apply MAltL|done].
    + apply IH2 in H as (t & s' & c' & -> & M & H).
      exists t, s', c'. split_and!; [done|by apply MAltR|done].
  - remember (length s) as n eqn:En. clear En. revert s c H.
    induction n as [|n IHn]; intros s c H; simpl in H.
    + exists [], s, c. split_and!; [done|constructor|done].
    + assert (rmatch r1 s c
                (fun s1 c1 => if length s1 <? length s
                              then star_loop (rmatch r1) g k n s1 c1 else None) = Some res
              \/ k s c = Some res) as [H1|H1].
      { destruct g; apply orelse_Some in H; tauto. }
      * apply IH1 in H1 as (t1 & s1 & c1 & -> & M1 & H1).
        destruct (length s1 <? length (t1 ++ s1)) eqn:E; [|done].
        apply Nat.ltb_lt in E. rewrite length_app in E.
        apply IHn in H1 as (t2 & s2 & c2 & -> & M2 & H2).
        exists (t1 ++ t2), s2, c2. split_and!; [by rewrite app_assoc| |done].
        apply MStarS; [done| |done]. intros ->. simpl in E. lia.
      * exists [], s, c. split_and!; [done|constructor|done].
  - apply IH1 in H as (t & s' & c' & -> & M & H).
    eexists t, s', _. split_and!; [done|by constructor|exact H].
Qed.

(** Completeness: on a text of the language, followed by anything the
    continuation accepts, the matcher finds some match. *)
Lemma rmatch_complete r :
  forall t, Matches r t ->
  forall s' c k, (forall c', k s' c' <> None) -> rmatch r (t ++ s') c k <> None.
Proof.
  induction r as [|p|r1 IH1 r2 IH2|r1 IH1 r2 IH2|g r1 IH1|i r1 IH1];
    intros t M s' c k Hk.
  - inversion M; subst. simpl. apply Hk.
  - inversion M; subst. simpl. rewrite H0. apply Hk.
  - inversion M; subst. simpl. rewrite <- app_assoc.
    apply IH1; [done|]. intros c'. by apply IH2.
  - simpl. inversion M; subst.
    + apply orelse_not_None_l. by apply IH1.
    + apply orelse_not_None_r. by apply IH2.
  - simpl. generalize (Nat.le_refl (length (t ++ s'))).
    generalize (length (t ++ s')) at 2 3 as n. intros n. revert c.
    remember (Star g r1) as r eqn:Er. revert n.
    induction M as [| | | | |g' r'|g' r' t1 t2 M1 _ Hne M2 IHM2|]; try discriminate;
      injection Er as -> ->; intros n c Hn.
    + simpl. destruct n as [|n]; simpl; [apply Hk|].
      destruct g; [apply orelse_not_None_r|apply orelse_not_None_l]; apply Hk.
    + destruct n as [|n].
      { rewrite !length_app in Hn. destruct t1; [done|simpl in Hn; lia]. }
      simpl.
      assert (rmatch r1 ((t1 ++ t2) ++ s') c
                (fun s1 c1 => if length s1 <? length ((t1 ++ t2) ++ s')
                              then star_loop (rmatch r1) g k n s1 c1 else None) <> None)
        as Hagain.
      { rewrite <- app_assoc. apply IH1; [done|]. intros c'.
        assert (length (t2 ++ s') < length (t1 ++ t2 ++ s')) as Hlt.
        { rewrite (length_app t1). destruct t1; [done|simpl; lia]. }
        apply Nat.ltb_lt in Hlt as Hlt'. rewrite Hlt'.
        apply IHM2; [done|]. rewrite <- app_assoc in Hn. lia. }
      destruct g; [by apply orelse_not_None_l|by apply orelse_not_None_r].
  - inversion M; subst. simpl. apply IH1; [done|]. intros c'. apply Hk.
Qed.

(** [re.search] returns the leftmost position with a match. *)
Lemma search_from_spec r s : forall pos m,
  search_from r pos s = Some m ->
  exists i s' c,
    i <= length s /\
    rmatch r (skipn i s) [] kdone = Some (s', c) /\
    (forall j, j < i -> rmatch r (skipn j s) [] kdone = None) /\
    m_start m = pos + i /\
    m_end m = pos + i + (length (skipn i s) - length s') /\
    m_groups m = abs_caps (pos + length s) c.
Proof.
  induction s as [|a s IH]; intros pos m H; cbn [search_from] in H.
  - destruct (rmatch r [] [] kdone) as [[s' c]|] eqn:E; [|done].
    injection H as <-. exists 0, s', c. simpl.
    split_and!; try done; try lia; try (intros j Hj; lia).
  - destruct (rmatch r (a :: s) [] kdone) as [[s' c]|] eqn:E.
    + injection H as <-. exists 0, s', c. simpl.
      split_and!; try done; try lia; try (intros j Hj; lia).
    + apply IH in H as (i & s' & c & Hi & Hm & Hlt & Hs & He & Hg).
      exists (S i), s', c. simpl. split_and!; try done; try lia.
      * intros [|j] Hj; [done|]. simpl. apply Hlt. lia.
      * rewrite Hg. f_equal. lia.
Qed.

(** A match splits the text: what is in front of it, the match, the rest;
    and the pattern matches nowhere in front of the match. *)
Lemma re_search_split r s m :
  re_search r s = Some m ->
  exists pre t post c,
    s = pre ++ t ++ post /\
    m_start m = length pre /\
    m_end m = length pre + length t /\
    Matches r t /\
    rmatch r (t ++ post) [] kdone = Some (post, c) /\
    m_groups m = abs_caps (length s) c /\
    (forall j, j < length pre -> rmatch r (skipn j s) [] kdone = None).
Proof.
  intros H. apply search_from_spec in H as (i & s' & c & Hi & Hm & Hlt & Hs & He & Hg).
  simpl in Hs, He, Hg.
  pose proof Hm as Hm'.
  apply rmatch_sound in Hm as (t & s1 & c1 & Hsplit & M & Hk).
  injection Hk as -> ->.
  exists (firstn i s), t, s', c.
  assert (length (firstn i s) = i) as Hli by (rewrite length_take; lia).
  rewrite Hli. split_and!; try done.
  - by rewrite <- Hsplit, take_drop.
  - rewrite He, Hsplit, length_app. lia.
  - by rewrite <- Hsplit.
Qed.

(** The span of a match lies inside the text, and the matched text occurs
    nowhere further left: [s.replace(section, new, 1)] rewrites the match. *)
Lemma re_search_span r s m :
  re_search r s = Some m ->
  m_start m <= m_end m /\ m_end m <= length s /\
  Matches r (slice (m_start m) (m_end m) s) /\
  find (slice (m_start m) (m_end m) s) s = Some (m_start m).
Proof.
  intros H.
  apply re_search_split in H as (pre & t & post & c & -> & -> & -> & M & _ & _ & Hlt).
  rewrite slice_app. split_and!; try done.
  - lia.
  - rewrite !length_app. lia.
  - apply find_first.
    + rewrite length_app. lia.
    + rewrite drop_app_length. apply starts_with_app.
    + intros j Hj. destruct (starts_with t (skipn j (pre ++ t ++ post))) eqn:E; [|done].
      apply starts_with_inv in E as [rest E].
      specialize (Hlt j Hj). rewrite E in Hlt.
      exfalso. revert Hlt. by apply rmatch_complete.
Qed.

(** ** [updated_model] and [safe_update_model] on the store *)

Lemma lookup_snoc_new {A} (l : list A) (x : A) : (l ++ [x]) !! length l = Some x.
Proof. by rewrite list_lookup_middle. Qed.

Lemma alter_snoc_new {A} (f : A -> A) (l : list A) (x : A) :
  alter f (length l) (l ++ [x]) = l ++ [f x].
Proof.
  replace (length l) with (length l + 0) by lia.
  by rewrite alter_app_r.
Qed.

Lemma relevant_template_text_eq nts model w d :
  models w !! model = Some d ->
  _relevant_template_text nts model w =
    match tmpls d with
    | [template] =>
        match templates w !! template with
        | Some t =>
            (Ok (target (cfg_file (config nts)) (mkBlobs (qfmt t) (afmt t) (css d))), w)
        | None => (Raise BadRef, w)
        end
    | _ => (Raise AssertionError, w)
    end.
Proof.
  intros Hd. unfold _relevant_template_text, bind, get_model, the_template.
  rewrite Hd. destruct (tmpls d) as [|template [|??]]; try done.
  unfold ret, get_template. destruct (templates w !! template) as [t|]; [|done].
  unfold target. simpl.
  by repeat destruct (String.eqb _ _).
Qed.

(** [updated_model] stores a copy of the dict at a new address and otherwise
    does what [encode_pure] says. *)
Lemma updated_model_pure nts model notetype_name w d :
  models w !! model = Some d ->
  updated_model nts model notetype_name w =
    match encode_pure nts notetype_name (conf w) d (templates w) with
    | Ok (d', ts') =>
        (Ok (length (models w)), mkWorld (models w ++ [d']) ts' (conf w) (ui w))
    | Raise e =>
        (Raise e, mkWorld (models w ++ [d]) (templates w) (conf w) (ui w))
    end.
Proof.
  intros Hd. unfold updated_model, copy.
  unfold bind at 1. rewrite Hd.
  set (w1 := set_models (fun ms => ms ++ [d]) w).
  assert (models w1 !! length (models w) = Some d) as Hd1 by apply lookup_snoc_new.
  unfold bind at 1. unfold _relevant_template_section. unfold bind at 1.
  rewrite (relevant_template_text_eq _ _ _ _ Hd1).
  unfold encode_pure.
  destruct (tmpls d) as [|template [|??]] eqn:Etm; try done.
  change (templates w1) with (templates w).
  destruct (templates w !! template) as [t|] eqn:Et; [|done].
  set (blob := target _ _).
  destruct (re_search (cfg_regex (config nts)) blob) as [m|] eqn:Em.
  2:{ unfold bind, get_model. by rewrite Hd1. }
  unfold ret at 1. unfold bind at 1, conf_get. change (conf w1) with (conf w).
  destruct (conf w !! key nts notetype_name) as [v|]; [|done].
  unfold bind at 1, lift.
  destruct (_set_setting_value nts _ v) as [processed|e]; [|done].
  unfold bind at 1. rewrite (relevant_template_text_eq _ _ _ _ Hd1), Etm.
  change (templates w1) with (templates w). rewrite Et. fold blob.
  unfold bind at 1, get_model. rewrite Hd1.
  unfold bind at 1, the_template. rewrite Etm. unfold ret at 1.
  unfold bind, ret.
  destruct (String.eqb (cfg_file (config nts)) "front"); [done|].
  destruct (String.eqb (cfg_file (config nts)) "back"); [done|].
  unfold set_css, set_models, w1. simpl. rewrite alter_snoc_new. by rewrite Etm.
Qed.

Lemma updated_model_bad_ref nts model notetype_name w :
  models w !! model = None ->
  updated_model nts model notetype_name w = (Raise BadRef, w).
Proof. intros H. unfold updated_model, bind, copy. by rewrite H. Qed.

Lemma safe_update_loop_cons nts ntss result pe w d :
  models w !! result = Some d ->
  safe_update_loop (nts :: ntss) result pe w =
    match encode_pure nts (name d) (conf w) d (templates w) with
    | Ok (d', ts') =>
        safe_update_loop ntss (length (models w)) pe
          (mkWorld (models w ++ [d']) ts' (conf w) (ui w))
    | Raise (NotetypeParseException e) =>
        safe_update_loop ntss result (Some e)
          (mkWorld (models w ++ [d]) (templates w) (conf w) (ui w))
    | Raise e => (Raise e, mkWorld (models w ++ [d]) (templates w) (conf w) (ui w))
    end.
Proof.
  intros Hd. cbn [safe_update_loop].
  unfold bind at 1, try_except, bind at 1, get_model. rewrite Hd.
  unfold bind at 1. rewrite (updated_model_pure _ _ _ _ _ Hd).
  destruct (encode_pure nts (name d) (conf w) d (templates w)) as [[d' ts']|e]; [done|].
  by destruct e.
Qed.

(** The loop of [safe_update_model] against [safe_update_pure]. *)
Lemma safe_update_loop_pure ntss : forall result pe w d,
  models w !! result = Some d ->
  match safe_update_pure ntss (conf w) d (templates w) pe with
  | Ok (d', ts', pe') =>
      exists result' ms',
        safe_update_loop ntss result pe w
          = (Ok (result', pe'), mkWorld ms' ts' (conf w) (ui w))
        /\ ms' !! result' = Some d'
  | Raise e => exists w', safe_update_loop ntss result pe w = (Raise e, w')
  end.
Proof.
  induction ntss as [|nts ntss IH]; intros result pe w d Hd.
  - simpl. exists result, (models w). by destruct w.
  - rewrite (safe_update_loop_cons _ _ _ _ _ _ Hd). cbn [safe_update_pure].
    destruct (encode_pure nts (name d) (conf w) d (templates w))
      as [[d' ts']|e] eqn:Ee.
    + apply (IH (length (models w)) pe (mkWorld _ _ _ _) d' (lookup_snoc_new _ _)).
    + destruct e as [msg| | | | | | | |]; try (eexists; reflexivity).
      apply (IH result (Some msg) (mkWorld _ _ _ _) d).
      simpl. by apply lookup_app_l_Some.
Qed.

Lemma safe_update_model_pure ntss model w d :
  models w !! model = Some d ->
  match safe_update_pure ntss (conf w) d (templates w) None with
  | Ok (d', ts', pe') =>
      exists result' ms',
        safe_update_model ntss model w
          = (Ok result',
             mkWorld ms' ts' (conf w)
               (ui w ++ match pe' with Some e => [Tooltip e] | None => [] end))
        /\ ms' !! result' = Some d'
  | Raise e => exists w', safe_update_model ntss model w = (Raise e, w')
  end.
Proof.
  intros Hd.
  pose proof (safe_update_loop_pure ntss (length (models w)) None
                (set_models (fun ms => ms ++ [d]) w) d (lookup_snoc_new _ _)) as H.
  cbn [conf templates ui set_models] in H.
  destruct (safe_update_pure ntss (conf w) d (templates w) None) as [[[d' ts'] pe']|e].
  - destruct H as (result' & ms' & H & Hl). exists result', ms'.
    unfold safe_update_model, bind at 1, copy. rewrite Hd.
    unfold bind at 1. rewrite H. cbn [fst snd]. split; [|done].
    destruct pe' as [e|]; [|unfold ret; by rewrite app_nil_r].
    by unfold bind, tooltip, ret, set_ui.
  - destruct H as [w' H]. exists w'.
    unfold safe_update_model, bind at 1, copy. rewrite Hd.
    unfold bind. by rewrite H.
Qed.

Lemma blobs_of_env_inv w model b :
  blobs_of w model = Some b ->
  exists d template t,
    models w !! model = Some d /\ tmpls d = [template] /\
    templates w !! template = Some t /\
    b = mkBlobs (qfmt t) (afmt t) (css d) /\
    envelope_of w model = Some (name d, tmpls d, other d, t_other t).
Proof.
  unfold blobs_of, envelope_of. intros H.
  destruct (models w !! model) as [d|]; [|done].
  destruct (tmpls d) as [|template [|??]] eqn:E; try done.
  destruct (templates w !! template) as [t|] eqn:Et; [|done].
  injection H as <-. exists d, template, t. by rewrite E.
Qed.

(** What a successful [updated_model] has done. *)
Lemma updated_model_Ok nts model notetype_name w result w' :
  updated_model nts model notetype_name w = (Ok result, w') ->
  exists d template t m v processed_section,
    models w !! model = Some d /\ tmpls d = [template] /\
    templates w !! template = Some t /\
    let file := cfg_file (config nts) in
    let blob := target file (mkBlobs (qfmt t) (afmt t) (css d)) in
    let updated_text :=
      firstn (m_start m) blob ++ processed_section ++ skipn (m_end m) blob in
    re_search (cfg_regex (config nts)) blob = Some m /\
    conf w !! key nts notetype_name = Some v /\
    _set_setting_value nts (slice (m_start m) (m_end m) blob) v = Ok processed_section /\
    result = length (models w) /\
    conf w' = conf w /\ ui w' = ui w /\
    w' = mkWorld
           (models w ++
              [if String.eqb file "front" || String.eqb file "back" then d
               else mkModel (name d) updated_text (tmpls d) (other d)])
           (if String.eqb file "front"
            then alter (fun x => mkTemplate updated_text (afmt x) (t_other x)) template
                   (templates w)
            else if String.eqb file "back"
            then alter (fun x => mkTemplate (qfmt x) updated_text (t_other x)) template
                   (templates w)
            else templates w)
           (conf w) (ui w).
Proof.
  intros H.
  destruct (models w !! model) as [d|] eqn:Hd.
  2:{ by rewrite updated_model_bad_ref in H. }
  rewrite (updated_model_pure _ _ _ _ _ Hd) in H.
  unfold encode_pure in H.
  destruct (tmpls d) as [|template [|??]] eqn:Etm; try done.
  destruct (templates w !! template) as [t|] eqn:Et; [|done].
  set (blob := target _ _) in *.
  destruct (re_search (cfg_regex (config nts)) blob) as [m|] eqn:Em; [|done].
  destruct (conf w !! key nts notetype_name) as [v|] eqn:Ev; [|done].
  destruct (_set_setting_value nts _ v) as [processed|e] eqn:Ep; [|done].
  apply re_search_span in Em as Hspan. destruct Hspan as (Hab & Hb & _ & Hfind).
  rewrite (replace_first_at _ _ _ _ Hab Hb Hfind) in *.
  exists d, template, t, m, v, processed. cbn zeta. fold blob.
  destruct (String.eqb (cfg_file (config nts)) "front");
    [|destruct (String.eqb (cfg_file (config nts)) "back")];
    injection H as <- <-; simpl; rewrite ?Etm; by split_and!.
Qed.

(** C2. Locality of encode: a successful [updated_model] returns a model
    whose target blob (named by the descriptor's file) is the input's blob
    with the located section, and only it, rewritten: the text in front of
    the section and the text behind it are kept, the two other blobs are
    those of the input, and so are the name, the template list and all other
    keys. *)
Theorem updated_model_locality nts model notetype_name w result w' :
  updated_model nts model notetype_name w = (Ok result, w') ->
  exists b m v processed_section,
    blobs_of w model = Some b /\
    let file := cfg_file (config nts) in
    let blob := target file b in
    re_search (cfg_regex (config nts)) blob = Some m /\
    m_start m <= m_end m <= length blob /\
    conf w !! key nts notetype_name = Some v /\
    _set_setting_value nts (slice (m_start m) (m_end m) blob) v = Ok processed_section /\
    blobs_of w' result
      = Some (with_target file b
                (firstn (m_start m) blob ++ processed_section ++ skipn (m_end m) blob)) /\
    envelope_of w' result = envelope_of w model.
Proof.
  intros H.
  apply updated_model_Ok in H
    as (d & template & t & m & v & p & Hd & Etm & Et & Em & Ev & Ep & -> & _ & _ & ->).
  exists (mkBlobs (qfmt t) (afmt t) (css d)), m, v, p.
  apply re_search_span in Em as Hspan. destruct Hspan as (Hab & Hb & _).
  unfold blobs_of, envelope_of. rewrite Hd, Etm, Et. cbn zeta.
  split_and!; try done.
  - simpl. rewrite lookup_snoc_new. unfold with_target.
    destruct (String.eqb (cfg_file (config nts)) "front") eqn:E1;
      [|destruct (String.eqb (cfg_file (config nts)) "back") eqn:E2]; simpl; rewrite ?Etm.
    + by rewrite list_lookup_alter_eq, Et.
    + by rewrite list_lookup_alter_eq, Et.
    + by rewrite Et.
  - simpl. rewrite lookup_snoc_new.
    destruct (String.eqb (cfg_file (config nts)) "front") eqn:E1;
      [|destruct (String.eqb (cfg_file (config nts)) "back") eqn:E2]; simpl; rewrite ?Etm.
    + by rewrite list_lookup_alter_eq, Et.
    + by rewrite list_lookup_alter_eq, Et.
    + by rewrite Et.
Qed.

Lemma safe_update_pure_app l1 l2 cf : forall d ts pe,
  safe_update_pure (l1 ++ l2) cf d ts pe =
    match safe_update_pure l1 cf d ts pe with
    | Ok (d1, ts1, pe1) => safe_update_pure l2 cf d1 ts1 pe1
    | Raise e => Raise e
    end.
Proof.
  induction l1 as [|nts l1 IH]; intros d ts pe; simpl; [done|].
  destruct (encode_pure nts (name d) cf d ts) as [[d' ts']|e]; [apply IH|].
  destruct e; done.
Qed.

(** A run that ends without a recorded failure started without one, and
    gives the same dicts whatever failure was recorded before. *)
Lemma safe_update_pure_None l cf : forall d ts pe d' ts',
  safe_update_pure l cf d ts pe = Ok (d', ts', None) ->
  pe = None /\ forall pe2, safe_update_pure l cf d ts pe2 = Ok (d', ts', pe2).
Proof.
  induction l as [|nts l IH]; intros d ts pe d' ts' H; simpl in *.
  - injection H as <- <- ->. done.
  - destruct (encode_pure nts (name d) cf d ts) as [[d1 ts1]|e]; [by apply IH in H|].
    destruct e; try done. by apply IH in H as [? _].
Qed.

Lemma blobs_of_world ms ts cf u r d :
  ms !! r = Some d ->
  blobs_of (mkWorld ms ts cf u) r =
    match tmpls d with
    | [template] =>
        match ts !! template with
        | Some t => Some (mkBlobs (qfmt t) (afmt t) (css d))
        | None => None
        end
    | _ => None
    end.
Proof. intros H. unfold blobs_of. simpl. by rewrite H. Qed.

Lemma envelope_of_world ms ts cf u r d :
  ms !! r = Some d ->
  envelope_of (mkWorld ms ts cf u) r =
    match tmpls d with
    | [template] =>
        match ts !! template with
        | Some t => Some (name d, tmpls d, other d, t_other t)
        | None => None
        end
    | _ => None
    end.
Proof. intros H. unfold envelope_of. simpl. by rewrite H. Qed.

(** A successful [safe_update_model] against [safe_update_pure]. *)
Lemma safe_update_model_Ok ntss model w r w' :
  safe_update_model ntss model w = (Ok r, w') ->
  exists d d' ts' pe' ms',
    models w !! model = Some d /\
    safe_update_pure ntss (conf w) d (templates w) None = Ok (d', ts', pe') /\
    w' = mkWorld ms' ts' (conf w)
           (ui w ++ match pe' with Some e => [Tooltip e] | None => [] end) /\
    ms' !! r = Some d'.
Proof.
  intros H. destruct (models w !! model) as [d|] eqn:Hd.
  2:{ unfold safe_update_model, bind, copy in H. by rewrite Hd in H. }
  pose proof (safe_update_model_pure ntss model w d Hd) as P.
  destruct (safe_update_pure ntss (conf w) d (templates w) None)
    as [[[d' ts'] pe']|e] eqn:E.
  - destruct P as (r' & ms' & P & Hl). rewrite P in H. injection H as <- <-.
    by exists d, d', ts', pe', ms'.
  - destruct P as [w'' P]. by rewrite P in H.
Qed.

Lemma encode_pure_rewrite_blobs nts notetype_name cf d ts template t b' :
  tmpls d = [template] -> ts !! template = Some t ->
  rewrite_blobs nts notetype_name cf (mkBlobs (qfmt t) (afmt t) (css d)) = Some b' ->
  exists d' ts' t',
    encode_pure nts notetype_name cf d ts = Ok (d', ts') /\
    name d' = name d /\ tmpls d' = [template] /\ other d' = other d /\
    ts' !! template = Some t' /\ t_other t' = t_other t /\
    mkBlobs (qfmt t') (afmt t') (css d') = b'.
Proof.
  intros Etm Et. unfold rewrite_blobs, encode_pure. rewrite Etm, Et. cbn zeta.
  set (blob := target _ _).
  destruct (re_search (cfg_regex (config nts)) blob) as [m|] eqn:Em; [|done].
  destruct (cf !! key nts notetype_name) as [v|]; [|done].
  destruct (_set_setting_value nts _ v) as [processed|e]; [|done].
  apply re_search_span in Em as Hspan. destruct Hspan as (Hab & Hb & _ & Hfind).
  rewrite (replace_first_at _ _ _ _ Hab Hb Hfind).
  intros [= <-]. unfold with_target.
  destruct (String.eqb (cfg_file (config nts)) "front");
    [|destruct (String.eqb (cfg_file (config nts)) "back")].
  - eexists d, _, (mkTemplate _ (afmt t) (t_other t)). split; [done|].
    split_and!; try done. by rewrite list_lookup_alter_eq, Et.
  - eexists d, _, (mkTemplate (qfmt t) _ (t_other t)). split; [done|].
    split_and!; try done. by rewrite list_lookup_alter_eq, Et.
  - eexists _, ts, t. split; [done|]. by split_and!.
Qed.

Lemma safe_update_pure_rewrite_all ntss cf : forall d ts template t pe b',
  tmpls d = [template] -> ts !! template = Some t ->
  rewrite_all ntss (name d) cf (mkBlobs (qfmt t) (afmt t) (css d)) = Some b' ->
  exists d' ts' t',
    safe_update_pure ntss cf d ts pe = Ok (d', ts', pe) /\
    name d' = name d /\ tmpls d' = [template] /\ other d' = other d /\
    ts' !! template = Some t' /\ t_other t' = t_other t /\
    mkBlobs (qfmt t') (afmt t') (css d') = b'.
Proof.
  induction ntss as [|nts ntss IH]; intros d ts template t pe b' Etm Et H.
  - injection H as <-. by exists d, ts, t.
  - cbn [rewrite_all] in H.
    destruct (rewrite_blobs nts _ _ _) as [b1|] eqn:E1; [|done].
    destruct (encode_pure_rewrite_blobs _ _ _ _ _ _ _ _ Etm Et E1)
      as (d1 & ts1 & t1 & He & Hn & Htm & Ho & Ht1 & Hto & Hb1).
    cbn [safe_update_pure]. rewrite He.
    rewrite <- Hb1, <- Hn in H.
    destruct (IH d1 ts1 template t1 pe b' Htm Ht1 H)
      as (d' & ts' & t' & Hs & Hn' & Htm' & Ho' & Ht' & Hto' & Hb').
    exists d', ts', t'. split; [done|]. split_and!; congruence.
Qed.


(** ** The dispatch over setting kinds *)

Lemma from_config_class c :
  from_config c =
    match class_of_type (cfg_type c) with
    | Some k => Ok (mkNts k c)
    | None => Raise (Exception_ ("unkown NoteTypeSetting type: " ++ cfg_type c))
    end.
Proof.
  unfold from_config, class_of_type.
  by repeat destruct (String.eqb (cfg_type c) _).
Qed.

Lemma class_of_type_known type :
  is_Some (class_of_type type) <-> type ∈ known_types.
Proof.
  unfold class_of_type, known_types. split.
  - intros [k H].
    repeat match type of H with
           | context [String.eqb type ?s] =>
               destruct (String.eqb_spec type s) as [->|]; [set_solver|]
           end.
    done.
  - intros H. rewrite !elem_of_cons, elem_of_nil in H.
    destruct H as [->|[->|[->|[->|[->|[->|[->|[->|[]]]]]]]]]; by eexists.
Qed.

(** C10. The dispatch is closed and partial: [from_config] returns a setting
    object, of the class of the tag and carrying the descriptor, exactly for
    the eight tags checkbox, re_checkbox, text, number, shortcut, dropdown,
    color and font_family, and raises for every other tag; the field_order
    descriptor (tag order) and every disable-field descriptor (tag
    wrap_checkbox) of the table make it raise. *)
Theorem from_config_dispatch :
  (forall c, (exists nts, from_config c = Ok nts) <-> cfg_type c ∈ known_types) /\
  (forall c nts, from_config c = Ok nts ->
     config nts = c /\ class_of_type (cfg_type c) = Some (nts_class nts)) /\
  (forall c, cfg_type c ∉ known_types ->
     from_config c = Raise (Exception_ ("unkown NoteTypeSetting type: " ++ cfg_type c))) /\
  from_config field_order = Raise (Exception_ "unkown NoteTypeSetting type: order") /\
  (forall c, cfg_type c = "wrap_checkbox" ->
     from_config c = Raise (Exception_ "unkown NoteTypeSetting type: wrap_checkbox")) /\
  (forall setting_name field_name (H : PlainName field_name),
     from_config (disable_field_setting_config setting_name field_name)
     = Raise (Exception_ "unkown NoteTypeSetting type: wrap_checkbox")).
Proof.
  split_and!.
  - intros c. rewrite <- class_of_type_known, from_config_class.
    destruct (class_of_type (cfg_type c)) as [k|]; split.
    + by eexists.
    + by eexists.
    + by intros [? ?].
    + by intros [? ?].
  - intros c nts. rewrite from_config_class.
    destruct (class_of_type (cfg_type c)) as [k|]; [|done]. by intros [= <-].
  - intros c Hc. rewrite from_config_class.
    destruct (class_of_type (cfg_type c)) as [k|] eqn:E; [|done].
    exfalso. apply Hc, class_of_type_known. by eexists.
  - reflexivity.
  - intros c Hc. rewrite from_config_class, Hc. reflexivity.
  - reflexivity.
Qed.

(** ** Captured spans *)

(** The text only shrinks along a match, so a group is left with no more
    text than it was entered with. *)
Lemma rmatch_caps_ok r :
  forall s c k res,
    caps_ok c -> rmatch r s c k = Some res ->
    exists s' c', length s' <= length s /\ caps_ok c' /\ k s' c' = Some res.
Proof.
  induction r as [|p|r1 IH1 r2 IH2|r1 IH1 r2 IH2|g r1 IH1|i r1 IH1];
    intros s c k res Hc H; simpl in H.
  - by exists s, c.
  - destruct s as [|a s]; [done|]. destruct (cls_mem p a); [|done].
    exists s, c. simpl. split_and!; [lia|done|done].
  - apply IH1 in H as (s1 & c1 & L1 & Hc1 & H); [|done].
    apply IH2 in H as (s2 & c2 & L2 & Hc2 & H); [|done].
    exists s2, c2. split_and!; [lia|done|done].
  - apply orelse_Some in H as [H|[_ H]]; [by apply IH1 in H|by apply IH2 in H].
  - revert H. generalize (length s) at 1 as n. intros n. revert s c Hc.
    induction n as [|n IHn]; intros s c Hc H; simpl in H.
    + by exists s, c.
    + assert (rmatch r1 s c
                (fun s1 c1 => if length s1 <? length s
                              then star_loop (rmatch r1) g k n s1 c1 else None) = Some res
              \/ k s c = Some res) as [H1|H1].
      { destruct g; apply orelse_Some in H; tauto. }
      * apply IH1 in H1 as (s1 & c1 & L1 & Hc1 & H1); [|done].
        destruct (length s1 <? length s); [|done].
        apply IHn in H1 as (s2 & c2 & L2 & Hc2 & H2); [|done].
        exists s2, c2. split_and!; [lia|done|done].
      * by exists s, c.
  - apply IH1 in H as (s1 & c1 & L1 & Hc1 & H); [|done].
    eexists s1, _. split_and!; [done| |exact H].
    constructor; [simpl; lia|done].
Qed.

Lemma assoc_abs_caps total c i a b :
  assoc i (abs_caps total c) = Some (a, b) ->
  exists x y, (i, (x, y)) ∈ c /\ a = total - x /\ b = total - y.
Proof.
  induction c as [|[j [x y]] c IH]; simpl; [done|].
  destruct (decide (i = j)) as [->|].
  - intros [= <- <-]. exists x, y. split; [left|done].
  - intros H. destruct (IH H) as (x' & y' & Hin & ? & ?).
    exists x', y'. split; [by right|done].
Qed.

(** A captured span lies inside the text. *)
Lemma captures_bounds r s a b : captures r s a b -> a <= b /\ b <= length s.
Proof.
  intros (_ & m & Hm & Hg).
  apply search_from_spec in Hm as (i & s' & c & _ & Hr & _ & _ & _ & Hc).
  simpl in Hc. rewrite Hc in Hg.
  apply assoc_abs_caps in Hg as (x & y & Hin & -> & ->).
  apply rmatch_caps_ok in Hr as (s1 & c1 & _ & Hok & Hk); [|by constructor].
  injection Hk as _ ->.
  unfold caps_ok in Hok. rewrite Forall_forall in Hok.
  specialize (Hok _ Hin). simpl in Hok. lia.
Qed.

Lemma search_group1_captures r s a b :
  captures r s a b -> search_group1 r s = Ok (VStr (slice a b s)).
Proof.
  intros (Hn & m & Hm & Hg). unfold search_group1, group. rewrite Hm, Hg.
  destruct (ngroups r <? 1) eqn:E; [|done]. apply Nat.ltb_lt in E. lia.
Qed.

Lemma splice_group1_captures r s a b v :
  captures r s a b -> splice_group1 r s (VStr v) = Ok (splice s a b v).
Proof.
  intros (Hn & m & Hm & Hg). unfold splice_group1. rewrite Hm, Hg.
  destruct (ngroups r <? 1) eqn:E; [|done]. apply Nat.ltb_lt in E. lia.
Qed.

Lemma slice_splice s a b v :
  a <= length s -> slice a (a + length v) (splice s a b v) = v.
Proof.
  intros Ha. unfold splice.
  assert (length (firstn a s) = a) as Hl by (rewrite length_take; lia).
  rewrite <- Hl at 1 2. apply slice_app.
Qed.

(** Reading back what was written in place. *)
Lemma read_back r s a b v :
  captures r s a b ->
  captures r (splice s a b v) a (a + length v) ->
  search_group1 r (splice s a b v) = Ok (VStr v).
Proof.
  intros H1 H2. rewrite (search_group1_captures _ _ _ _ H2).
  apply captures_bounds in H1. rewrite slice_splice; [done|lia].
Qed.

Lemma replace_first_rewritable r s a b t :
  rewritable r s a b t -> replace_first s (slice a b s) t = splice s a b t.
Proof.
  intros (Hc & Hf & _). apply captures_bounds in Hc as [? ?].
  by apply replace_first_at.
Qed.

(** ** [int(str(n)) == n] *)

Lemma digit_char_ok d :
  (0 <= d <= 9)%Z ->
  is_digit (digit_char d) = true /\ digit_val (digit_char d) = d.
Proof.
  intros H.
  assert (d = 0 \/ d = 1 \/ d = 2 \/ d = 3 \/ d = 4 \/ d = 5 \/ d = 6 \/ d = 7
          \/ d = 8 \/ d = 9)%Z as Hd by lia.
  repeat (destruct Hd as [->|Hd]; [by vm_compute|]). subst. by vm_compute.
Qed.

Lemma is_digit_not_space a : is_digit a = true -> is_space a = false.
Proof.
  unfold is_digit, is_space. generalize (nat_of_ascii a) as n. intros n H.
  apply andb_true_iff in H as [H1 H2].
  apply Nat.leb_le in H1, H2.
  rewrite !orb_false_iff, andb_false_iff, !Nat.eqb_neq, !Nat.leb_gt. lia.
Qed.

Lemma parse_digits_digits ds : forall acc f,
  Forall (fun a => is_digit a = true) ds ->
  parse_digits ds acc f =
    if match ds with [] => f | _ => true end then Some (digits_val ds acc) else None.
Proof.
  induction ds as [|a ds IH]; intros acc f H; simpl; [done|].
  inversion H as [|?? Ha Hds]; subst. rewrite Ha, (IH _ _ Hds).
  by destruct ds.
Qed.

Lemma dec_digits_S fuel n acc :
  dec_digits (S fuel) n acc =
    if (n <? 10)%Z then digit_char (n mod 10) :: acc
    else dec_digits fuel (n / 10) (digit_char (n mod 10) :: acc).
Proof. done. Qed.

Lemma dec_digits_spec fuel : forall n acc,
  (0 <= n < 10 ^ Z.of_nat (S fuel))%Z ->
  exists ds,
    dec_digits (S fuel) n acc = ds ++ acc /\ ds <> [] /\
    Forall (fun a => is_digit a = true) ds /\
    forall a0, digits_val ds a0 = (a0 * 10 ^ Z.of_nat (length ds) + n)%Z.
Proof.
  induction fuel as [|fuel IH]; intros n acc Hn.
  - change (10 ^ Z.of_nat 1)%Z with 10%Z in Hn.
    exists [digit_char n]. simpl.
    assert ((n <? 10)%Z = true) as -> by (apply Z.ltb_lt; lia).
    rewrite Z.mod_small by lia.
    destruct (digit_char_ok n) as [Hd Hv]; [lia|].
    split_and!; [done|done|by repeat constructor|].
    intros a0. rewrite Hv. change (Z.of_nat 1) with 1%Z. lia.
  - rewrite (dec_digits_S (S fuel)).
    destruct (digit_char_ok (n mod 10)) as [Hd Hv].
    { pose proof (Z.mod_pos_bound n 10). lia. }
    destruct (n <? 10)%Z eqn:E.
    + apply Z.ltb_lt in E. exists [digit_char (n mod 10)].
      rewrite Z.mod_small in * by lia.
      split_and!; [done|done|by repeat constructor|].
      intros a0. simpl. rewrite Hv. change (Z.of_nat 1) with 1%Z. lia.
    + apply Z.ltb_ge in E.
      destruct (IH (n / 10)%Z (digit_char (n mod 10) :: acc)) as (ds & Hds & Hne & Hall & Hval).
      { split; [apply Z.div_pos; lia|].
        apply Z.div_lt_upper_bound; [lia|].
        rewrite Nat2Z.inj_succ, Z.pow_succ_r in Hn by lia. lia. }
      exists (ds ++ [digit_char (n mod 10)]).
      split_and!.
      * rewrite Hds. by rewrite <- app_assoc.
      * by destruct ds.
      * apply Forall_app. split; [done|by repeat constructor].
      * intros a0.
        assert (forall l1 l2 a, digits_val (l1 ++ l2) a = digits_val l2 (digits_val l1 a)) as Happ.
        { clear. induction l1; intros; simpl; [done|apply IHl1]. }
        rewrite Happ, Hval. simpl. rewrite Hv.
        rewrite length_app. simpl.
        rewrite Nat2Z.inj_add, Z.pow_add_r by lia. change (10 ^ Z.of_nat 1)%Z with 10%Z.
        pose proof (Z.div_mod n 10). lia.
Qed.

Lemma str_nonneg_spec n :
  (0 <= n)%Z ->
  str_nonneg n <> [] /\ Forall (fun a => is_digit a = true) (str_nonneg n) /\
  digits_val (str_nonneg n) 0%Z = n.
Proof.
  intros Hn. unfold str_nonneg.
  destruct (dec_digits_spec (Z.to_nat (Z.log2 n)) n []) as (ds & Hds & Hne & Hall & Hval).
  { split; [done|]. rewrite Nat2Z.inj_succ, Z2Nat.id by apply Z.log2_nonneg.
    destruct (decide (n = 0%Z)) as [->|]; [done|].
    pose proof (Z.log2_spec n ltac:(lia)) as [_ H].
    eapply Z.lt_le_trans; [exact H|].
    apply Z.pow_le_mono_l. pose proof (Z.log2_nonneg n). lia. }
  rewrite Hds, app_nil_r. split_and!; [done|done|]. rewrite Hval. lia.
Qed.

Lemma lstrip_id s : Forall (fun a => is_space a = false) s -> lstrip s = s.
Proof. destruct 1 as [|a s Ha _]; simpl; [done|by rewrite Ha]. Qed.

Lemma strip_id s : Forall (fun a => is_space a = false) s -> strip s = s.
Proof.
  intros H. unfold strip. rewrite (lstrip_id s H).
  rewrite lstrip_id; [apply rev_involutive|].
  apply Forall_forall. intros a Ha. rewrite Forall_forall in H. apply H.
  rewrite list_elem_of_In in *. by apply in_rev.
Qed.

(** Python's [int] reads back the decimal text of an integer. *)
Lemma parse_int_str_int z : parse_int (str_int z) = Some z.
Proof.
  assert (forall n, (0 <= n)%Z -> parse_int (str_nonneg n) = Some n
                    /\ Forall (fun a => is_space a = false) (str_nonneg n)
                    /\ parse_digits (str_nonneg n) 0%Z false = Some n) as Hnn.
  { intros n Hn. destruct (str_nonneg_spec n Hn) as (Hne & Hall & Hval).
    assert (Forall (fun a => is_space a = false) (str_nonneg n)) as Hsp.
    { eapply Forall_impl; [exact Hall|]. intros a. apply is_digit_not_space. }
    assert (parse_digits (str_nonneg n) 0%Z false = Some n) as Hp.
    { rewrite parse_digits_digits by done. rewrite Hval. by destruct (str_nonneg n). }
    split_and!; [|done|done].
    unfold parse_int. rewrite strip_id by done.
    destruct (str_nonneg n) as [|a ds] eqn:E; [done|].
    inversion Hall as [|?? Ha _]; subst.
    assert (a <> "-"%char) as H1 by (intros ->; by vm_compute in Ha).
    assert (a <> "+"%char) as H2 by (intros ->; by vm_compute in Ha).
    by rewrite !bool_decide_false by done. }
  unfold str_int. destruct (z <? 0)%Z eqn:E.
  - apply Z.ltb_lt in E. destruct (Hnn (- z)%Z) as (_ & Hsp & Hp); [lia|].
    unfold parse_int. rewrite strip_id by (constructor; [by vm_compute|done]).
    rewrite bool_decide_true by done. rewrite Hp. simpl. f_equal. lia.
  - apply Z.ltb_ge in E. by apply Hnn.
Qed.

(** ** The codecs *)

Lemma re_checkbox_extract nts pairs section :
  nts_class nts = ReCheckboxSetting ->
  cfg_replacement_pairs (config nts) = Some pairs ->
  _extract_setting_value nts section =
    if xorb (all_on pairs section) (all_off pairs section)
    then Ok (VBool (all_on pairs section))
    else Raise (NotetypeParseException (ErrorInvolving pairs section)).
Proof.
  intros Hc Hp. unfold _extract_setting_value. rewrite Hc, Hp.
  fold (all_on pairs section). fold (all_off pairs section).
  by destruct (all_on pairs section), (all_off pairs section).
Qed.

Lemma re_checkbox_set nts pairs section v :
  nts_class nts = ReCheckboxSetting ->
  cfg_replacement_pairs (config nts) = Some pairs ->
  _set_setting_value nts section v = Ok (swap_pairs pairs (truthy v) section).
Proof. intros Hc Hp. unfold _set_setting_value. by rewrite Hc, Hp. Qed.

(** C7, as amended. The boolean-pair-presence codec: decode returns true iff
    every on-literal is in the section and not every off-literal is, returns
    false iff every off-literal is in the section and not every on-literal
    is, and raises, the parse exception and nothing else, exactly when the
    section is neither fully on nor fully off or is both at once; encode
    swaps the literals of every pair.  With the pair (none, block) the
    section [.timer {display: none;}] decodes to false, and encoding true
    gives [.timer {display: block;}]. *)
Theorem re_checkbox_codec :
  (forall nts pairs section,
     nts_class nts = ReCheckboxSetting ->
     cfg_replacement_pairs (config nts) = Some pairs ->
     (_extract_setting_value nts section = Ok (VBool true)
      <-> all_on pairs section = true /\ all_off pairs section = false) /\
     (_extract_setting_value nts section = Ok (VBool false)
      <-> all_off pairs section = true /\ all_on pairs section = false) /\
     (_extract_setting_value nts section
        = Raise (NotetypeParseException (ErrorInvolving pairs section))
      <-> all_on pairs section = all_off pairs section) /\
     (forall e, _extract_setting_value nts section = Raise e ->
                e = NotetypeParseException (ErrorInvolving pairs section)) /\
     (forall v, _set_setting_value nts section v
                = Ok (swap_pairs pairs (truthy v) section))) /\
  _extract_setting_value (mkNts ReCheckboxSetting timer) (txt ".timer {display: none;}")
    = Ok (VBool false) /\
  _set_setting_value (mkNts ReCheckboxSetting timer) (txt ".timer {display: none;}")
    (VBool true) = Ok (txt ".timer {display: block;}").
Proof.
  split_and!; [|by vm_compute|by vm_compute].
  intros nts pairs section Hc Hp.
  rewrite (re_checkbox_extract _ _ _ Hc Hp).
  split_and!.
  - destruct (all_on pairs section), (all_off pairs section); simpl; split;
      (done || by intros [? ?]).
  - destruct (all_on pairs section), (all_off pairs section); simpl; split;
      (done || by intros [? ?]).
  - by destruct (all_on pairs section), (all_off pairs section).
  - intros e. destruct (xorb _ _); [done|]. by intros [= <-].
  - intros v. by apply re_checkbox_set.
Qed.

(** The first-occurrence codecs write in place when the stored token does
    not occur before its captured place. *)
Lemma checkbox_extract_captures nts section a b :
  nts_class nts = CheckboxSetting ->
  captures (cfg_regex (config nts)) section a b ->
  slice a b section = txt "true" \/ slice a b section = txt "false" ->
  _extract_setting_value nts section
    = Ok (VBool (bool_decide (slice a b section = txt "true"))) /\
  bool_token (bool_decide (slice a b section = txt "true")) = slice a b section.
Proof.
  intros Hc Hcap Htok. unfold _extract_setting_value. rewrite Hc.
  rewrite (search_group1_captures _ _ _ _ Hcap). simpl.
  destruct Htok as [-> | ->]; by vm_compute.
Qed.

(** ** Occurrences and [str.replace] *)

Lemma find_least p s : forall i,
  find p s = Some i -> forall j, j < i -> starts_with p (skipn j s) = false.
Proof.
  induction s as [|a s IH]; intros i H j Hj; simpl in H.
  - destruct (starts_with p []); [injection H as <-; lia|done].
  - destruct (starts_with p (a :: s)) eqn:E; [injection H as <-; lia|].
    destruct (find p s) as [k|] eqn:Ek; [|done]. simpl in H. injection H as <-.
    destruct j as [|j]; [done|]. simpl. apply (IH k eq_refl). lia.
Qed.

Lemma contains_nil s : contains [] s = true.
Proof. unfold contains. by destruct s. Qed.

Lemma replace_all_absent s old new : contains old s = false -> replace_all s old new = s.
Proof.
  intros H. destruct old as [|a old]; [by rewrite contains_nil in H|].
  unfold replace_all, contains in *.
  destruct (length s); simpl; [done|].
  by destruct (find (a :: old) s).
Qed.

Lemma occurs_contains z s p : occurs_at z s p -> contains z s = true.
Proof.
  intros [Hp H]. unfold contains. destruct (find z s) eqn:E; [done|].
  by rewrite (find_None_starts _ _ _ E Hp) in H.
Qed.

Lemma contains_occurs z s : contains z s = true -> exists p, occurs_at z s p.
Proof.
  unfold contains. destruct (find z s) as [i|] eqn:E; [|done]. intros _.
  exists i. split; [by eapply find_bound|by apply find_Some_starts].
Qed.

Lemma occurs_bound z s p : occurs_at z s p -> p + length z <= length s.
Proof.
  intros [Hp H]. apply starts_with_inv in H as [r H].
  apply (f_equal length) in H. rewrite length_drop, length_app in H. lia.
Qed.

Lemma occurs_lookup z s p :
  occurs_at z s p -> forall k a, z !! k = Some a -> s !! (p + k) = Some a.
Proof.
  intros [Hp H] k a Hk. apply starts_with_inv in H as [r H]. unfold text in *.
  rewrite <- (lookup_drop s p k), H. by apply lookup_app_l_Some.
Qed.

Lemma starts_with_of_lookup z : forall t,
  (forall k a, z !! k = Some a -> t !! k = Some a) -> starts_with z t = true.
Proof.
  induction z as [|b z IH]; intros t H; [by destruct t|].
  destruct t as [|c t]; [by specialize (H 0 b eq_refl)|].
  simpl. pose proof (H 0 b eq_refl) as H0. injection H0 as ->.
  rewrite decide_True by done. apply IH. intros k a Hk. by apply (H (S k)).
Qed.

Lemma occurs_of_lookup z s p :
  p + length z <= length s ->
  (forall k a, z !! k = Some a -> s !! (p + k) = Some a) ->
  occurs_at z s p.
Proof.
  intros Hb H. split; [lia|]. apply starts_with_of_lookup.
  intros k a Hk. unfold text in *. rewrite (lookup_drop s p k). by apply H.
Qed.

Lemma occurs_app_l z u w p : occurs_at z u p -> occurs_at z (u ++ w) p.
Proof.
  intros H. apply occurs_of_lookup.
  - apply occurs_bound in H. rewrite length_app. lia.
  - intros k a Hk. apply lookup_app_l_Some. by eapply occurs_lookup.
Qed.

Lemma occurs_app_r z u w p : occurs_at z w p -> occurs_at z (u ++ w) (length u + p).
Proof.
  intros H. apply occurs_of_lookup.
  - apply occurs_bound in H. rewrite length_app. lia.
  - intros k a Hk. rewrite <- Nat.add_assoc, lookup_app_r by lia.
    replace (length u + (p + k) - length u) with (p + k) by lia.
    by eapply occurs_lookup.
Qed.

Lemma contains_app_l z u w : contains z u = true -> contains z (u ++ w) = true.
Proof.
  intros H. apply contains_occurs in H as [p H].
  eapply occurs_contains. by apply occurs_app_l.
Qed.

Lemma contains_app_r z u w : contains z w = true -> contains z (u ++ w) = true.
Proof.
  intros H. apply contains_occurs in H as [p H].
  eapply occurs_contains. by apply occurs_app_r.
Qed.

Lemma contains_self_app z w : contains z (z ++ w) = true.
Proof.
  apply (occurs_contains _ _ 0). split; [lia|]. apply starts_with_app.
Qed.

Lemma find_occurs x s i : find x s = Some i -> occurs_at x s i.
Proof. intros H. split; [by eapply find_bound|by apply find_Some_starts]. Qed.

(** [str.replace] writes the new literal wherever the old one was. *)
Lemma replace_all_writes s x y :
  x <> [] -> contains x s = true -> contains y (replace_all s x y) = true.
Proof.
  intros Hx H. destruct x as [|a x]; [done|]. unfold replace_all.
  destruct s as [|b s]; [done|]. cbn [length replace_all_aux].
  unfold contains in H. destruct (find (a :: x) (b :: s)) as [i|]; [|done].
  apply contains_app_r, contains_self_app.
Qed.

(** An occurrence of [z] that no occurrence of [x] overlaps is still there
    when [x] has been replaced. *)
Lemma replace_all_aux_keeps z x y : x <> [] -> forall fuel s p,
  length s <= fuel -> occurs_at z s p -> clear_of x s p (length z) ->
  contains z (replace_all_aux fuel s x y) = true.
Proof.
  intros Hx. induction fuel as [|fuel IH]; intros s p Hf Hz Hc; simpl.
  - by eapply occurs_contains.
  - destruct (find x s) as [i|] eqn:E; [|by eapply occurs_contains].
    pose proof (find_occurs _ _ _ E) as Hxi.
    pose proof (occurs_bound _ _ _ Hxi) as Hbi.
    pose proof (occurs_bound _ _ _ Hz) as Hbz.
    assert (0 < length x) as Hlx by (destruct x; [done|simpl; lia]).
    destruct (Hc i Hxi) as [Hafter|Hbefore].
    + apply contains_app_r, contains_app_r.
      apply (IH _ (p - (i + length x))).
      * rewrite length_drop. lia.
      * split; [rewrite length_drop; lia|].
        rewrite drop_drop. replace (i + length x + (p - (i + length x))) with p by lia.
        apply Hz.
      * intros q [Hq1 Hq2]. rewrite length_drop in Hq1. rewrite drop_drop in Hq2.
        destruct (Hc (i + length x + q)) as [H|H]; [split; [lia|done]|lia|lia].
    + apply contains_app_l. apply (occurs_contains _ _ p).
      apply occurs_of_lookup; [rewrite length_take; lia|].
      intros k a Hk. pose proof (lookup_lt_Some _ _ _ Hk) as Hlt.
      rewrite lookup_take_lt by lia. by eapply occurs_lookup.
Qed.

Lemma replace_all_keeps z x y s p :
  x <> [] -> occurs_at z s p -> clear_of x s p (length z) ->
  contains z (replace_all s x y) = true.
Proof.
  intros Hx Hz Hc. destruct x as [|a x]; [done|]. unfold replace_all.
  by apply (replace_all_aux_keeps z (a :: x) y Hx (length s) s p).
Qed.

(** A literal that shares no character with [x] is not touched when [x] is
    replaced. *)
Lemma replace_all_keeps_disjoint z x y s :
  x <> [] -> shares_no_char z x -> contains z s = true ->
  contains z (replace_all s x y) = true.
Proof.
  intros Hx Hd H. destruct (decide (z = [])) as [->|Hz0]; [apply contains_nil|].
  apply contains_occurs in H as [p Hz].
  apply (replace_all_keeps z x y s p Hx Hz).
  intros q Hq.
  assert (0 < length x) by (destruct x; [done|simpl; lia]).
  assert (0 < length z) by (destruct z; [done|simpl; lia]).
  destruct (decide (q + length x <= p)) as [|H1]; [by left|].
  destruct (decide (p + length z <= q)) as [|H2]; [by right|]. exfalso.
  destruct (lookup_lt_is_Some_2 z (max p q - p)) as [a Ha]; [lia|].
  destruct (lookup_lt_is_Some_2 x (max p q - q)) as [b Hb]; [lia|].
  pose proof (occurs_lookup _ _ _ Hz _ _ Ha) as H3.
  pose proof (occurs_lookup _ _ _ Hq _ _ Hb) as H4.
  replace (p + (max p q - p)) with (max p q) in H3 by lia.
  replace (q + (max p q - q)) with (max p q) in H4 by lia.
  rewrite H3 in H4. injection H4 as <-.
  apply (Hd a); by eapply list_elem_of_lookup_2.
Qed.

(** When the new literal cannot recreate the old one, no occurrence of the
    old literal is left after [str.replace]. *)
Lemma replace_all_aux_no_new x y : x <> [] -> not_recreated x y -> forall fuel s,
  length s <= fuel -> contains x (replace_all_aux fuel s x y) = false.
Proof.
  intros Hx (Hhd & Hlast & Hpart).
  assert (0 < length x) as Hlx by (destruct x; [done|simpl; lia]).
  induction fuel as [|fuel IH]; intros s Hf.
  - destruct s; [|simpl in Hf; lia]. simpl.
    destruct (contains x []) eqn:E; [|done].
    apply contains_occurs in E as [p Hp]. apply occurs_bound in Hp. simpl in Hp. lia.
  - simpl. destruct (find x s) as [i|] eqn:E; [|unfold contains; by rewrite E].
    pose proof (find_occurs _ _ _ E) as Hxi.
    pose proof (occurs_bound _ _ _ Hxi) as Hbi.
    set (R := replace_all_aux fuel (drop (i + length x) s) x y).
    assert (contains x R = false) as HR.
    { apply IH. rewrite length_drop. lia. }
    destruct (contains x (take i s ++ y ++ R)) eqn:EC; [exfalso|done].
    apply contains_occurs in EC as [q Hq].
    pose proof (occurs_bound _ _ _ Hq) as Hbq.
    pose proof (occurs_lookup _ _ _ Hq) as Hl.
    rewrite !length_app, length_take in Hbq.
    assert (length (take i s) = i) as Hti by (rewrite length_take; lia).
    unfold text in *.
    destruct (decide (q + length x <= i)) as [C1|C1].
    { (* inside the part before the first occurrence *)
      assert (occurs_at x s q) as [_ Hocc].
      { apply occurs_of_lookup; [lia|]. intros k a Hk.
        pose proof (lookup_lt_Some _ _ _ Hk) as Hlt.
        specialize (Hl k a Hk). rewrite lookup_app_l in Hl by lia.
        by rewrite lookup_take_lt in Hl by lia. }
      rewrite (find_least _ _ _ E q) in Hocc by lia. done. }
    destruct (decide (i + length y <= q)) as [C2|C2].
    { (* inside the part after the written literal *)
      assert (occurs_at x R (q - i - length y)) as Hocc.
      { apply occurs_of_lookup; [lia|]. intros k a Hk.
        specialize (Hl k a Hk).
        rewrite lookup_app_r in Hl by lia. rewrite lookup_app_r in Hl by lia.
        rewrite <- Hl. f_equal. lia. }
      apply occurs_contains in Hocc. congruence. }
    destruct (decide (i <= q)) as [C3|C3].
    { (* starts inside the written literal *)
      destruct x as [|a x]; [done|]. specialize (Hl 0 a eq_refl).
      rewrite lookup_app_r in Hl by lia. rewrite lookup_app_l in Hl by lia.
      apply (Hhd a eq_refl). by eapply list_elem_of_lookup_2. }
    destruct (decide (q + length x < i + length y)) as [C4|C4].
    { (* ends inside the written literal *)
      destruct (lookup_lt_is_Some_2 x (length x - 1)) as [a Ha]; [lia|].
      specialize (Hl _ a Ha).
      rewrite lookup_app_r in Hl by lia. rewrite lookup_app_l in Hl by lia.
      apply (Hlast a); [|by eapply list_elem_of_lookup_2].
      rewrite last_lookup. rewrite <- Ha. f_equal. lia. }
    (* covers the written literal *)
    assert (occurs_at y x (i - q)) as Hocc.
    { apply occurs_of_lookup; [lia|]. intros k a Hk.
      pose proof (lookup_lt_Some _ _ _ Hk) as Hlt.
      destruct (lookup_lt_is_Some_2 x (i - q + k)) as [b Hb]; [lia|].
      specialize (Hl _ b Hb).
      rewrite lookup_app_r in Hl by lia. rewrite lookup_app_l in Hl by lia.
      replace (q + (i - q + k) - length (take i s)) with k in Hl by lia.
      congruence. }
    apply occurs_contains in Hocc. congruence.
Qed.

Lemma replace_all_no_new x y s :
  x <> [] -> not_recreated x y -> contains x (replace_all s x y) = false.
Proof.
  intros Hx H. destruct x as [|a x]; [done|]. unfold replace_all.
  by apply replace_all_aux_no_new.
Qed.

(** ** Pair check boxes *)

Lemma swap_pairs_oriented pairs on : forall section,
  swap_pairs pairs on section
  = fold_left (fun r st => replace_all r st.1 st.2) (oriented pairs on) section.
Proof.
  unfold swap_pairs, oriented.
  induction pairs as [|p pairs IH]; intros section; simpl; [done|].
  rewrite IH. by destruct on.
Qed.

Lemma fold_replace_keeps z : forall dir r,
  Forall (fun st => st.1 <> [] /\ shares_no_char z st.1) dir ->
  contains z r = true ->
  contains z (fold_left (fun r st => replace_all r st.1 st.2) dir r) = true.
Proof.
  induction dir as [|[s t] dir IH]; intros r Hall H; simpl; [done|].
  apply Forall_cons in Hall as [[Hs Hd] Hall].
  apply IH; [done|]. by apply replace_all_keeps_disjoint.
Qed.

(** Every literal to write is in the rewritten section. *)
Lemma rc_writable_targets dir section s t :
  rc_writable dir section -> (s, t) ∈ dir ->
  contains t (fold_left (fun r st => replace_all r st.1 st.2) dir section) = true.
Proof.
  intros (_ & Hne & _ & Hpl) Hin.
  apply list_elem_of_split in Hin as (pre & post & ->).
  destruct (Hpl pre s t post eq_refl) as (Hpost & z & p & Hz & Hocc & Hpre).
  assert (forall st, st ∈ pre ++ (s, t) :: post -> st.1 <> []) as Hne'.
  { intros [s' t'] H. by eapply Hne. }
  rewrite fold_left_app. cbn [fold_left fst snd].
  apply fold_replace_keeps.
  { rewrite Forall_forall in Hpost. apply Forall_forall. intros st Hst.
    split; [|by apply Hpost]. apply Hne'. rewrite elem_of_app. right. by right. }
  assert (contains z (fold_left (fun r st => replace_all r st.1 st.2) pre section) = true)
    as Hzr.
  { destruct pre as [|[s1 t1] mid]; simpl; [by eapply occurs_contains|].
    destruct Hpre as [Hclear Hmid].
    apply fold_replace_keeps.
    - rewrite Forall_forall in Hmid. apply Forall_forall. intros st Hst.
      split; [|by apply Hmid]. apply Hne'. rewrite elem_of_app. left. by right.
    - apply (replace_all_keeps z s1 t1 section p); [|done|done].
      apply (Hne' (s1, t1)). by left. }
  set (r := fold_left _ pre section) in *.
  assert (s <> []) as Hs by (apply (Hne' (s, t)); rewrite elem_of_app; right; by left).
  destruct (contains s r) eqn:Es; [by apply replace_all_writes|].
  rewrite replace_all_absent by done.
  destruct Hz as [->| ->]; [congruence|done].
Qed.

(** The literal the last pair replaces is not in the rewritten section. *)
Lemma rc_writable_last_source dir section :
  rc_writable dir section ->
  exists s t, (s, t) ∈ dir /\
    contains s (fold_left (fun r st => replace_all r st.1 st.2) dir section) = false.
Proof.
  intros (Hdir & Hne & Hlast & _).
  destruct (exists_last Hdir) as (front & [s t] & ->).
  exists s, t. split; [rewrite elem_of_app; right; by left|].
  rewrite fold_left_app. cbn [fold_left fst snd].
  apply replace_all_no_new; [|by eapply Hlast].
  apply (Hne s t). rewrite elem_of_app. right. by left.
Qed.

(** Writing a state into a section that is writable for it leaves the
    section in that state. *)
Lemma rc_writable_state pairs bv section :
  rc_writable (oriented pairs bv) section ->
  all_on pairs (swap_pairs pairs bv section) = bv /\
  all_off pairs (swap_pairs pairs bv section) = negb bv.
Proof.
  intros H. rewrite swap_pairs_oriented.
  set (final := fold_left _ _ _).
  assert (forall p, p ∈ pairs ->
            contains (if bv then p.2 else p.1) final = true) as Ht.
  { intros p Hp.
    apply (rc_writable_targets _ _ (if bv then p.1 else p.2) (if bv then p.2 else p.1) H).
    unfold oriented. apply list_elem_of_fmap. exists p. split; [by destruct bv|done]. }
  destruct (rc_writable_last_source _ _ H) as (s & t & Hin & Hs). fold final in Hs.
  unfold oriented in Hin. apply list_elem_of_fmap in Hin as (p & Hp & Hin).
  assert (contains (if bv then p.1 else p.2) final = false) as Hs'.
  { by destruct bv; injection Hp as -> _. }
  unfold all_on, all_off. destruct bv; simpl; split.
  - apply forallb_forall. intros q Hq. apply Ht. by apply list_elem_of_In.
  - apply not_true_is_false. intros Hall. rewrite forallb_forall in Hall.
    rewrite (Hall p) in Hs'; [done|by apply list_elem_of_In].
  - apply not_true_is_false. intros Hall. rewrite forallb_forall in Hall.
    rewrite (Hall p) in Hs'; [done|by apply list_elem_of_In].
  - apply forallb_forall. intros q Hq. apply Ht. by apply list_elem_of_In.
Qed.

(** *** Checking that a section is writable *)

Lemma not_elem_check (a : ascii) (t : text) :
  forallb (fun b => negb (bool_decide (a = b))) t = true -> a ∉ t.
Proof.
  rewrite forallb_forall. intros H Hin. apply list_elem_of_In in Hin.
  specialize (H a Hin). by rewrite bool_decide_eq_true_2 in H.
Qed.

Lemma shares_no_char_check (u v : text) :
  forallb (fun a => forallb (fun b => negb (bool_decide (a = b))) v) u = true ->
  shares_no_char u v.
Proof.
  rewrite forallb_forall. intros H a Ha. apply not_elem_check, H.
  by apply list_elem_of_In.
Qed.

Lemma not_recreated_check (s t : text) :
  match head s with
  | Some a => forallb (fun b => negb (bool_decide (a = b))) t
  | None => true
  end = true ->
  match last s with
  | Some a => forallb (fun b => negb (bool_decide (a = b))) t
  | None => true
  end = true ->
  contains t s = false ->
  not_recreated s t.
Proof.
  intros H1 H2 H3. split_and!; [| |done].
  - intros a Ha. rewrite Ha in H1. by apply not_elem_check.
  - intros a Ha. rewrite Ha in H2. by apply not_elem_check.
Qed.

Lemma clear_of_check (x s : text) (p n : nat) :
  forallb (fun q => negb (starts_with x (skipn q s))
                    || (q + length x <=? p) || (p + n <=? q))
    (seq 0 (S (length s))) = true ->
  clear_of x s p n.
Proof.
  rewrite forallb_forall. intros H q [Hq Hocc].
  specialize (H q). rewrite Hocc in H. simpl in H.
  assert (In q (seq 0 (S (length s)))) as Hin by (apply in_seq; lia).
  apply H, orb_true_iff in Hin as [Hin|Hin]; apply Nat.leb_le in Hin; lia.
Qed.

Lemma occurs_at_check (z s : text) (p : nat) :
  (p <=? length s) && starts_with z (skipn p s) = true -> occurs_at z s p.
Proof. intros [H1 H2]%andb_true_iff. split; [by apply Nat.leb_le|done]. Qed.

Lemma rc_writable_one s t section z p :
  s <> [] -> not_recreated s t -> z = s \/ z = t -> occurs_at z section p ->
  rc_writable [(s, t)] section.
Proof.
  intros Hs Hn Hz Hocc. split_and!.
  - done.
  - intros s' t' Hin. apply list_elem_of_singleton in Hin. by injection Hin as -> ->.
  - intros front s' t' H. destruct front as [|? [|??]]; try done.
    by injection H as <- <-.
  - intros pre s' t' post H. destruct pre as [|? [|??]]; try done.
    injection H as <- <- <-. split; [constructor|]. by exists z, p.
Qed.

Lemma rc_writable_two s1 t1 s2 t2 section z1 p1 z2 p2 :
  s1 <> [] -> s2 <> [] -> not_recreated s2 t2 -> shares_no_char t1 s2 ->
  z1 = s1 \/ z1 = t1 -> occurs_at z1 section p1 ->
  z2 = s2 \/ z2 = t2 -> occurs_at z2 section p2 ->
  clear_of s1 section p2 (length z2) ->
  rc_writable [(s1, t1); (s2, t2)] section.
Proof.
  intros Hs1 Hs2 Hn Hd Hz1 Ho1 Hz2 Ho2 Hc. split_and!.
  - done.
  - intros s' t' Hin. apply elem_of_cons in Hin as [Hin|Hin].
    + by injection Hin as -> ->.
    + apply list_elem_of_singleton in Hin. by injection Hin as -> ->.
  - intros front s' t' H. destruct front as [|? [|? [|??]]]; try done.
    by injection H as _ <- <-.
  - intros pre s' t' post H. destruct pre as [|? [|? [|??]]]; try done.
    + injection H as <- <- <-. split; [by repeat constructor|]. by exists z1, p1.
    + injection H as <- <- <- <-. split; [constructor|].
      exists z2, p2. by split_and!.
Qed.

Lemma Matches_Seq_inv r1 r2 t :
  Matches (Seq r1 r2) t -> exists t1 t2, t = t1 ++ t2 /\ Matches r1 t1 /\ Matches r2 t2.
Proof. intros M. inversion M; subst. by eexists _, _. Qed.

Lemma Matches_Cls_inv p t :
  Matches (Cls p) t -> exists a, t = [a] /\ cls_mem p a = true.
Proof. intros M. inversion M; subst. by eexists. Qed.

Lemma Matches_Group_inv i r t : Matches (Group i r) t -> Matches r t.
Proof. intros M. by inversion M; subst. Qed.

Lemma Matches_Alt_inv r1 r2 t : Matches (Alt r1 r2) t -> Matches r1 t \/ Matches r2 t.
Proof. intros M. inversion M; subst; [by left|by right]. Qed.


(** ** The stable sort *)

Section Sorting.
Context {A : Type} (key : A -> Z).

Lemma insert_by_perm x l : insert_by key x l ≡ₚ x :: l.
Proof.
  induction l as [|y l IH]; simpl; [done|].
  destruct (key x <=? key y)%Z; [done|].
  rewrite IH. apply Permutation_swap.
Qed.

Lemma sorted_by_perm l : sorted_by key l ≡ₚ l.
Proof.
  induction l as [|x l IH]; simpl; [done|].
  by rewrite insert_by_perm, IH.
Qed.

Lemma insert_by_sorted x l :
  StronglySorted (key_le key) l -> StronglySorted (key_le key) (insert_by key x l).
Proof.
  induction 1 as [|y l Hs IH Hy]; simpl; [by repeat constructor|].
  destruct (key x <=? key y)%Z eqn:E.
  - apply Z.leb_le in E. constructor; [by constructor|].
    constructor; [done|].
    eapply Forall_impl; [exact Hy|]. unfold key_le in *. intros z Hz. lia.
  - apply Z.leb_gt in E. constructor; [done|].
    rewrite insert_by_perm. constructor; [unfold key_le; lia|done].
Qed.

Lemma sorted_by_sorted l : StronglySorted (key_le key) (sorted_by key l).
Proof.
  induction l as [|x l IH]; simpl; [constructor|by apply insert_by_sorted].
Qed.

(** Elements with the same key keep their order. *)
Lemma insert_by_stable k x l :
  filter (fun y => key y = k) (insert_by key x l)
  = filter (fun y => key y = k) (x :: l).
Proof.
  induction l as [|y l IH]; simpl; [done|].
  destruct (key x <=? key y)%Z eqn:E; [done|].
  apply Z.leb_gt in E.
  rewrite (filter_cons _ y), IH, !filter_cons.
  destruct (decide (key y = k)), (decide (key x = k)); try done. lia.
Qed.

Lemma sorted_by_stable k l :
  filter (fun y => key y = k) (sorted_by key l) = filter (fun y => key y = k) l.
Proof.
  induction l as [|x l IH]; simpl; [done|].
  rewrite insert_by_stable, !filter_cons. by rewrite IH.
Qed.

(** Sorting a sorted list changes nothing. *)
Lemma sorted_by_id l : StronglySorted (key_le key) l -> sorted_by key l = l.
Proof.
  induction 1 as [|x l Hs IH Hx]; simpl; [done|].
  rewrite IH. destruct l as [|y l]; simpl; [done|].
  inversion Hx as [|?? Hxy _]; subst. unfold key_le in Hxy.
  by rewrite (proj2 (Z.leb_le _ _) Hxy).
Qed.

Lemma sorted_by_idem l : sorted_by key (sorted_by key l) = sorted_by key l.
Proof. apply sorted_by_id, sorted_by_sorted. Qed.

(** In a sorted list a smaller key comes first. *)
Lemma sorted_lookup_lt l i j x y :
  StronglySorted (key_le key) l ->
  l !! i = Some x -> l !! j = Some y -> (key x < key y)%Z -> i < j.
Proof.
  intros Hs. revert i j. induction Hs as [|z l Hs IH Hz]; intros i j Hi Hj Hlt; [done|].
  destruct i as [|i], j as [|j]; simpl in *.
  - injection Hi as <-. injection Hj as <-. lia.
  - lia.
  - injection Hj as ->. rewrite Forall_forall in Hz.
    assert (key_le key y x) as Hle by (apply Hz; by eapply list_elem_of_lookup_2).
    unfold key_le in Hle. lia.
  - specialize (IH i j Hi Hj Hlt). lia.
Qed.
End Sorting.

(** [l.index(x)] is the first position of [x]. *)
Lemma index_of_Some {A} `{EqDecision A} (x : A) l i :
  index_of x l = Some i -> l !! i = Some x /\ forall j, j < i -> l !! j <> Some x.
Proof.
  revert i. induction l as [|y l IH]; intros i; simpl; [done|].
  destruct (decide (x = y)) as [->|Hne].
  - intros [= <-]. split; [done|]. intros j Hj; lia.
  - destruct (index_of x l) as [k|] eqn:E; simpl; [|done].
    intros [= <-]. destruct (IH k eq_refl) as [Hk Hlt]. split; [done|].
    intros [|j] Hj; simpl; [by intros [= ->]|]. apply Hlt. lia.
Qed.

Lemma index_of_None {A} `{EqDecision A} (x : A) l :
  index_of x l = None -> x ∉ l.
Proof.
  induction l as [|y l IH]; simpl; [intros _; apply not_elem_of_nil|].
  destruct (decide (x = y)) as [->|Hne]; [done|].
  destruct (index_of x l); simpl; [done|].
  intros _ Hin. apply elem_of_cons in Hin as [?|Hin]; [done|]. by apply IH.
Qed.

(** ** The orderings *)

Lemma filter_ext_in {A} (P Q : A -> Prop) `{!forall x, Decision (P x)}
    `{!forall x, Decision (Q x)} (l : list A) :
  (forall x, x ∈ l -> P x <-> Q x) -> filter P l = filter Q l.
Proof.
  induction l as [|x l IH]; intros Hl; [done|].
  rewrite !filter_cons.
  rewrite IH by (intros y Hy; apply Hl; by right).
  destruct (decide (P x)) as [Hp|Hp], (decide (Q x)) as [Hq|Hq]; try done;
    exfalso; [apply Hq|apply Hp]; by apply (Hl x); [left|].
Qed.

Lemma filter_all {A} (P : A -> Prop) `{!forall x, Decision (P x)} (l : list A) :
  Forall P l -> filter P l = l.
Proof.
  induction 1 as [|x l Hx _ IH]; [done|]. by rewrite filter_cons_True, IH.
Qed.

Lemma filter_none {A} (P : A -> Prop) `{!forall x, Decision (P x)} (l : list A) :
  Forall (fun x => ~ P x) l -> filter P l = [].
Proof.
  induction 1 as [|x l Hx _ IH]; [done|]. by rewrite filter_cons_False, IH.
Qed.

(** The settings that are not in the filtered list are those that fail the
    filter. *)
Lemma others_filter {A} `{EqDecision A} (p : A -> bool) (l : list A) :
  filter (fun x => negb (py_in x (filter p l))) l = filter (fun x => negb (p x)) l.
Proof.
  apply filter_ext_in. intros x Hx. unfold py_in.
  rewrite !negb_True. rewrite bool_decide_spec, list_elem_of_filter. tauto.
Qed.

Lemma field_key_spec names nts :
  let name := tag_of (cfg_configurable_field_name (config nts)) in
  (forall i, field_key names nts = Z.of_nat i ->
     names !! i = Some name /\ forall j, j < i -> names !! j <> Some name) /\
  (field_key names nts = (-1)%Z <-> name ∉ names) /\
  (-1 <= field_key names nts)%Z.
Proof.
  unfold field_key. cbn zeta.
  destruct (index_of _ names) as [k|] eqn:E.
  - apply index_of_Some in E as HE. split_and!.
    + intros i Hi. assert (i = k) as -> by lia. done.
    + split; [lia|]. intros Hn. exfalso. apply Hn.
      by eapply list_elem_of_lookup_2, HE.
    + lia.
  - apply index_of_None in E. split_and!; [intros i; lia|done|lia].
Qed.

(** The ordering, given the enumerated names. *)
Lemma adjust_configurable_field_nts_order_names a ntss notetype_name names :
  configurable_fields_for_notetype a notetype_name = Ok names ->
  let key := field_key names in
  let name := fun nts => tag_of (cfg_configurable_field_name (config nts)) in
  let fields := sorted_by key (filter is_field ntss) in
  let others := filter (fun nts => negb (is_field nts)) ntss in
  _adjust_configurable_field_nts_order a ntss notetype_name = Ok (others ++ fields) /\
  fields ≡ₚ filter is_field ntss /\
  StronglySorted (key_le key) fields /\
  (forall k, filter (fun nts => key nts = k) fields
             = filter (fun nts => key nts = k) (filter is_field ntss)) /\
  (forall nts i, key nts = Z.of_nat i ->
     names !! i = Some (name nts) /\ forall j, j < i -> names !! j <> Some (name nts)) /\
  (forall nts, key nts = (-1)%Z <-> name nts ∉ names) /\
  (forall i j x y, fields !! i = Some x -> fields !! j = Some y ->
     name x ∉ names -> name y ∈ names -> i < j) /\
  _adjust_configurable_field_nts_order a (others ++ fields) notetype_name
    = Ok (others ++ fields).
Proof.
  intros Hn key name fields others.
  assert (forall l, _adjust_configurable_field_nts_order a l notetype_name
                    = Ok (filter (fun nts => negb (is_field nts)) l
                          ++ sorted_by key (filter is_field l))) as Hadj.
  { intros l. unfold _adjust_configurable_field_nts_order. rewrite Hn. simpl.
    do 2 f_equal. apply (others_filter is_field). }
  assert (fields ≡ₚ filter is_field ntss) as Hperm by apply sorted_by_perm.
  assert (StronglySorted (key_le key) fields) as Hsorted by apply sorted_by_sorted.
  split_and!; try done.
  - intros k. apply sorted_by_stable.
  - intros nts i. apply (field_key_spec names nts).
  - intros nts. apply (field_key_spec names nts).
  - intros i j x y Hi Hj Hx Hy.
    apply (sorted_lookup_lt key fields i j x y Hsorted Hi Hj).
    apply (field_key_spec names x) in Hx. fold key in Hx. rewrite Hx.
    destruct (field_key_spec names y) as (_ & Hy1 & Hy2). fold key in Hy1, Hy2.
    destruct (decide (key y = (-1)%Z)) as [E|E]; [by apply Hy1 in E|lia].
  - rewrite Hadj. rewrite !filter_app.
    assert (Forall (fun nts => is_field nts) fields) as Hf.
    { rewrite Hperm. apply Forall_forall. intros x Hx.
      by apply list_elem_of_filter in Hx as [? _]. }
    assert (Forall (fun nts => ~ is_field nts) others) as Ho.
    { apply Forall_forall. intros x Hx.
      apply list_elem_of_filter in Hx as [Hx _]. by apply negb_True in Hx. }
    rewrite (filter_none (fun nts => is_field nts) others Ho).
    rewrite (filter_all (fun nts => is_field nts) fields Hf).
    rewrite (filter_all (fun nts => negb (is_field nts)) others).
    2:{ eapply Forall_impl; [exact Ho|]. intros x. by rewrite negb_True. }
    rewrite (filter_none (fun nts => negb (is_field nts)) fields).
    2:{ eapply Forall_impl; [exact Hf|]. intros x Hx. rewrite negb_True. tauto. }
    simpl. rewrite app_nil_r. unfold fields. by rewrite sorted_by_idem.
Qed.

Lemma map_res_raise {A B} (f : A -> res B) (l : list A) (e : Exn) (x : A) :
  (forall y e', f y = Raise e' -> e' = e) ->
  x ∈ l -> f x = Raise e -> map_res f l = Raise e.
Proof.
  intros Hall Hin Hx. induction l as [|y l IH]; [by apply elem_of_nil in Hin|].
  simpl. destruct (f y) as [b|e'] eqn:E; simpl.
  - apply elem_of_cons in Hin as [->|Hin]; [congruence|].
    by rewrite (IH Hin).
  - f_equal. by eapply Hall.
Qed.

(** A hint-button setting whose button is not a key of the mapping makes
    [adjust_hint_button_nts_order] raise: [list.index] finds nothing. *)
Lemma adjust_hint_button_nts_order_absent a ntss notetype_name odict nts :
  btn_name_to_shortcut_odict a notetype_name = Ok odict ->
  nts ∈ ntss -> is_hint_button nts ->
  tag_of (cfg_hint_button_setting (config nts)) ∉ map (fun p => VStr p.1) odict ->
  adjust_hint_button_nts_order a ntss notetype_name = Raise ValueError.
Proof.
  intros Ho Hin Hh Habs. unfold adjust_hint_button_nts_order. rewrite Ho. simpl.
  unfold py_sorted.
  rewrite (map_res_raise _ _ ValueError nts); [done| | |].
  - intros y e'. unfold py_index. destruct (index_of _ _); simpl; [done|by intros [= <-]].
  - apply list_elem_of_filter. by split.
  - unfold py_index. destruct (index_of _ _) as [i|] eqn:E; [|done].
    apply index_of_Some in E as [E _]. exfalso. apply Habs.
    by eapply list_elem_of_lookup_2.
Qed.

(** C8 at the failing input. The buttons of the Cloze back template are
    Extra and Notes; with hint-button settings for Notes and Extra the order
    of the mapping is taken, but a hint-button setting for a button Source
    that the mapping does not name makes the ordering raise [ValueError]
    instead of going to the end of the list. *)
Theorem adjust_hint_button_nts_order_unknown_button :
  btn_name_to_shortcut_odict ex_addon "Cloze"
    = Ok [(txt "Extra", txt "Alt+1"); (txt "Notes", txt "Alt+2")] /\
  adjust_hint_button_nts_order ex_addon
    [nts_autoflip; hint_nts "btn_shortcut_notes" "Notes"; nts_timer;
     hint_nts "btn_shortcut_extra" "Extra"] "Cloze"
    = Ok [hint_nts "btn_shortcut_extra" "Extra"; hint_nts "btn_shortcut_notes" "Notes";
          nts_autoflip; nts_timer] /\
  adjust_hint_button_nts_order ex_addon
    [nts_autoflip; hint_nts "btn_shortcut_notes" "Notes";
     hint_nts "btn_shortcut_source" "Source"; hint_nts "btn_shortcut_extra" "Extra"]
    "Cloze"
    = Raise ValueError.
Proof. split_and!; by vm_compute. Qed.

(** ** Colors with the inherit option *)

Lemma replace_first_same s x : replace_first s x x = s.
Proof.
  unfold replace_first. destruct (find x s) as [i|] eqn:E; [|done].
  apply find_Some_starts in E. apply starts_with_inv in E as [r E].
  assert (drop (i + length x) s = r) as ->.
  { rewrite <- drop_drop, E. apply drop_app_length. }
  rewrite <- E. apply take_drop.
Qed.

Lemma search_group1_value r s v :
  search_group1 r s = Ok v -> v = VNone \/ exists t, v = VStr t.
Proof.
  unfold search_group1, group. destruct (re_search r s) as [m|]; [|done].
  destruct (ngroups r <? 1); [done|].
  destruct (assoc 1 (m_groups m)) as [[a b]|]; intros [= <-]; [right; by eexists|by left].
Qed.

(** With the inherit option decode yields inherit or transparent, whatever
    color is stored. *)
Lemma color_inherit_extract nts section v :
  nts_class nts = ColorSetting -> with_inherit_option (config nts) = true ->
  _extract_setting_value nts section = Ok v ->
  v = VStr (txt "inherit") \/ v = VStr (txt "transparent").
Proof.
  intros Hc Hi. unfold _extract_setting_value. rewrite Hc, Hi.
  destruct (search_group1 _ _) as [color_str|] eqn:Es; [|done]. cbn [rbind andb].
  apply search_group1_value in Es as [->|[t ->]].
  - intros [= <-]. by left.
  - unfold text_eqb. cbn [py_str].
    destruct (bool_decide_reflect (t = txt "transparent")) as [->|E];
      intros [= <-]; [by right|by left].
Qed.

(** With the inherit option, encoding any value but transparent into a
    section whose stored color is not transparent leaves the section as it
    is: the text searched for is the decoded value, inherit, and it is
    replaced by inherit. *)
Lemma color_inherit_set_noop nts section stored v :
  nts_class nts = ColorSetting -> with_inherit_option (config nts) = true ->
  search_group1 (cfg_regex (config nts)) section = Ok (VStr stored) ->
  stored <> txt "transparent" ->
  v <> VStr (txt "transparent") ->
  _set_setting_value nts section v = Ok section.
Proof.
  intros Hc Hi Hs Hst Hv. unfold _set_setting_value, _extract_setting_value.
  rewrite Hc, Hi, Hs. cbn [rbind andb py_str]. unfold text_eqb.
  rewrite (bool_decide_false _ Hst). cbn [negb rbind].
  rewrite (bool_decide_false _ Hv). cbn [negb py_replace_first].
  by rewrite replace_first_same.
Qed.

(** C3 at the failing input. The bold-text color descriptor has the inherit
    option; its section in the styling is [b { color: red;], the stored
    token is red.  Encoding the value blue returns the section unchanged:
    red is still there and inherit is not written. *)
Theorem color_inherit_encode_keeps_stored_token :
  _relevant_template_section nts_bold 0 ex_world = (Ok (txt "b { color: red;"), ex_world) /\
  search_group1 (cfg_regex (config nts_bold)) (txt "b { color: red;")
    = Ok (VStr (txt "red")) /\
  _set_setting_value nts_bold (txt "b { color: red;") (VStr (txt "blue"))
    = Ok (txt "b { color: red;") /\
  contains (txt "inherit") (txt "b { color: red;") = false.
Proof. split_and!; by vm_compute. Qed.

(** ** Sharing of the template dict *)

(** After a successful [updated_model] for the front or the back template,
    the model that was passed in shows the rewritten blob as well: the copy
    shares its template dict. *)
Lemma updated_model_aliasing nts model notetype_name w result w' :
  updated_model nts model notetype_name w = (Ok result, w') ->
  (if String.eqb (cfg_file (config nts)) "front" || String.eqb (cfg_file (config nts)) "back"
   then blobs_of w' model = blobs_of w' result
   else blobs_of w' model = blobs_of w model).
Proof.
  intros H.
  apply updated_model_Ok in H
    as (d & template & t & m & v & p & Hd & Etm & Et & Em & Ev & Ep & -> & _ & _ & ->).
  unfold blobs_of. cbn [models templates].
  rewrite lookup_snoc_new, (lookup_app_l_Some _ _ _ _ Hd).
  destruct (String.eqb (cfg_file (config nts)) "front");
    [|destruct (String.eqb (cfg_file (config nts)) "back")]; simpl;
    by rewrite ?Hd, ?Etm.
Qed.

(** C6 at the failing input. [updated_model] for the autoflip setting (front
    template) on the Cloze model at address 0: the call returns a copy at
    address 1, and afterwards the front blob of the model at address 0, the
    one passed in, is no longer what it was before the call. *)
Theorem updated_model_mutates_input :
  let before := blobs_of ex_world 0 in
  let '(r, w') := updated_model nts_autoflip 0 "Cloze" ex_world in
  r = Ok 1 /\
  before = Some (mkBlobs ex_front ex_back ex_css) /\
  blobs_of w' 0
    = Some (mkBlobs (txt "<!-- version 1a2b -->" ++ nl ++
                     txt "var autoflip = false;" ++ nl ++
                     qtxt "var tagID = `XXXYYYZZZ`;" ++ nl)
              ex_back ex_css) /\
  blobs_of w' 0 <> before.
Proof. vm_compute. split_and!; done. Qed.

(** ** Errors while reading the settings in *)

(** A setting whose pattern is missing is reported and the others are read:
    the timer of the Cloze note type is not in the front template, the
    autoflip setting is read and stored, and one report is shown. *)
Lemma read_in_reports_missing_pattern :
  read_in_settings_from_notetypes ex_addon ex_world_no_timer
  = (Ok tt,
     mkWorld (models ex_world_no_timer) (templates ex_world_no_timer)
       (<["Cloze.autoflip" := VBool true]> ∅)
       [ShowInfo [CouldNotFind "timer_secs" "front" "Cloze"]]).
Proof. by vm_compute. Qed.

(** C5 at the failing input. The front template of the Cloze note type says
    [var seconds = 9.5]: the pattern of the timer setting matches and
    captures 9.5, [int] raises [ValueError], which the loop does not catch.
    Reading the settings in ends with that exception: the autoflip setting is
    not read, nothing is stored and no report is shown. *)
Theorem read_in_aborts_on_malformed_number :
  setting_value nts_timer_secs 0 ex_world_decimal = (Raise ValueError, ex_world_decimal) /\
  setting_value nts_autoflip 0 ex_world_decimal = (Ok (VBool true), ex_world_decimal) /\
  read_in_settings_from_notetypes ex_addon ex_world_decimal
  = (Raise ValueError, ex_world_decimal).
Proof. split_and!; by vm_compute. Qed.

(** ** Values outside the domain of the round trip *)


(** A check box: the auto-reveal setting of the button Extra, on a section
    in which another button comes first.  Encoding true rewrites the first
    false, the other button's. *)
Lemma checkbox_encode_rewrites_first_occurrence :
  let section :=
    qtxt "var ButtonAutoReveal = { `A` : false," ++ nl ++ qtxt " `Extra` : false," ++ nl in
  _extract_setting_value nts_autoreveal_extra section = Ok (VBool false) /\
  _set_setting_value nts_autoreveal_extra section (VBool true)
    = Ok (qtxt "var ButtonAutoReveal = { `A` : true," ++ nl ++ qtxt " `Extra` : false," ++ nl) /\
  _extract_setting_value nts_autoreveal_extra
    (qtxt "var ButtonAutoReveal = { `A` : true," ++ nl ++ qtxt " `Extra` : false," ++ nl)
    = Ok (VBool false).
Proof. split_and!; by vm_compute. Qed.

(** A drop-down: a stored token that also occurs in front of its place. *)
Lemma dropdown_encode_rewrites_first_occurrence :
  let section := qtxt "var revealNextClozeMode = `r`" in
  _set_setting_value nts_cloze_mode section (VStr (txt "word"))
    = Ok (qtxt "vaword revealNextClozeMode = `r`") /\
  _extract_setting_value nts_cloze_mode (qtxt "vaword revealNextClozeMode = `r`")
    = Raise AttributeError.
Proof. split_and!; by vm_compute. Qed.

(** A color with the inherit option: what is decoded is inherit, not the
    color that was encoded. *)
Lemma inherit_color_decodes_to_inherit :
  _set_setting_value nts_bold (txt "b { color: inherit;") (VStr (txt "blue"))
    = Ok (txt "b { color: inherit;") /\
  _extract_setting_value nts_bold (txt "b { color: inherit;") = Ok (VStr (txt "inherit")).
Proof. split_and!; by vm_compute. Qed.

(** The pair check box of the table with two pairs, on a section its
    pattern locates: the literal of the first pair overlaps the literal of
    the second, replacing the first destroys the second, and decoding what
    was encoded raises. *)
Lemma front_tts_overlapping_literals :
  let section := txt "<!--tts a<!-->" in
  (exists m, re_search (cfg_regex front_tts) section = Some m /\
             slice (m_start m) (m_end m) section = section) /\
  _set_setting_value nts_front_tts section (VBool true) = Ok (txt "{{tts a{{>") /\
  _extract_setting_value nts_front_tts (txt "{{tts a{{>")
  = Raise (NotetypeParseException
             (ErrorInvolving [(txt "<!--", txt "{{"); (txt "-->", txt "}}")]
                (txt "{{tts a{{>"))).
Proof. split_and!; [eexists; split; by vm_compute|by vm_compute..]. Qed.

(** C7, counterexample. The timer descriptor with the pair (none, block): in
    the section [.timer {content: none; display: block;], located by the
    pattern, every on-literal is present, and decode raises instead of
    returning true. *)
Lemma re_checkbox_all_on_not_true :
  let css := txt ".timer {content: none; display: block; }" in
  let section := txt ".timer {content: none; display: block;" in
  _relevant_template_section nts_timer 0
    (mkWorld [mkModel "Cloze" css [0] []] [ex_template] ∅ [])
  = (Ok section, mkWorld [mkModel "Cloze" css [0] []] [ex_template] ∅ []) /\
  all_on [(txt "none", txt "block")] section = true /\
  _extract_setting_value nts_timer section
  = Raise (NotetypeParseException (ErrorInvolving [(txt "none", txt "block")] section)) /\
  ~ (forall nts pairs section,
       nts_class nts = ReCheckboxSetting ->
       cfg_replacement_pairs (config nts) = Some pairs ->
       (_extract_setting_value nts section = Ok (VBool true)
        <-> all_on pairs section = true)).
Proof.
  cbn zeta. split_and!; [by vm_compute..|].
  intros H.
  specialize (H nts_timer [(txt "none", txt "block")]
                (txt ".timer {content: none; display: block;") eq_refl eq_refl).
  destruct H as [_ H]. by specialize (H eq_refl).
Qed.

(** ** The enumeration of the configurable fields never fails *)

Lemma search_from_complete r s : forall pos i,
  i <= length s -> rmatch r (skipn i s) [] kdone <> None ->
  search_from r pos s <> None.
Proof.
  induction s as [|a s IH]; intros pos i Hi Hm; cbn [search_from].
  - assert (i = 0) as -> by (simpl in Hi; lia). simpl in Hm.
    by destruct (rmatch r [] [] kdone) as [[??]|].
  - destruct (rmatch r (a :: s) [] kdone) as [[??]|] eqn:E; [done|].
    destruct i as [|i]; [done|]. simpl in Hm, Hi. apply (IH (S pos) i); [lia|done].
Qed.

(** A text that contains a text of the language is found by [re.search]. *)
Lemma re_search_complete r t0 t rest :
  Matches r t -> re_search r (t0 ++ t ++ rest) <> None.
Proof.
  intros M. apply (search_from_complete _ _ 0 (length t0)).
  - rewrite length_app. lia.
  - rewrite drop_app_length. by apply rmatch_complete.
Qed.

Lemma Matches_lit_text p t : Matches (lit_text p) t -> t = p.
Proof.
  revert t. induction p as [|a p IH]; intros t M; simpl in M.
  - by inversion M.
  - inversion M as [| |?? t1 t2 M1 M2| | | | |]; subst.
    inversion M1 as [|? b Hb| | | | | |]; subst. simpl in Hb.
    apply bool_decide_eq_true in Hb as ->. simpl. f_equal. by apply IH.
Qed.

Lemma Matches_lit_text_refl p : Matches (lit_text p) p.
Proof.
  induction p as [|a p IH]; simpl; [constructor|].
  apply (MSeq _ _ [a] p); [|done]. constructor. simpl. by apply bool_decide_eq_true.
Qed.

(** Every match returned by [re.finditer] is a text of the language. *)
Lemma search_adv_sound r adv pos s m :
  search_adv r adv pos s = Some m ->
  exists i t,
    m_start m = pos + i /\ m_end m = pos + i + length t /\
    firstn (length t) (skipn i s) = t /\ i + length t <= length s /\ Matches r t.
Proof.
  unfold search_adv.
  destruct (rmatch r s [] _) as [[s' c]|] eqn:E.
  - intros [= <-]. apply rmatch_sound in E as (t & s1 & c1 & -> & M & Hk).
    destruct (adv && _); [done|]. injection Hk as -> ->.
    exists 0, t. cbn [m_start m_end]. rewrite drop_0, take_app_length, !length_app.
    split_and!; [lia|lia|done|lia|done].
  - destruct s as [|a s]; [done|]. intros H.
    apply search_from_spec in H as (i & s' & c & Hi & Hm & _ & Hs & He & _).
    apply rmatch_sound in Hm as (t & s1 & c1 & Hsplit & M & Hk). injection Hk as -> ->.
    exists (S i), t.
    assert (length (skipn i s) = length s - i) as Hl by apply length_drop.
    rewrite Hsplit, length_app in Hl. rewrite Hsplit, length_app in He.
    change (drop (S i) (a :: s)) with (drop i s). rewrite Hsplit, take_app_length.
    cbn [length]. split_and!; [lia|lia|done|lia|done].
Qed.

Lemma finditer_aux_sound r whole : forall fuel adv pos m,
  m ∈ finditer_aux fuel r adv pos (skipn pos whole) ->
  Matches r (slice (m_start m) (m_end m) whole).
Proof.
  induction fuel as [|fuel IH]; intros adv pos m Hin; simpl in Hin.
  - by apply elem_of_nil in Hin.
  - destruct (search_adv r adv pos (skipn pos whole)) as [m0|] eqn:E;
      [|by apply elem_of_nil in Hin].
    apply elem_of_cons in Hin as [->|Hin].
    + apply search_adv_sound in E as (i & t & Hs & He & Ht & _ & M).
      unfold slice. rewrite Hs, He.
      replace (pos + i + length t - (pos + i)) with (length t) by lia.
      rewrite drop_drop in Ht. by rewrite Ht.
    + apply search_adv_sound in E as E'. destruct E' as (i & t & Hs & He & _).
      rewrite drop_drop in Hin.
      replace (pos + (m_end m0 - pos)) with (m_end m0) in Hin by lia.
      by apply IH in Hin.
Qed.

Lemma finditer_sound r s m :
  m ∈ finditer r s -> Matches r (slice (m_start m) (m_end m) s).
Proof. unfold finditer. apply (finditer_aux_sound r s _ false 0). Qed.

(** A conditional block holds a field name. *)
Lemma conditional_field_has_name field :
  Matches CONDITIONAL_FIELD_RE field ->
  exists v, search_group1 CONFIGURABLE_FIELD_NAME_RE field = Ok v.
Proof.
  intros M. unfold CONDITIONAL_FIELD_RE in M. cbn [seqs] in M.
  inversion M as [| |?? t0 u0 _ M0| | | | |]; subst. clear M.
  inversion M0 as [| |?? t1 u1 M1 M2| | | | |]; subst. clear M0.
  inversion M2 as [| |?? t2 u2 M3 M4| | | | |]; subst. clear M2.
  inversion M4 as [| |?? t3 u3 M5 _| | | | |]; subst. clear M4.
  apply Matches_lit_text in M1 as ->. apply Matches_lit_text in M5 as ->.
  assert (Matches CONFIGURABLE_FIELD_NAME_RE (txt "{{#" ++ t2 ++ txt "}}")) as MN.
  { unfold CONFIGURABLE_FIELD_NAME_RE. cbn [seqs].
    apply MSeq; [apply Matches_lit_text_refl|].
    apply MSeq; [by constructor|apply Matches_lit_text_refl]. }
  pose proof (re_search_complete _ t0 _ u3 MN) as Hs.
  replace (t0 ++ (txt "{{#" ++ t2 ++ txt "}}") ++ u3)
    with (t0 ++ txt "{{#" ++ t2 ++ txt "}}" ++ u3) in Hs
    by (by rewrite <- !app_assoc).
  unfold search_group1, group.
  destruct (re_search CONFIGURABLE_FIELD_NAME_RE _) as [m|]; [|done].
  change (ngroups CONFIGURABLE_FIELD_NAME_RE <? 1) with false.
  destruct (assoc 1 (m_groups m)) as [[a b]|]; by eexists.
Qed.

Lemma map_res_total {A B} (f : A -> res B) (l : list A) :
  Forall (fun x => exists y, f x = Ok y) l -> exists ys, map_res f l = Ok ys.
Proof.
  induction 1 as [|x l [y Hy] _ [ys IH]]; simpl; [by eexists|].
  rewrite Hy, IH. by eexists.
Qed.

(** For a shipped note type [configurable_fields_for_notetype] returns. *)
Lemma configurable_fields_for_notetype_total a notetype_name tpl :
  anking_notetype_templates a !! notetype_name = Some tpl ->
  exists names, configurable_fields_for_notetype a notetype_name = Ok names.
Proof.
  intros H. unfold configurable_fields_for_notetype. rewrite H.
  destruct tpl as [[front back] css]. apply map_res_total.
  apply Forall_forall. intros field Hin.
  apply list_elem_of_filter in Hin as [_ Hin].
  apply list_elem_of_fmap in Hin as (m & -> & Hm).
  apply conditional_field_has_name. by apply finditer_sound.
Qed.

(** C9. Configurable-field ordering: for a shipped note type the names of
    the configurable fields are enumerated, the settings tagged with a
    configurable-field name go behind the others and are sorted by the index
    at which their field name first occurs among those names, a name that
    does not occur counting as -1, so ahead of every name that does; the
    sort keeps the order of settings with the same index; and ordering the
    ordered list again gives the same list. *)
Theorem adjust_configurable_field_nts_order_spec a ntss notetype_name tpl :
  anking_notetype_templates a !! notetype_name = Some tpl ->
  exists names,
    configurable_fields_for_notetype a notetype_name = Ok names /\
    let key := field_key names in
    let name := fun nts => tag_of (cfg_configurable_field_name (config nts)) in
    let fields := sorted_by key (filter is_field ntss) in
    let others := filter (fun nts => negb (is_field nts)) ntss in
    _adjust_configurable_field_nts_order a ntss notetype_name = Ok (others ++ fields) /\
    fields ≡ₚ filter is_field ntss /\
    StronglySorted (key_le key) fields /\
    (forall k, filter (fun nts => key nts = k) fields
               = filter (fun nts => key nts = k) (filter is_field ntss)) /\
    (forall nts i, key nts = Z.of_nat i ->
       names !! i = Some (name nts) /\
       forall j, j < i -> names !! j <> Some (name nts)) /\
    (forall nts, key nts = (-1)%Z <-> name nts ∉ names) /\
    (forall i j x y, fields !! i = Some x -> fields !! j = Some y ->
       name x ∉ names -> name y ∈ names -> i < j) /\
    _adjust_configurable_field_nts_order a (others ++ fields) notetype_name
      = Ok (others ++ fields).
Proof.
  intros H. destruct (configurable_fields_for_notetype_total _ _ _ H) as [names Hn].
  exists names. split; [done|].
  by apply adjust_configurable_field_nts_order_names.
Qed.

(** ** Instances *)

Ltac solve_captures :=
  split; [vm_compute; lia | eexists; split; vm_compute; reflexivity].
Ltac solve_rewritable :=
  split; [solve_captures | split; [vm_compute; reflexivity | solve_captures]].


(** The autoflip setting written into the Cloze model. *)
Lemma updated_model_locality_witness :
  let w' := (updated_model nts_autoflip 0 "Cloze" ex_world).2 in
  updated_model nts_autoflip 0 "Cloze" ex_world = (Ok 1, w') /\
  exists b m v processed_section,
    blobs_of ex_world 0 = Some b /\
    let file := cfg_file (config nts_autoflip) in
    let blob := target file b in
    re_search (cfg_regex (config nts_autoflip)) blob = Some m /\
    m_start m <= m_end m <= length blob /\
    conf ex_world !! key nts_autoflip "Cloze" = Some v /\
    _set_setting_value nts_autoflip (slice (m_start m) (m_end m) blob) v
      = Ok processed_section /\
    blobs_of w' 1
      = Some (with_target file b
                (firstn (m_start m) blob ++ processed_section ++ skipn (m_end m) blob)) /\
    envelope_of w' 1 = envelope_of ex_world 0.
Proof.
  cbn zeta. split; [vm_compute; reflexivity|].
  apply (updated_model_locality nts_autoflip 0 "Cloze" ex_world 1).
  vm_compute. reflexivity.
Defined.


(** The timer check box on a section that is on. *)
Lemma re_checkbox_codec_witness :
  _extract_setting_value nts_timer (txt ".timer {display: block;") = Ok (VBool true)
  <-> all_on [(txt "none", txt "block")] (txt ".timer {display: block;") = true
      /\ all_off [(txt "none", txt "block")] (txt ".timer {display: block;") = false.
Proof.
  apply (proj1 re_checkbox_codec nts_timer [(txt "none", txt "block")]
           (txt ".timer {display: block;") eq_refl eq_refl).
Defined.

(** Three field settings and one other setting of the Cloze note type: the
    field Lecture is not in the back template and comes first. *)
Lemma adjust_configurable_field_nts_order_witness :
  exists names,
    configurable_fields_for_notetype ex_addon "Cloze" = Ok names /\
    _adjust_configurable_field_nts_order ex_addon
      [field_nts "btn_shortcut_notes" "Notes"; nts_autoflip;
       field_nts "btn_shortcut_lecture" "Lecture"; field_nts "btn_shortcut_extra" "Extra"]
      "Cloze"
    = Ok [nts_autoflip; field_nts "btn_shortcut_lecture" "Lecture";
          field_nts "btn_shortcut_extra" "Extra"; field_nts "btn_shortcut_notes" "Notes"].
Proof.
  destruct (adjust_configurable_field_nts_order_spec ex_addon
              [field_nts "btn_shortcut_notes" "Notes"; nts_autoflip;
               field_nts "btn_shortcut_lecture" "Lecture";
               field_nts "btn_shortcut_extra" "Extra"]
              "Cloze" (ex_front, ex_back, ex_css) eq_refl)
    as (names & Hn & Hadj & _).
  exists names. split; [exact Hn|].
  rewrite Hadj. vm_compute in Hn. injection Hn as <-. vm_compute. reflexivity.
Defined.

(** The autoflip descriptor gives a check box; a descriptor with the tag
    slider gives an exception. *)
Lemma from_config_dispatch_witness :
  (config nts_autoflip = autoflip /\
   class_of_type (cfg_type autoflip) = Some (nts_class nts_autoflip)) /\
  from_config (descriptor "volume" "slider" "front" Eps)
  = Raise (Exception_ "unkown NoteTypeSetting type: slider").
Proof.
  destruct from_config_dispatch as (_ & Hok & Hraise & _).
  split.
  - apply (Hok autoflip nts_autoflip). reflexivity.
  - apply (Hraise (descriptor "volume" "slider" "front" Eps)).
    unfold known_types. rewrite !elem_of_cons, elem_of_nil. vm_compute.
    intros H. repeat (destruct H as [H|H]; [discriminate H|]). exact H.
Defined.

(** *** The located sections of the timer *)

(** Every section that the pattern of the timer locates holds one of the
    two literals of its pair, so every boolean can be written into it. *)
Lemma timer_located_section_in_domain section bv :
  Matches (cfg_regex timer) section -> in_domain nts_timer section (VBool bv).
Proof.
  intros M. exists bv, [(txt "none", txt "block")].
  split; [done|]. split; [done|].
  assert (exists g, (g = txt "none" \/ g = txt "block") /\ contains g section = true)
    as (g & Hg & Hc).
  { cbn in M. unfold lit in M.
    apply Matches_Seq_inv in M as (t1 & s1 & -> & _ & M).
    apply Matches_Seq_inv in M as (t2 & s2 & -> & _ & M).
    apply Matches_Seq_inv in M as (t3 & s3 & -> & _ & M).
    apply Matches_Seq_inv in M as (t4 & s4 & -> & _ & M).
    apply Matches_Seq_inv in M as (t5 & s5 & -> & _ & M).
    apply Matches_Seq_inv in M as (g & t7 & -> & Mg & _).
    exists g. split.
    - apply Matches_Group_inv, Matches_Alt_inv in Mg as [Mg|Mg].
      + apply (Matches_lit_text (txt "block")) in Mg as ->. by right.
      + apply (Matches_lit_text (txt "none")) in Mg as ->. by left.
    - do 5 apply contains_app_r. apply contains_self_app. }
  apply contains_occurs in Hc as [p Hp].
  destruct bv; simpl.
  - apply (rc_writable_one _ _ _ g p); [done| |done|done].
    by apply not_recreated_check.
  - apply (rc_writable_one _ _ _ g p); [done| |tauto|done].
    by apply not_recreated_check.
Qed.

(** *** White space of [int] *)

(** [int] skips the no-break space but not the separator 28. *)
Lemma int_white_space :
  py_int (VStr ["160"%char; "9"%char]) = Ok 9%Z /\
  py_int (VStr ["028"%char; "9"%char]) = Raise ValueError.
Proof. split; by vm_compute. Qed.

(** * Further properties *)

(** ** Writing a decoded value back *)

Lemma splice_slice_id s a b : a <= b -> b <= length s -> splice s a b (slice a b s) = s.
Proof.
  intros Hab Hb. unfold splice, slice.
  rewrite <- (take_drop a s) at 4. f_equal.
  rewrite <- (take_drop (b - a) (drop a s)) at 2. f_equal.
  rewrite drop_drop. f_equal. lia.
Qed.

Lemma search_group1_Ok_captures r s t :
  search_group1 r s = Ok (VStr t) ->
  exists a b, captures r s a b /\ t = slice a b s.
Proof.
  unfold search_group1, group. destruct (re_search r s) as [m|] eqn:Em; [|done].
  destruct (ngroups r <? 1) eqn:En; [done|]. apply Nat.ltb_ge in En.
  destruct (assoc 1 (m_groups m)) as [[a b]|] eqn:Eg; [|done].
  intros [= <-]. exists a, b. split; [|done]. split; [done|]. by exists m.
Qed.

Lemma set_decoded_value_id nts section v :
  nts_class nts <> ReCheckboxSetting ->
  _extract_setting_value nts section = Ok v ->
  v <> VNone ->
  _set_setting_value nts section v = Ok section.
Proof.
  intros Hk He Hv.
  assert (forall t, search_group1 (cfg_regex (config nts)) section = Ok (VStr t) ->
                    splice_group1 (cfg_regex (config nts)) section (VStr t) = Ok section)
    as Hsplice.
  { intros t Ht. apply search_group1_Ok_captures in Ht as (a & b & Hc & ->).
    rewrite (splice_group1_captures _ _ _ _ _ Hc).
    apply captures_bounds in Hc as [? ?]. by rewrite splice_slice_id. }
  unfold _set_setting_value. rewrite He. unfold _extract_setting_value in He.
  destruct (nts_class nts) eqn:Hc; try done.
  - (* check box *)
    destruct (search_group1 _ _) as [value|]; [|done]. cbn [rbind] in He.
    destruct (_ || _); [|done]. injection He as <-. cbn [rbind truthy].
    by rewrite replace_first_same.
  - (* text *)
    destruct v as [| | |t]; try done;
      try (by apply search_group1_value in He as [?|[? ?]]).
    by apply Hsplice.
  - (* number *)
    destruct (search_group1 _ _) as [value|]; [|done]. cbn [rbind] in He.
    destruct (py_int value) as [n|]; [|done]. injection He as <-. cbn [rbind].
    by rewrite replace_first_same.
  - (* shortcut *)
    destruct v as [| | |t]; try done;
      try (by apply search_group1_value in He as [?|[? ?]]).
    by apply Hsplice.
  - (* drop-down *)
    apply search_group1_value in He as [->|[t ->]]; [done|].
    cbn [rbind py_replace_first]. by rewrite replace_first_same.
  - (* color *)
    destruct (search_group1 _ _) as [color_str|] eqn:Es; [|done]. cbn [rbind] in He.
    cbn [rbind].
    destruct (with_inherit_option (config nts)); cbn [andb] in *.
    + unfold text_eqb in He.
      destruct (bool_decide_reflect (py_str color_str = txt "transparent")) as [E|E];
        cbn [negb] in He; injection He as <-.
      * apply search_group1_value in Es as [->|[t ->]]; [done|].
        cbn [py_str] in E. subst t. rewrite bool_decide_true by done.
        cbn [negb py_replace_first]. by rewrite replace_first_same.
      * rewrite bool_decide_false by done.
        cbn [negb py_replace_first]. by rewrite replace_first_same.
    + injection He as <-.
      apply search_group1_value in Es as [->|[t ->]]; [done|].
      cbn [py_replace_first]. by rewrite replace_first_same.
  - (* font family *)
    destruct v as [| | |t]; try done;
      try (by apply search_group1_value in He as [?|[? ?]]).
    by apply Hsplice.
Qed.

(** X1. Writing back the value that was decoded changes nothing: for every
    setting but a pair check box, when decoding a section gives a value
    (not [None]), encoding that value into the section returns the section
    as it is, and so decoding gives the same value again. *)
Theorem set_decoded_value_keeps_section nts section v :
  nts_class nts <> ReCheckboxSetting ->
  _extract_setting_value nts section = Ok v ->
  v <> VNone ->
  exists section',
    _set_setting_value nts section v = Ok section' /\ section' = section /\
    _extract_setting_value nts section' = Ok v.
Proof.
  intros Hk He Hv. exists section.
  split_and!; [by apply set_decoded_value_id|done|done].
Qed.

Lemma set_decoded_value_keeps_section_witness :
  exists section',
    _set_setting_value nts_font_size (txt "html { margin: 28px; font-size: 28px;") (VInt 28)
    = Ok section' /\
    section' = txt "html { margin: 28px; font-size: 28px;" /\
    _extract_setting_value nts_font_size section' = Ok (VInt 28).
Proof.
  apply set_decoded_value_keeps_section; [discriminate|by vm_compute|discriminate].
Defined.

(** X2. A pair check box leaves a section alone in which none of the
    literals it would replace occurs: encoding on (off) into a section that
    contains no off-literal (no on-literal) returns the section as it is. *)
Theorem re_checkbox_set_without_literals nts pairs section v :
  nts_class nts = ReCheckboxSetting ->
  cfg_replacement_pairs (config nts) = Some pairs ->
  Forall (fun p => contains (if truthy v then p.1 else p.2) section = false) pairs ->
  _set_setting_value nts section v = Ok section.
Proof.
  intros Hc Hp Hall. rewrite (re_checkbox_set _ _ _ _ Hc Hp). f_equal.
  clear Hp. unfold swap_pairs. induction Hall as [|p pairs' Hp' _ IH]; simpl; [done|].
  destruct (truthy v); by rewrite replace_all_absent.
Qed.

Lemma re_checkbox_set_without_literals_witness :
  _set_setting_value nts_timer (txt ".timer {display: block;") (VBool true)
  = Ok (txt ".timer {display: block;").
Proof.
  apply (re_checkbox_set_without_literals nts_timer [(txt "none", txt "block")]);
    [reflexivity|reflexivity|].
  constructor; [by vm_compute|constructor].
Defined.

(** ** Decoding and the store *)

Lemma relevant_template_section_pure nts model w :
  _relevant_template_section nts model w =
    (match models w !! model with
     | None => Raise BadRef
     | Some d =>
         match tmpls d with
         | [template] =>
             match templates w !! template with
             | None => Raise BadRef
             | Some t =>
                 let file := cfg_file (config nts) in
                 let template_text := target file (mkBlobs (qfmt t) (afmt t) (css d)) in
                 match re_search (cfg_regex (config nts)) template_text with
                 | None =>
                     Raise (NotetypeParseException
                              (CouldNotFind (cfg_name (config nts)) file (name d)))
                 | Some m => Ok (slice (m_start m) (m_end m) template_text)
                 end
             end
         | _ => Raise AssertionError
         end
     end, w).
Proof.
  unfold _relevant_template_section. unfold bind at 1.
  destruct (models w !! model) as [d|] eqn:Hd.
  2:{ unfold _relevant_template_text, bind, get_model. by rewrite Hd. }
  rewrite (relevant_template_text_eq _ _ _ _ Hd).
  destruct (tmpls d) as [|template [|??]]; try done.
  destruct (templates w !! template) as [t|]; [|done]. cbn zeta.
  destruct (re_search _ _) as [m|]; [done|].
  unfold bind, get_model. by rewrite Hd.
Qed.

Lemma setting_value_pure nts model w :
  setting_value nts model w = (decode_pure nts (models w) (templates w) model, w).
Proof.
  unfold setting_value, bind, decode_pure. rewrite relevant_template_section_pure.
  destruct (models w !! model) as [d|]; [|done].
  destruct (tmpls d) as [|template [|??]]; try done.
  destruct (templates w !! template) as [t|]; [|done]. cbn zeta.
  by destruct (re_search _ _).
Qed.

(** X3. Decoding is read-only: [setting_value] returns the world it was
    given, whatever the outcome, and the outcome depends on the stored model
    and template dicts only, not on the value-map or on what was shown
    before. *)
Theorem setting_value_read_only nts model w :
  (setting_value nts model w).2 = w /\
  forall w2, models w2 = models w -> templates w2 = templates w ->
             (setting_value nts model w2).1 = (setting_value nts model w).1.
Proof.
  rewrite setting_value_pure. split; [done|].
  intros w2 Hm Ht. rewrite setting_value_pure. simpl. by rewrite Hm, Ht.
Qed.

Lemma setting_value_read_only_witness :
  (setting_value nts_autoflip 0 (set_conf (fun _ => ∅) ex_world)).1
  = (setting_value nts_autoflip 0 ex_world).1.
Proof.
  by apply (proj2 (setting_value_read_only nts_autoflip 0 ex_world)).
Defined.

(** ** What [updated_model] leaves alone *)

Lemma extends_refl w : extends w w.
Proof. by split_and!. Qed.

Lemma extends_trans w1 w2 w3 : extends w1 w2 -> extends w2 w3 -> extends w1 w3.
Proof.
  intros (Hc1 & Hu1 & Hm1) (Hc2 & Hu2 & Hm2). split_and!; [congruence|congruence|].
  intros m d H. by apply Hm2, Hm1.
Qed.

Lemma extends_snoc ms ts ts' cf u d :
  extends (mkWorld ms ts cf u) (mkWorld (ms ++ [d]) ts' cf u).
Proof. split_and!; [done|done|]. intros m d' H. by apply lookup_app_l_Some. Qed.

Lemma blobs_of_same_dicts w w' m d :
  models w !! m = Some d -> models w' !! m = Some d -> templates w' = templates w ->
  blobs_of w' m = blobs_of w m.
Proof. intros H H' Ht. unfold blobs_of. by rewrite H, H', Ht. Qed.

(** X4. [updated_model] never overwrites a stored model dict and never
    touches the value-map or the shown messages; and when it raises, whatever
    the exception, no template dict has changed either, so every model reads
    as before. *)
Theorem updated_model_failure_changes_nothing nts model notetype_name w r w' :
  updated_model nts model notetype_name w = (r, w') ->
  extends w w' /\
  forall e, r = Raise e ->
    templates w' = templates w /\
    forall m d, models w !! m = Some d -> blobs_of w' m = blobs_of w m.
Proof.
  intros H. destruct (models w !! model) as [d|] eqn:Hd.
  - rewrite (updated_model_pure _ _ _ _ _ Hd) in H.
    destruct (encode_pure _ _ _ _ _) as [[d' ts']|e0]; injection H as <- <-.
    + split; [destruct w; apply extends_snoc|done].
    + split; [destruct w; apply extends_snoc|].
      intros e _. split; [done|]. intros m d0 Hm.
      apply (blobs_of_same_dicts _ _ _ d0); [done| |done].
      simpl. by apply lookup_app_l_Some.
  - rewrite updated_model_bad_ref in H by done. injection H as <- <-.
    split; [apply extends_refl|done].
Qed.

Lemma updated_model_changes_nothing_witness :
  let out := updated_model nts_timer_secs 0 "Cloze" ex_world in
  extends ex_world out.2 /\
  forall e, out.1 = Raise e ->
    templates out.2 = templates ex_world /\
    forall m d, models ex_world !! m = Some d -> blobs_of out.2 m = blobs_of ex_world m.
Proof.
  cbn zeta.
  apply (updated_model_failure_changes_nothing nts_timer_secs 0 "Cloze" ex_world).
  by destruct (updated_model nts_timer_secs 0 "Cloze" ex_world).
Defined.

Lemma alter_same_template (f : Template -> Template) (ts : list Template) (template : nat) t :
  ts !! template = Some t -> f t = t -> alter f template ts = ts.
Proof.
  intros Ht Hf. apply list_eq. intros i.
  destruct (decide (i = template)) as [->|Hne].
  - rewrite list_lookup_alter_eq, Ht. simpl. by rewrite Hf.
  - by rewrite list_lookup_alter_ne.
Qed.

(** X5. Saving a setting that was not changed leaves the note type as it
    is: when the value-map holds, for a setting that is not a pair check
    box, the value that [setting_value] decodes from the model, then
    [updated_model] returns a copy with the same three blobs and the same
    other keys, and no template dict has changed. *)
Theorem updated_model_with_decoded_value nts model notetype_name w v :
  nts_class nts <> ReCheckboxSetting ->
  setting_value nts model w = (Ok v, w) ->
  v <> VNone ->
  conf w !! key nts notetype_name = Some v ->
  exists result w',
    updated_model nts model notetype_name w = (Ok result, w') /\
    blobs_of w' result = blobs_of w model /\
    envelope_of w' result = envelope_of w model /\
    templates w' = templates w.
Proof.
  intros Hk Hs Hv Hconf. rewrite setting_value_pure in Hs. injection Hs as Hs.
  unfold decode_pure in Hs.
  destruct (models w !! model) as [d|] eqn:Hd; [|done].
  destruct (tmpls d) as [|template [|??]] eqn:Etm; try done.
  destruct (templates w !! template) as [t|] eqn:Et; [|done]. cbn zeta in Hs.
  destruct (re_search _ _) as [m|] eqn:Em; [|done].
  pose proof (set_decoded_value_id _ _ _ Hk Hs Hv) as Hset.
  rewrite (updated_model_pure _ _ _ _ _ Hd). unfold encode_pure.
  rewrite Etm, Et. cbn zeta. rewrite Em, Hconf, Hset, replace_first_same.
  unfold target in *.
  destruct (String.eqb (cfg_file (config nts)) "front") eqn:E1;
    [|destruct (String.eqb (cfg_file (config nts)) "back") eqn:E2].
  - rewrite (alter_same_template _ _ _ t) by (done || by destruct t).
    eexists _, _. split; [done|].
    unfold blobs_of, envelope_of. simpl. by rewrite lookup_snoc_new, Hd.
  - rewrite (alter_same_template _ _ _ t) by (done || by destruct t).
    eexists _, _. split; [done|].
    unfold blobs_of, envelope_of. simpl. by rewrite lookup_snoc_new, Hd.
  - eexists _, _. split; [done|].
    unfold blobs_of, envelope_of. simpl. rewrite lookup_snoc_new, Hd. simpl.
    by rewrite Etm, Et.
Qed.

Lemma updated_model_with_decoded_value_witness :
  exists result w',
    updated_model nts_font_size 0 "Cloze" (set_conf <["Cloze.font_size" := VInt 28]> ex_world)
    = (Ok result, w') /\
    blobs_of w' result
    = blobs_of (set_conf <["Cloze.font_size" := VInt 28]> ex_world) 0 /\
    envelope_of w' result
    = envelope_of (set_conf <["Cloze.font_size" := VInt 28]> ex_world) 0 /\
    templates w' = templates (set_conf <["Cloze.font_size" := VInt 28]> ex_world).
Proof.
  apply (updated_model_with_decoded_value nts_font_size 0 "Cloze" _ (VInt 28));
    [discriminate|by vm_compute|discriminate|by vm_compute].
Defined.

Lemma updated_model_extends nts model notetype_name w :
  extends w (updated_model nts model notetype_name w).2.
Proof.
  destruct (models w !! model) as [d|] eqn:Hd.
  - rewrite (updated_model_pure _ _ _ _ _ Hd).
    destruct (encode_pure _ _ _ _ _) as [[d' ts']|e0]; destruct w; apply extends_snoc.
  - rewrite updated_model_bad_ref by done. apply extends_refl.
Qed.

Lemma safe_update_loop_bad_ref nts ntss result pe w :
  models w !! result = None ->
  safe_update_loop (nts :: ntss) result pe w = (Raise BadRef, w).
Proof.
  intros H. cbn [safe_update_loop]. unfold bind, try_except, get_model. by rewrite H.
Qed.

Lemma safe_update_loop_inv ntss : forall result pe w,
  extends w (safe_update_loop ntss result pe w).2 /\
  forall msg, (safe_update_loop ntss result pe w).1 <> Raise (NotetypeParseException msg).
Proof.
  induction ntss as [|nts ntss IH]; intros result pe w.
  - split; [apply extends_refl|done].
  - destruct (models w !! result) as [d|] eqn:Hd.
    + rewrite (safe_update_loop_cons _ _ _ _ _ _ Hd).
      destruct (encode_pure _ _ _ _ _) as [[d' ts']|e].
      * destruct (IH (length (models w)) pe
                    (mkWorld (models w ++ [d']) ts' (conf w) (ui w))) as [IH1 IH2].
        split; [|done]. eapply extends_trans; [|exact IH1]. destruct w; apply extends_snoc.
      * destruct e as [msg| | | | | | | |];
          try (split; [destruct w; apply extends_snoc|done]).
        destruct (IH result (Some msg)
                    (mkWorld (models w ++ [d]) (templates w) (conf w) (ui w))) as [IH1 IH2].
        split; [|done]. eapply extends_trans; [|exact IH1]. destruct w; apply extends_snoc.
    + rewrite safe_update_loop_bad_ref by done. split; [apply extends_refl|done].
Qed.

Lemma safe_update_model_eq ntss model w :
  safe_update_model ntss model w =
    match models w !! model with
    | None => (Raise BadRef, w)
    | Some d =>
        match safe_update_loop ntss (length (models w)) None
                (set_models (fun ms => ms ++ [d]) w) with
        | (Ok st, w1) =>
            (Ok st.1,
             match st.2 with
             | Some e => set_ui (fun u => u ++ [Tooltip e]) w1
             | None => w1
             end)
        | (Raise e, w1) => (Raise e, w1)
        end
    end.
Proof.
  unfold safe_update_model, bind at 1, copy.
  destruct (models w !! model) as [d|]; [|done].
  unfold bind at 1.
  destruct (safe_update_loop ntss _ None _) as [[[result [e|]]|e] w1]; done.
Qed.

(** X6. [safe_update_model] lets no [NotetypeParseException] out, never
    writes into the value-map, never overwrites a stored model dict, and
    shows nothing or one tooltip; when another exception ends it, nothing
    is shown. *)
Theorem safe_update_model_contains_parse_failures ntss model w :
  let r := (safe_update_model ntss model w).1 in
  let w' := (safe_update_model ntss model w).2 in
  (forall msg, r <> Raise (NotetypeParseException msg)) /\
  conf w' = conf w /\
  (forall m d, models w !! m = Some d -> models w' !! m = Some d) /\
  (ui w' = ui w \/ exists e result, r = Ok result /\ ui w' = ui w ++ [Tooltip e]).
Proof.
  cbn zeta. rewrite safe_update_model_eq.
  destruct (models w !! model) as [d|] eqn:Hd; [|by split_and!; [| | |left]].
  destruct (safe_update_loop_inv ntss (length (models w)) None
              (set_models (fun ms => ms ++ [d]) w)) as [(Hc & Hu & Hm) Hn].
  destruct (safe_update_loop ntss _ None _) as [[[result pe]|e] w1]; simpl in *.
  - destruct pe as [e|]; simpl.
    + split; [done|]. split; [done|]. split.
      * intros m d0 H. by apply Hm, lookup_app_l_Some.
      * right. exists e, result. by rewrite Hu.
    + split; [done|]. split; [done|]. split; [|by left].
      intros m d0 H. by apply Hm, lookup_app_l_Some.
  - split; [intros msg [= ->]; by apply (Hn msg)|]. split; [done|]. split; [|by left].
    intros m d0 H. by apply Hm, lookup_app_l_Some.
Qed.

Lemma safe_update_model_contains_parse_failures_witness :
  models (safe_update_model [nts_timer_secs; nts_autoflip] 0 ex_world).2 !! 0
  = Some ex_model.
Proof.
  by apply (safe_update_model_contains_parse_failures [nts_timer_secs; nts_autoflip] 0 ex_world).
Defined.

(** X7. Only the last failure is shown: when the last setting of the list
    cannot be located in what the settings before it produced, the model
    is returned as they left it and the one tooltip names that last
    setting, whether or not settings before it failed as well. *)
Theorem safe_update_model_shows_last_failure l1 last model w r1 w1 b1 :
  safe_update_model l1 model w = (Ok r1, w1) ->
  blobs_of w1 r1 = Some b1 ->
  re_search (cfg_regex (config last)) (target (cfg_file (config last)) b1) = None ->
  exists r w' d1,
    models w1 !! r1 = Some d1 /\
    safe_update_model (l1 ++ [last]) model w = (Ok r, w') /\
    blobs_of w' r = Some b1 /\
    envelope_of w' r = envelope_of w1 r1 /\
    templates w' = templates w1 /\
    ui w' = ui w ++ [Tooltip (CouldNotFind (cfg_name (config last))
                               (cfg_file (config last)) (name d1))].
Proof.
  intros H1 Hb1 Hbad.
  apply safe_update_model_Ok in H1 as (d & d1 & ts1 & pe1 & ms1 & Hd & P1 & -> & Hr1).
  pose proof Hb1 as Hb. rewrite (blobs_of_world _ _ _ _ _ _ Hr1) in Hb.
  destruct (tmpls d1) as [|template [|??]] eqn:Etm; try done.
  destruct (ts1 !! template) as [t|] eqn:Et; [|done]. injection Hb as <-.
  set (e := CouldNotFind (cfg_name (config last)) (cfg_file (config last)) (name d1)).
  assert (safe_update_pure (l1 ++ [last]) (conf w) d (templates w) None
          = Ok (d1, ts1, Some e)) as P.
  { rewrite safe_update_pure_app, P1. cbn [safe_update_pure].
    unfold encode_pure. by rewrite Etm, Et, Hbad. }
  pose proof (safe_update_model_pure (l1 ++ [last]) model w d Hd) as Q.
  rewrite P in Q. destruct Q as (r & ms & Q & Hr).
  eexists r, _, d1. split; [exact Hr1|]. split; [exact Q|].
  rewrite <- Hb1.
  rewrite (blobs_of_world _ _ _ _ _ _ Hr), (blobs_of_world _ _ _ _ _ _ Hr1).
  by rewrite (envelope_of_world _ _ _ _ _ _ Hr), (envelope_of_world _ _ _ _ _ _ Hr1).
Qed.

Lemma safe_update_model_shows_last_failure_witness :
  exists r w' d1,
    models (safe_update_model [nts_timer_secs; nts_autoflip] 0 ex_world).2 !! 3 = Some d1 /\
    safe_update_model ([nts_timer_secs; nts_autoflip] ++ [nts_cloze_mode]) 0 ex_world
    = (Ok r, w') /\
    blobs_of w' r
    = Some (mkBlobs (txt "<!-- version 1a2b -->" ++ nl ++
                     txt "var autoflip = false;" ++ nl ++
                     qtxt "var tagID = `XXXYYYZZZ`;" ++ nl) ex_back ex_css) /\
    envelope_of w' r
    = envelope_of (safe_update_model [nts_timer_secs; nts_autoflip] 0 ex_world).2 3 /\
    templates w' = templates (safe_update_model [nts_timer_secs; nts_autoflip] 0 ex_world).2 /\
    ui w' = ui ex_world ++ [Tooltip (CouldNotFind (cfg_name (config nts_cloze_mode))
                                       (cfg_file (config nts_cloze_mode)) (name d1))].
Proof.
  apply (safe_update_model_shows_last_failure [nts_timer_secs; nts_autoflip] nts_cloze_mode
           0 ex_world 3 (safe_update_model [nts_timer_secs; nts_autoflip] 0 ex_world).2).
  - vm_compute. reflexivity.
  - vm_compute. reflexivity.
  - vm_compute. reflexivity.
Defined.

Lemma encode_pure_name nts notetype_name cf d ts d' ts' :
  encode_pure nts notetype_name cf d ts = Ok (d', ts') -> name d' = name d.
Proof.
  unfold encode_pure. intros H.
  destruct (tmpls d) as [|template [|??]]; try done.
  destruct (ts !! template) as [t|]; [|done]. cbn zeta in H.
  destruct (re_search _ _) as [m|]; [|done].
  destruct (cf !! _) as [v|]; [|done].
  destruct (_set_setting_value _ _ _) as [ps|]; [|done].
  destruct (String.eqb _ "front"); [by injection H as <- _|].
  destruct (String.eqb _ "back"); by injection H as <- _.
Qed.

Lemma safe_update_pure_Some l cf : forall d ts e d' ts' pe',
  safe_update_pure l cf d ts (Some e) = Ok (d', ts', pe') -> pe' <> None.
Proof.
  induction l as [|nts l IH]; intros d ts e d' ts' pe' H; simpl in H.
  - by injection H as <- <- <-.
  - destruct (encode_pure _ _ _ _ _) as [[d1 ts1]|[]]; try done; by eapply IH.
Qed.

Lemma update_clayout_loop_cons nts ntss model notetype_name w d :
  models w !! model = Some d ->
  update_clayout_loop (nts :: ntss) model notetype_name w =
    match encode_pure nts notetype_name (conf w) d (templates w) with
    | Ok (d', ts') =>
        update_clayout_loop ntss (length (models w)) notetype_name
          (mkWorld (models w ++ [d']) ts' (conf w) (ui w))
    | Raise e => (Raise e, mkWorld (models w ++ [d]) (templates w) (conf w) (ui w))
    end.
Proof.
  intros Hd. cbn [update_clayout_loop]. unfold bind.
  rewrite (updated_model_pure _ _ _ _ _ Hd).
  by destruct (encode_pure _ _ _ _ _) as [[d' ts']|e].
Qed.

Lemma update_clayout_loop_pure notetype_name ntss : forall model w d,
  models w !! model = Some d ->
  match update_clayout_pure ntss notetype_name (conf w) d (templates w) with
  | Ok (d', ts') =>
      exists r ms',
        update_clayout_loop ntss model notetype_name w
          = (Ok r, mkWorld ms' ts' (conf w) (ui w))
        /\ ms' !! r = Some d'
  | Raise e => exists w', update_clayout_loop ntss model notetype_name w = (Raise e, w')
  end.
Proof.
  induction ntss as [|nts ntss IH]; intros model w d Hd.
  - simpl. exists model, (models w). split; [by destruct w|done].
  - rewrite (update_clayout_loop_cons _ _ _ _ _ _ Hd). cbn [update_clayout_pure].
    destruct (encode_pure _ _ _ _ _) as [[d' ts']|e]; [|by eexists].
    apply (IH (length (models w)) (mkWorld (models w ++ [d']) ts' (conf w) (ui w)) d').
    apply lookup_snoc_new.
Qed.

Lemma update_clayout_pure_vs_safe_update_pure ntss cf : forall d ts pe,
  match update_clayout_pure ntss (name d) cf d ts with
  | Ok (d', ts') => safe_update_pure ntss cf d ts pe = Ok (d', ts', pe)
  | Raise (NotetypeParseException e) =>
      match safe_update_pure ntss cf d ts pe with
      | Ok (_, _, pe') => pe' <> None
      | Raise _ => True
      end
  | Raise e => safe_update_pure ntss cf d ts pe = Raise e
  end.
Proof.
  induction ntss as [|nts ntss IH]; intros d ts pe; [done|].
  cbn [update_clayout_pure safe_update_pure].
  destruct (encode_pure _ _ _ _ _) as [[d' ts']|e] eqn:E.
  - specialize (IH d' ts' pe). by rewrite (encode_pure_name _ _ _ _ _ _ _ E) in IH.
  - destruct e as [msg| | | | | | | |]; try done.
    destruct (safe_update_pure ntss cf d ts (Some msg)) as [[[d1 ts1] pe1]|e1] eqn:E1;
      [|done].
    by eapply safe_update_pure_Some.
Qed.

(** X8. The reset of the card layout screen and [safe_update_model] apply
    the same settings: when the reset returns a model, [safe_update_model]
    returns one with the same blobs and other keys and shows nothing;
    when the reset raises a [NotetypeParseException], [safe_update_model]
    cannot return without a tooltip; and any other exception of the reset
    is raised by [safe_update_model] as well. *)
Theorem update_clayout_on_reset_vs_safe_update_model a model w d ntss :
  models w !! model = Some d ->
  ntss_for_notetype a (name d) = Ok ntss ->
  match update_clayout_on_reset a model w with
  | (Ok r1, w1) =>
      exists r2 w2,
        safe_update_model ntss model w = (Ok r2, w2) /\ ui w2 = ui w /\
        blobs_of w2 r2 = blobs_of w1 r1 /\ envelope_of w2 r2 = envelope_of w1 r1 /\
        templates w2 = templates w1
  | (Raise (NotetypeParseException _), _) =>
      forall r2 w2, safe_update_model ntss model w = (Ok r2, w2) ->
        exists e, ui w2 = ui w ++ [Tooltip e]
  | (Raise e, _) => (safe_update_model ntss model w).1 = Raise e
  end.
Proof.
  intros Hd Hn. unfold update_clayout_on_reset, bind, get_model, lift. rewrite Hd, Hn.
  pose proof (update_clayout_loop_pure (name d) ntss model w d Hd) as L.
  pose proof (update_clayout_pure_vs_safe_update_pure ntss (conf w) d (templates w) None) as C.
  pose proof (safe_update_model_pure ntss model w d Hd) as S.
  destruct (update_clayout_pure _ _ _ _ _) as [[d' ts']|e].
  - destruct L as (r & ms' & -> & Hr). rewrite C in S.
    destruct S as (r2 & ms2 & -> & Hr2). eexists _, _. split; [done|].
    split; [by simpl; rewrite app_nil_r|].
    rewrite (blobs_of_world _ _ _ _ _ _ Hr), (blobs_of_world _ _ _ _ _ _ Hr2).
    by rewrite (envelope_of_world _ _ _ _ _ _ Hr), (envelope_of_world _ _ _ _ _ _ Hr2).
  - destruct L as (w1 & ->).
    destruct e as [msg| | | | | | | |];
      try (rewrite C in S; destruct S as [w2 ->]; done).
    intros r2 w2 H2.
    destruct (safe_update_pure _ _ _ _ _) as [[[d1 ts1] pe1]|e1].
    + destruct S as (r3 & ms3 & S & _). rewrite S in H2. injection H2 as <- <-.
      destruct pe1 as [e|]; [by exists e|done].
    + destruct S as [w3 S]. by rewrite S in H2.
Qed.

Lemma update_clayout_on_reset_vs_safe_update_model_witness :
  match update_clayout_on_reset ex_addon 0 ex_world with
  | (Ok r1, w1) =>
      exists r2 w2,
        safe_update_model [nts_timer_secs; nts_autoflip] 0 ex_world = (Ok r2, w2) /\
        ui w2 = ui ex_world /\
        blobs_of w2 r2 = blobs_of w1 r1 /\ envelope_of w2 r2 = envelope_of w1 r1 /\
        templates w2 = templates w1
  | (Raise (NotetypeParseException _), _) =>
      forall r2 w2,
        safe_update_model [nts_timer_secs; nts_autoflip] 0 ex_world = (Ok r2, w2) ->
        exists e, ui w2 = ui ex_world ++ [Tooltip e]
  | (Raise e, _) =>
      (safe_update_model [nts_timer_secs; nts_autoflip] 0 ex_world).1 = Raise e
  end.
Proof.
  apply (update_clayout_on_reset_vs_safe_update_model ex_addon 0 ex_world ex_model).
  - reflexivity.
  - vm_compute. reflexivity.
Defined.

Lemma map_res_raise_inv {A B} (f : A -> res B) (l : list A) (e : Exn) :
  map_res f l = Raise e -> exists x, x ∈ l /\ f x = Raise e.
Proof.
  induction l as [|y l IH]; simpl; [done|].
  destruct (f y) as [b|e'] eqn:E; simpl.
  - destruct (map_res f l) as [ys|e'']; simpl; [done|]. intros [= ->].
    destruct IH as (x & Hx & Hf); [done|]. exists x. split; [by right|done].
  - intros [= ->]. exists y. split; [by left|done].
Qed.

Lemma btn_name_to_shortcut_odict_raise a notetype_name e :
  btn_name_to_shortcut_odict a notetype_name = Raise e -> e = KeyError.
Proof.
  unfold btn_name_to_shortcut_odict.
  destruct (anking_notetype_templates a !! notetype_name) as [[[f b] c]|]; [|by intros [= <-]].
  by destruct (re_search _ _).
Qed.

Lemma adjust_hint_button_nts_order_raise a ntss notetype_name e :
  adjust_hint_button_nts_order a ntss notetype_name = Raise e ->
  e = KeyError \/ e = ValueError.
Proof.
  unfold adjust_hint_button_nts_order.
  destruct (btn_name_to_shortcut_odict a notetype_name) as [odict|e'] eqn:Eo; simpl.
  - unfold py_sorted.
    destruct (map_res _ _) as [keyed|e'] eqn:Em; simpl; [done|]. intros [= ->].
    apply map_res_raise_inv in Em as (x & _ & Hx). right.
    unfold py_index in Hx. destruct (index_of _ _); simpl in Hx; [done|by injection Hx].
  - intros [= ->]. left. by eapply btn_name_to_shortcut_odict_raise.
Qed.

Lemma ntss_for_notetype_raise a notetype_name e :
  ntss_for_notetype a notetype_name = Raise e ->
  e = KeyError \/ e = ValueError \/ exists msg, e = Exception_ msg.
Proof.
  unfold ntss_for_notetype.
  destruct (map_res _ _) as [result|e'] eqn:Em; simpl.
  - intros H. apply adjust_hint_button_nts_order_raise in H as [->| ->]; auto.
  - intros [= ->]. apply map_res_raise_inv in Em as (x & _ & Hx).
    destruct (setting_configs a !! x) as [c|]; [|left; by injection Hx].
    rewrite from_config_class in Hx. destruct (class_of_type _); [done|].
    right; right. injection Hx as <-. by eexists.
Qed.

Lemma read_in_ntss_cons nts ntss model notetype_name error_msg w :
  read_in_ntss (nts :: ntss) model notetype_name error_msg w =
    match decode_pure nts (models w) (templates w) model with
    | Ok v =>
        read_in_ntss ntss model notetype_name error_msg
          (set_conf (fun c => <[key nts notetype_name := v]> c) w)
    | Raise (NotetypeParseException e) =>
        read_in_ntss ntss model notetype_name (error_msg ++ [e]) w
    | Raise e => (Raise e, w)
    end.
Proof.
  cbn [read_in_ntss]. unfold bind at 1, try_except, bind at 1.
  rewrite setting_value_pure.
  by destruct (decode_pure _ _ _ _) as [v|[]].
Qed.

Lemma read_in_ntss_inv model notetype_name ntss : forall error_msg w,
  let out := read_in_ntss ntss model notetype_name error_msg w in
  models out.2 = models w /\ templates out.2 = templates w /\ ui out.2 = ui w /\
  forall msg, out.1 <> Raise (NotetypeParseException msg).
Proof.
  induction ntss as [|nts ntss IH]; intros error_msg w; cbn zeta; [done|].
  rewrite read_in_ntss_cons.
  destruct (decode_pure _ _ _ _) as [v|[msg| | | | | | | |]];
    try (split_and!; [done|done|done|by intros ? [=]]).
  - exact (IH error_msg (set_conf (fun c => <[key nts notetype_name := v]> c) w)).
  - apply IH.
Qed.

Lemma read_in_notetypes_inv a notetype_names : forall error_msg w,
  let out := read_in_notetypes a notetype_names error_msg w in
  models out.2 = models w /\ templates out.2 = templates w /\ ui out.2 = ui w /\
  forall msg, out.1 <> Raise (NotetypeParseException msg).
Proof.
  induction notetype_names as [|n rest IH]; intros error_msg w; cbn zeta; [done|].
  cbn [read_in_notetypes]. destruct (by_name a !! n) as [model|]; [|apply IH].
  unfold bind at 1 3 5 7, lift.
  destruct (ntss_for_notetype a n) as [ntss|e] eqn:En.
  - unfold bind.
    destruct (read_in_ntss_inv model n ntss error_msg w) as (Hm & Ht & Hu & Hn).
    destruct (read_in_ntss ntss model n error_msg w) as [[msgs|e] w1]; simpl in *.
    + rewrite <- Hm, <- Ht, <- Hu. apply IH.
    + split_and!; [done|done|done|]. intros msg [= ->]. by apply (Hn msg).
  - simpl. split_and!; [done|done|done|]. intros msg [= ->].
    apply ntss_for_notetype_raise in En as [?|[?|[? ?]]]; done.
Qed.

(** X9. Reading the settings in from the note types writes into the
    value-map only: no model dict and no template dict changes, no
    [NotetypeParseException] gets out, and what is shown is nothing or, after
    a normal return, one message box with a non-empty list of failures. *)
Theorem read_in_settings_from_notetypes_frame a w :
  let r := (read_in_settings_from_notetypes a w).1 in
  let w' := (read_in_settings_from_notetypes a w).2 in
  models w' = models w /\ templates w' = templates w /\
  (forall msg, r <> Raise (NotetypeParseException msg)) /\
  (ui w' = ui w \/
   exists e error_msg, r = Ok tt /\ ui w' = ui w ++ [ShowInfo (e :: error_msg)]).
Proof.
  cbn zeta. unfold read_in_settings_from_notetypes, bind.
  destruct (read_in_notetypes_inv a (map fst (settings_by_notetype a)) [] w)
    as (Hm & Ht & Hu & Hn).
  destruct (read_in_notetypes a _ [] w) as [[[|e error_msg]|e] w1]; simpl in *.
  - split_and!; [done|done|done|by left].
  - split_and!; [done|done|done|]. right. exists e, error_msg. by rewrite Hu.
  - split_and!; [done|done| |by left]. intros msg [= ->]. by apply (Hn msg).
Qed.

Lemma read_in_ntss_pure model notetype_name ntss : forall error_msg w,
  NoDup (map (fun nts => key nts notetype_name) ntss) ->
  Forall (fun nts => forall e,
            decode_pure nts (models w) (templates w) model = Raise e ->
            exists msg, e = NotetypeParseException msg) ntss ->
  exists cf',
    read_in_ntss ntss model notetype_name error_msg w
    = (Ok (error_msg ++
           omap (fun nts =>
                   parse_failure (decode_pure nts (models w) (templates w) model)) ntss),
       mkWorld (models w) (templates w) cf' (ui w)) /\
    (forall nts v, nts ∈ ntss ->
       decode_pure nts (models w) (templates w) model = Ok v ->
       cf' !! key nts notetype_name = Some v) /\
    (forall k,
       (forall nts v, nts ∈ ntss ->
          decode_pure nts (models w) (templates w) model = Ok v ->
          k <> key nts notetype_name) ->
       cf' !! k = conf w !! k).
Proof.
  induction ntss as [|nts ntss IH]; intros error_msg w Hnd Hall.
  - exists (conf w). simpl. rewrite app_nil_r. split; [by destruct w|].
    split; [|done]. intros nts v H. by apply elem_of_nil in H.
  - apply NoDup_cons in Hnd as [Hnew Hnd]. apply Forall_cons in Hall as [Hhd Hall].
    rewrite read_in_ntss_cons. cbn [omap list_omap].
    destruct (decode_pure nts _ _ _) as [v|e] eqn:E.
    + destruct (IH error_msg (set_conf (fun c => <[key nts notetype_name := v]> c) w)
                  Hnd Hall) as (cf' & Hrun & Hval & Hframe).
      cbn [models templates ui conf set_conf] in *.
      exists cf'. split; [exact Hrun|]. split.
      * intros nts' v' Hin Hd. apply elem_of_cons in Hin as [->|Hin]; [|by eapply Hval].
        rewrite Hframe.
        -- rewrite lookup_insert_eq. congruence.
        -- intros nts2 v2 Hin2 _ Heq. apply Hnew. rewrite Heq.
           by apply (list_elem_of_fmap_2 (fun nts => key nts notetype_name)).
      * intros k Hk. rewrite Hframe.
        -- apply lookup_insert_ne. intros Heq. by apply (Hk nts v); [left| |].
        -- intros nts2 v2 Hin2 Hd2. apply (Hk nts2 v2); [by right|done].
    + destruct (Hhd e eq_refl) as [msg ->]. cbn [parse_failure].
      destruct (IH (error_msg ++ [msg]) w Hnd Hall) as (cf' & Hrun & Hval & Hframe).
      exists cf'. split; [by rewrite Hrun, <- app_assoc|]. split.
      * intros nts' v' Hin Hd. apply elem_of_cons in Hin as [->|Hin]; [congruence|].
        by eapply Hval.
      * intros k Hk. apply Hframe. intros nts2 v2 Hin2 Hd2.
        apply (Hk nts2 v2); [by right|done].
Qed.

(** X10. Reading in the settings of one note type: when the settings have
    pairwise different keys and decoding each of them gives a value or a
    [NotetypeParseException], the loop returns; every decoded value is in the
    value-map under the key of its setting, every other key holds what it
    held, and the failures are appended to the messages in the order of the
    settings. *)
Theorem read_in_ntss_stores_decoded_values ntss model notetype_name error_msg w :
  NoDup (map (fun nts => key nts notetype_name) ntss) ->
  Forall (fun nts => forall e,
            (setting_value nts model w).1 = Raise e ->
            exists msg, e = NotetypeParseException msg) ntss ->
  exists error_msg' w',
    read_in_ntss ntss model notetype_name error_msg w = (Ok error_msg', w') /\
    error_msg' = error_msg ++
                 omap (fun nts => parse_failure (setting_value nts model w).1) ntss /\
    (forall nts v, nts ∈ ntss -> (setting_value nts model w).1 = Ok v ->
       conf w' !! key nts notetype_name = Some v) /\
    (forall k,
       (forall nts v, nts ∈ ntss -> (setting_value nts model w).1 = Ok v ->
          k <> key nts notetype_name) ->
       conf w' !! k = conf w !! k).
Proof.
  intros Hnd Hall.
  destruct (read_in_ntss_pure model notetype_name ntss error_msg w Hnd)
    as (cf' & Hrun & Hval & Hframe).
  { eapply Forall_impl; [exact Hall|]. intros nts H e He. apply H.
    by rewrite setting_value_pure. }
  assert (forall nts, (setting_value nts model w).1
                      = decode_pure nts (models w) (templates w) model) as Heq.
  { intros nts. by rewrite setting_value_pure. }
  eexists _, _. split; [exact Hrun|]. split.
  { f_equal. apply list_omap_ext, Forall2_same_length_lookup. split; [done|].
    intros i x y Hx Hy. rewrite Hx in Hy. injection Hy as <-. by rewrite Heq. }
  split.
  - intros nts v Hin Hv. rewrite Heq in Hv. by eapply Hval.
  - intros k Hk. apply Hframe. intros nts v Hin Hv. apply (Hk nts v Hin).
    by rewrite Heq.
Qed.

Lemma read_in_ntss_stores_decoded_values_witness :
  exists error_msg' w',
    read_in_ntss [nts_timer_secs; nts_autoflip; nts_font_size] 0 "Cloze" [] ex_world
    = (Ok error_msg', w') /\
    error_msg' = [] ++
                 omap (fun nts => parse_failure (setting_value nts 0 ex_world).1)
                   [nts_timer_secs; nts_autoflip; nts_font_size] /\
    (forall nts v, nts ∈ [nts_timer_secs; nts_autoflip; nts_font_size] ->
       (setting_value nts 0 ex_world).1 = Ok v ->
       conf w' !! key nts "Cloze" = Some v) /\
    (forall k,
       (forall nts v, nts ∈ [nts_timer_secs; nts_autoflip; nts_font_size] ->
          (setting_value nts 0 ex_world).1 = Ok v ->
          k <> key nts "Cloze") ->
       conf w' !! k = conf ex_world !! k).
Proof.
  apply (read_in_ntss_stores_decoded_values
           [nts_timer_secs; nts_autoflip; nts_font_size] 0 "Cloze" [] ex_world).
  - repeat (apply NoDup_cons; split; [by vm_compute; intros H; repeat (apply elem_of_cons in H as [H|H]; [done|]); apply elem_of_nil in H|]).
    apply NoDup_nil_2.
  - repeat (apply Forall_cons; split; [vm_compute; intros e [= <-] || intros e [=]; by eexists|]).
    apply Forall_nil_2.
Defined.

Lemma read_in_settings_from_notetypes_frame_witness :
  models (read_in_settings_from_notetypes ex_addon ex_world).2 = models ex_world.
Proof.
  by apply (read_in_settings_from_notetypes_frame ex_addon ex_world).
Defined.

Lemma insert_by_map {A} (kf : A -> Z) x l :
  insert_by fst (kf x, x) (map (fun y => (kf y, y)) l)
  = map (fun y => (kf y, y)) (insert_by kf x l).
Proof.
  induction l as [|y l IH]; simpl; [done|].
  destruct (kf x <=? kf y)%Z; simpl; [done|]. by rewrite IH.
Qed.

Lemma sorted_by_map {A} (kf : A -> Z) l :
  sorted_by fst (map (fun y => (kf y, y)) l) = map (fun y => (kf y, y)) (sorted_by kf l).
Proof.
  induction l as [|x l IH]; simpl; [done|]. by rewrite IH, insert_by_map.
Qed.

Lemma py_sorted_Ok {A} (key : A -> res Z) (kf : A -> Z) l :
  Forall (fun x => key x = Ok (kf x)) l -> py_sorted key l = Ok (sorted_by kf l).
Proof.
  intros H. unfold py_sorted.
  assert (map_res (fun x => (k <- key x ;; Ok (k, x))%res) l
          = Ok (map (fun y => (kf y, y)) l)) as ->.
  { induction H as [|x l Hx _ IH]; simpl; [done|]. by rewrite Hx, IH. }
  simpl. rewrite sorted_by_map, map_map. simpl. by rewrite map_id.
Qed.

Lemma filter_partition_perm {A} (p : A -> bool) (l : list A) :
  filter (fun x => p x) l ++ filter (fun x => negb (p x)) l ≡ₚ l.
Proof.
  induction l as [|x l IH]; [done|].
  destruct (p x) eqn:E.
  - rewrite filter_cons_True by by rewrite E.
    rewrite (filter_cons_False (fun x => negb (p x))) by (rewrite E; simpl; tauto).
    simpl. by rewrite IH.
  - rewrite filter_cons_False by (rewrite E; simpl; tauto).
    rewrite (filter_cons_True (fun x => negb (p x))) by by rewrite E.
    rewrite <- Permutation_middle. by rewrite IH.
Qed.

(** X11. When every setting that is tagged with a hint button names a button
    of the shortcut mapping, [adjust_hint_button_nts_order] returns: first
    the tagged settings, sorted by the position of their button in the
    mapping, settings of one button in their old order; then all the others
    in their old order.  The result is a rearrangement of the input. *)
Theorem adjust_hint_button_nts_order_known_buttons a ntss notetype_name odict :
  btn_name_to_shortcut_odict a notetype_name = Ok odict ->
  let names := map (fun p => VStr p.1) odict in
  let button := fun nts => tag_of (cfg_hint_button_setting (config nts)) in
  Forall (fun nts => is_hint_button nts -> button nts ∈ names) ntss ->
  let hints := sorted_by (hint_key names) (filter is_hint_button ntss) in
  let others := filter (fun nts => negb (is_hint_button nts)) ntss in
  adjust_hint_button_nts_order a ntss notetype_name = Ok (hints ++ others) /\
  hints ++ others ≡ₚ ntss /\
  StronglySorted (key_le (hint_key names)) hints /\
  (forall nts, nts ∈ hints ->
     exists i, hint_key names nts = Z.of_nat i /\ names !! i = Some (button nts) /\
               forall j, j < i -> names !! j <> Some (button nts)) /\
  (forall k, filter (fun nts => hint_key names nts = k) hints
             = filter (fun nts => hint_key names nts = k) (filter is_hint_button ntss)).
Proof.
  intros Ho names button Hall hints others.
  assert (forall nts, nts ∈ filter is_hint_button ntss ->
            exists i, index_of (button nts) names = Some i) as Hidx.
  { intros nts Hin. apply list_elem_of_filter in Hin as [Hh Hin].
    rewrite Forall_forall in Hall. specialize (Hall nts Hin Hh).
    destruct (index_of (button nts) names) as [i|] eqn:E; [by exists i|].
    by apply index_of_None in E. }
  split_and!.
  - unfold adjust_hint_button_nts_order. rewrite Ho. cbn [rbind]. fold names.
    rewrite (py_sorted_Ok _ (hint_key names)).
    + cbn [rbind]. do 2 f_equal. apply (others_filter is_hint_button).
    + apply Forall_forall. intros nts Hin. destruct (Hidx nts Hin) as [i Hi].
      unfold py_index, hint_key. fold (button nts). by rewrite Hi.
  - unfold hints. rewrite sorted_by_perm. apply filter_partition_perm.
  - apply sorted_by_sorted.
  - intros nts Hin. unfold hints in Hin. rewrite sorted_by_perm in Hin.
    destruct (Hidx nts Hin) as [i Hi]. exists i.
    unfold hint_key. fold (button nts). rewrite Hi. split; [done|].
    by apply index_of_Some.
  - intros k. apply sorted_by_stable.
Qed.

Lemma adjust_hint_button_nts_order_known_buttons_witness :
  let ntss := [nts_autoflip; hint_nts "btn_shortcut_notes" "Notes"; nts_timer;
               hint_nts "btn_shortcut_extra" "Extra"] in
  let names := [VStr (txt "Extra"); VStr (txt "Notes")] in
  let button := fun nts => tag_of (cfg_hint_button_setting (config nts)) in
  let hints := sorted_by (hint_key names) (filter is_hint_button ntss) in
  let others := filter (fun nts => negb (is_hint_button nts)) ntss in
  adjust_hint_button_nts_order ex_addon ntss "Cloze" = Ok (hints ++ others) /\
  hints ++ others ≡ₚ ntss /\
  StronglySorted (key_le (hint_key names)) hints /\
  (forall nts, nts ∈ hints ->
     exists i, hint_key names nts = Z.of_nat i /\ names !! i = Some (button nts) /\
               forall j, j < i -> names !! j <> Some (button nts)) /\
  (forall k, filter (fun nts => hint_key names nts = k) hints
             = filter (fun nts => hint_key names nts = k) (filter is_hint_button ntss)).
Proof.
  apply (adjust_hint_button_nts_order_known_buttons ex_addon _ "Cloze"
           [(txt "Extra", txt "Alt+1"); (txt "Notes", txt "Alt+2")]).
  - vm_compute. reflexivity.
  - repeat (apply Forall_cons; split;
            [first [ intros H; vm_compute in H; by destruct H
                   | intros _; vm_compute; by repeat constructor ]|]).
    apply Forall_nil_2.
Defined.

(** ** The version stamp *)

Lemma rmatch_lit_text p : forall s c k, rmatch (lit_text p) (p ++ s) c k = k s c.
Proof.
  induction p as [|a p IH]; intros s c k; simpl; [done|].
  by rewrite bool_decide_eq_true_2, IH.
Qed.

(** A greedy repetition of a class takes a whole run of characters of the
    class when what follows the run lets the rest of the pattern match. *)
Lemma star_cls_greedy p k v : forall rest c fuel x,
  Forall (fun a => cls_mem p a = true) v ->
  match rest with a :: _ => cls_mem p a = false | [] => True end ->
  length v <= fuel ->
  k rest c = Some x ->
  star_loop (rmatch (Cls p)) true k fuel (v ++ rest) c = Some x.
Proof.
  induction v as [|a v IH]; intros rest c fuel x Hv Hrest Hfuel Hk.
  - destruct fuel as [|fuel]; simpl; [done|].
    destruct rest as [|b rest]; simpl; [done|]. by rewrite Hrest.
  - apply Forall_cons in Hv as [Ha Hv].
    destruct fuel as [|fuel]; simpl in Hfuel; [lia|].
    cbn [star_loop app rmatch]. rewrite Ha.
    assert ((length (v ++ rest) <? length (a :: v ++ rest)) = true) as ->.
    { apply Nat.ltb_lt. simpl. lia. }
    pose proof (IH rest c fuel x Hv Hrest ltac:(lia) Hk) as H.
    cbn [rmatch] in H. by rewrite H.
Qed.

Lemma Matches_star_cls g p t :
  Matches (Star g (Cls p)) t -> Forall (fun a => cls_mem p a = true) t.
Proof.
  intros M. remember (Star g (Cls p)) as r eqn:Er.
  induction M as [| | | | | |g' r' t1 t2 M1 _ Hne M2 IH2|]; try discriminate.
  - constructor.
  - injection Er as -> ->. apply Forall_app. split; [|by apply IH2].
    inversion M1; subst. by repeat constructor.
Qed.

Lemma rmatch_Seq r1 r2 s c k :
  rmatch (Seq r1 r2) s c k = rmatch r1 s c (fun s1 c1 => rmatch r2 s1 c1 k).
Proof. done. Qed.

Lemma rmatch_Group i r1 s c k :
  rmatch (Group i r1) s c k
  = rmatch r1 s c (fun s1 c1 => k s1 ((i, (length s, length s1)) :: c1)).
Proof. done. Qed.

Lemma rmatch_Star g r1 s c k :
  rmatch (Star g r1) s c k = star_loop (rmatch r1) g k (length s) s c.
Proof. done. Qed.

Lemma rmatch_Cls_cons p a s c k :
  rmatch (Cls p) (a :: s) c k = if cls_mem p a then k s c else None.
Proof. done. Qed.

Lemma re_match_version v rest :
  v <> [] -> Forall (fun a => is_version_char a = true) v ->
  exists m, re_match VERSION_RE (version_header v ++ rest) = Some m /\
            assoc 1 (m_groups m) = Some (13, 13 + length v).
Proof.
  intros Hne Hv. destruct v as [|a v]; [done|]. apply Forall_cons in Hv as [Ha Hv].
  unfold re_match, VERSION_RE, version_header, lit. cbn [seqs].
  rewrite <- !app_assoc. rewrite rmatch_Seq, rmatch_lit_text. cbn beta.
  rewrite rmatch_Seq, rmatch_Group. unfold Plus. rewrite rmatch_Seq.
  rewrite <- app_comm_cons, rmatch_Cls_cons.
  unfold is_version_char in Ha. rewrite Ha. rewrite rmatch_Star.
  rewrite (star_cls_greedy _ _ v (txt " -->" ++ nl ++ rest) [] _
             (rest, [(1, (length (a :: v ++ txt " -->" ++ nl ++ rest),
                          length (txt " -->" ++ nl ++ rest)))])).
  - eexists. split; [reflexivity|]. cbn [m_groups abs_caps map assoc fst snd].
    rewrite decide_True by done. f_equal. f_equal.
    + rewrite !length_app. simpl. rewrite !length_app. simpl. lia.
    + rewrite !length_app. simpl. rewrite !length_app. simpl. lia.
  - done.
  - by vm_compute.
  - rewrite length_app. lia.
  - cbn beta. rewrite rmatch_Seq, rmatch_lit_text. cbn [nl app rmatch cls_mem].
    rewrite bool_decide_eq_true_2 by done. reflexivity.
Qed.

Lemma Matches_VERSION_RE t :
  Matches VERSION_RE t ->
  exists v, t = version_header v /\ v <> [] /\
            Forall (fun a => is_version_char a = true) v.
Proof.
  unfold VERSION_RE, lit, Plus. cbn [seqs]. intros M.
  apply Matches_Seq_inv in M as (t1 & t2 & -> & M1 & M).
  apply Matches_lit_text in M1 as ->.
  apply Matches_Seq_inv in M as (g & t3 & -> & Mg & M).
  apply Matches_Seq_inv in M as (t4 & t5 & -> & M4 & M5).
  apply Matches_lit_text in M4 as ->.
  apply Matches_Cls_inv in M5 as (b & -> & Hb). simpl in Hb.
  apply bool_decide_eq_true in Hb as ->.
  apply Matches_Group_inv, Matches_Seq_inv in Mg as (g1 & g2 & -> & Mg1 & Mg2).
  apply Matches_Cls_inv in Mg1 as (a & -> & Ha).
  apply Matches_star_cls in Mg2.
  exists ([a] ++ g2). split; [done|]. split; [done|]. by constructor.
Qed.

Lemma model_version_eq model w d template others t :
  models w !! model = Some d -> tmpls d = template :: others ->
  templates w !! template = Some t ->
  model_version model w =
    (match re_match VERSION_RE (qfmt t) with
     | None => Ok VNone
     | Some m => group VERSION_RE (qfmt t) m 1
     end, w).
Proof.
  intros Hd Etm Et. unfold model_version, bind, get_model. rewrite Hd, Etm.
  unfold get_template. rewrite Et. by destruct (re_match _ _).
Qed.

Lemma model_version_header model w d template others t v rest :
  models w !! model = Some d -> tmpls d = template :: others ->
  templates w !! template = Some t ->
  v <> [] -> Forall (fun a => is_version_char a = true) v ->
  qfmt t = version_header v ++ rest ->
  model_version model w = (Ok (VStr v), w).
Proof.
  intros Hd Etm Et Hne Hv Hq.
  rewrite (model_version_eq _ _ _ _ _ _ Hd Etm Et), Hq.
  destruct (re_match_version v rest Hne Hv) as (m & -> & Hg).
  unfold group. rewrite Hg.
  replace (ngroups VERSION_RE <? 1) with false by by vm_compute.
  do 3 f_equal. unfold version_header. rewrite <- !app_assoc.
  apply (slice_app (txt "<!-- version ")).
Qed.

(** X12. [model_version] returns the text [v] exactly when the front
    template starts with the stamp line of [v] and [v] is a non-empty run of
    word characters (the characters of [\w]: letters, digits and the
    underscore, the accented letters among them); in every other case it
    returns [None].  It changes nothing. *)
Theorem model_version_reads_stamp model w d template others t :
  models w !! model = Some d -> tmpls d = template :: others ->
  templates w !! template = Some t ->
  (forall v,
     model_version model w = (Ok (VStr v), w) <->
     v <> [] /\ Forall (fun a => is_version_char a = true) v /\
     exists rest, qfmt t = version_header v ++ rest) /\
  (model_version model w = (Ok VNone, w) \/
   exists v, model_version model w = (Ok (VStr v), w)).
Proof.
  intros Hd Etm Et. split.
  - intros v. split.
    + intros H0. pose proof H0 as H.
      rewrite (model_version_eq _ _ _ _ _ _ Hd Etm Et) in H.
      unfold re_match in H.
      destruct (rmatch VERSION_RE (qfmt t) [] kdone) as [[s' c]|] eqn:Em; [|done].
      apply rmatch_sound in Em as (t0 & s1 & c1 & Hq & M & _).
      apply Matches_VERSION_RE in M as (g & -> & Hne & Hg).
      pose proof (model_version_header _ _ _ _ _ _ g s1 Hd Etm Et Hne Hg Hq) as H2.
      rewrite H2 in H0. injection H0 as <-.
      split; [done|]. split; [done|]. by exists s1.
    + intros (Hne & Hv & rest & Hq). by eapply model_version_header.
  - rewrite (model_version_eq _ _ _ _ _ _ Hd Etm Et).
    destruct (re_match _ _) as [m|]; [|by left].
    unfold group. replace (ngroups VERSION_RE <? 1) with false by by vm_compute.
    destruct (assoc 1 (m_groups m)) as [[a b]|]; [right; by eexists|by left].
Qed.

Lemma model_version_reads_stamp_witness :
  (forall v,
     model_version 0 ex_world = (Ok (VStr v), ex_world) <->
     v <> [] /\ Forall (fun a => is_version_char a = true) v /\
     exists rest, qfmt ex_template = version_header v ++ rest) /\
  (model_version 0 ex_world = (Ok VNone, ex_world) \/
   exists v, model_version 0 ex_world = (Ok (VStr v), ex_world)).
Proof.
  by apply (model_version_reads_stamp 0 ex_world ex_model 0 [] ex_template).
Defined.

(** A stamp with an accented letter. *)
Lemma model_version_accented_stamp :
  let v := ["233"%char; "1"%char] in
  model_version 0 (mkWorld [ex_model] [mkTemplate (version_header v ++ ex_front) ex_back []]
                     ∅ [])
  = (Ok (VStr v),
     mkWorld [ex_model] [mkTemplate (version_header v ++ ex_front) ex_back []] ∅ []).
Proof. by vm_compute. Qed.

(** ** General settings *)

Lemma update_all_loop_inv a nts value notetype_names : forall w,
  let listed := fun n =>
    n ∈ notetype_names /\
    cfg_setting_name (config nts) ∈ dict_get n (settings_by_notetype a) in
  let out := update_all_loop a nts value notetype_names w in
  out.1 = Ok tt /\ models out.2 = models w /\ templates out.2 = templates w /\
  ui out.2 = ui w /\
  (forall n, listed n -> conf out.2 !! key nts n = Some value) /\
  (forall k, (forall n, listed n -> k <> key nts n) -> conf out.2 !! k = conf w !! k) /\
  (forall k, conf w !! k = Some value -> conf out.2 !! k = Some value).
Proof.
  induction notetype_names as [|n0 rest IH]; intros w; cbn zeta.
  - split_and!; try done. intros n [Hn _]. by apply elem_of_nil in Hn.
  - cbn [update_all_loop].
    destruct (bool_decide _) eqn:Eb; cbn [negb].
    + apply bool_decide_eq_true in Eb. unfold bind, conf_set.
      destruct (IH (set_conf (fun c => <[key nts n0 := value]> c) w))
        as (H1 & H2 & H3 & H4 & H5 & H6 & H7).
      cbn [conf set_conf models templates ui] in *.
      split_and!; try done.
      * intros n [Hn Hl]. apply elem_of_cons in Hn as [->|Hn]; [|by apply H5].
        apply H7. apply lookup_insert_eq.
      * intros k Hk. rewrite H6.
        -- apply lookup_insert_ne. intros Heq. apply (Hk n0); [|done].
           split; [by left|done].
        -- intros n [Hn Hl]. apply Hk. split; [by right|done].
      * intros k Hk. destruct (decide (k = key nts n0)) as [->|Hne].
        -- apply H7. apply lookup_insert_eq.
        -- apply H7. by rewrite lookup_insert_ne.
    + apply bool_decide_eq_false in Eb.
      destruct (IH w) as (H1 & H2 & H3 & H4 & H5 & H6 & H7).
      split_and!; try done.
      * intros n [Hn Hl]. apply elem_of_cons in Hn as [->|Hn]; [done|by apply H5].
      * intros k Hk. apply H6. intros n [Hn Hl]. apply Hk. split; [by right|done].
Qed.

(** X13. A change of the general value of a setting is stored for every note
    type of the table that lists the setting, under the key of the setting
    for that note type; every other key of the value-map keeps its value,
    and a change under any other key does nothing at all. *)
Theorem update_all_propagates a nts value w :
  let listed := fun n =>
    n ∈ map fst (settings_by_notetype a) /\
    cfg_setting_name (config nts) ∈ dict_get n (settings_by_notetype a) in
  let out := update_all a nts (key nts "general") value w in
  out.1 = Ok tt /\ models out.2 = models w /\ templates out.2 = templates w /\
  ui out.2 = ui w /\
  (forall n, listed n -> conf out.2 !! key nts n = Some value) /\
  (forall k, (forall n, listed n -> k <> key nts n) -> conf out.2 !! k = conf w !! k) /\
  (forall k, k <> key nts "general" -> update_all a nts k value w = (Ok tt, w)).
Proof.
  cbn zeta. unfold update_all. rewrite String.eqb_refl. cbn [negb].
  destruct (update_all_loop_inv a nts value (map fst (settings_by_notetype a)) w)
    as (H1 & H2 & H3 & H4 & H5 & H6 & _).
  split_and!; try done.
  intros k Hk. destruct (String.eqb_spec (key nts "general") k) as [Heq|_]; [|done].
  by destruct Hk.
Qed.

Lemma update_all_propagates_witness :
  conf (update_all ex_addon nts_autoflip (key nts_autoflip "general") (VBool true)
          ex_world).2 !! key nts_autoflip "Cloze" = Some (VBool true).
Proof.
  apply (update_all_propagates ex_addon nts_autoflip (VBool true) ex_world).
  split.
  - vm_compute. by repeat constructor.
  - vm_compute. by repeat constructor.
Defined.

(** ** The settings of a note type *)

Lemma map_res_Ok_Forall2 {A B} (f : A -> res B) (l : list A) : forall ys,
  map_res f l = Ok ys -> Forall2 (fun x y => f x = Ok y) l ys.
Proof.
  induction l as [|x l IH]; simpl; intros ys H; [injection H as <-; constructor|].
  destruct (f x) as [y|] eqn:E; simpl in H; [|done].
  destruct (map_res f l) as [ys'|]; simpl in H; [|done]. injection H as <-.
  constructor; [done|by apply IH].
Qed.

Lemma py_sorted_perm {A} (key : A -> res Z) (l r : list A) :
  py_sorted key l = Ok r -> r ≡ₚ l.
Proof.
  unfold py_sorted. destruct (map_res _ l) as [keyed|] eqn:E; simpl; [|done].
  intros [= <-]. apply map_res_Ok_Forall2 in E.
  assert (map snd keyed = l) as Hl.
  { induction E as [|x p l keyed Hx _ IH]; [done|]. simpl. rewrite IH. f_equal.
    destruct (key x); simpl in Hx; [by injection Hx as <-|done]. }
  rewrite <- Hl. apply Permutation_map, sorted_by_perm.
Qed.

Lemma adjust_hint_button_nts_order_perm a ntss notetype_name result :
  adjust_hint_button_nts_order a ntss notetype_name = Ok result -> result ≡ₚ ntss.
Proof.
  unfold adjust_hint_button_nts_order.
  destruct (btn_name_to_shortcut_odict a notetype_name) as [odict|]; simpl; [|done].
  destruct (py_sorted _ _) as [hints|] eqn:E; simpl; [|done]. intros [= <-].
  apply py_sorted_perm in E. rewrite E.
  rewrite (others_filter (fun nts => tagged (cfg_hint_button_setting (config nts)))).
  apply (filter_partition_perm (fun nts => tagged (cfg_hint_button_setting (config nts)))).
Qed.

(** X14. What [ntss_for_notetype] can do.  It raises nothing but a
    [KeyError], a [ValueError] or the exception of an unknown type tag.
    When it returns, the note type has shipped templates, and the result
    is a rearrangement of one setting per listed name, in which the setting
    of a name has the descriptor filed under that name, stamped with the
    name, and the class of the descriptor's type tag. *)
Theorem ntss_for_notetype_outcomes a notetype_name :
  (forall e, ntss_for_notetype a notetype_name = Raise e ->
     e = KeyError \/ e = ValueError \/ exists msg, e = Exception_ msg) /\
  (forall result, ntss_for_notetype a notetype_name = Ok result ->
     is_Some (anking_notetype_templates a !! notetype_name) /\
     exists built,
       Forall2 (fun name nts =>
                  exists c, setting_configs a !! name = Some c /\
                            class_of_type (cfg_type c) = Some (nts_class nts) /\
                            config nts = stamp name c)
         (dict_get notetype_name (settings_by_notetype a)) built /\
       result ≡ₚ built).
Proof.
  split; [intros e; apply ntss_for_notetype_raise|].
  intros result. unfold ntss_for_notetype.
  destruct (map_res _ _) as [built|] eqn:Em; simpl; [|done]. intros H. split.
  - unfold adjust_hint_button_nts_order, btn_name_to_shortcut_odict in H.
    by destruct (anking_notetype_templates a !! notetype_name).
  - exists built. split; [|by eapply adjust_hint_button_nts_order_perm].
    apply map_res_Ok_Forall2 in Em. eapply Forall2_impl; [exact Em|].
    intros name nts Hf. simpl in Hf.
    destruct (setting_configs a !! name) as [c|]; [|done]. exists c. split; [done|].
    rewrite from_config_class in Hf. simpl in Hf.
    destruct (class_of_type (cfg_type c)) as [k|]; [|done]. by injection Hf as <-.
Qed.

Lemma ntss_for_notetype_outcomes_witness :
  is_Some (anking_notetype_templates ex_addon !! "Cloze") /\
  exists built,
    Forall2 (fun name nts =>
               exists c, setting_configs ex_addon !! name = Some c /\
                         class_of_type (cfg_type c) = Some (nts_class nts) /\
                         config nts = stamp name c)
      (dict_get "Cloze" (settings_by_notetype ex_addon)) built /\
    [nts_timer_secs; nts_autoflip] ≡ₚ built.
Proof.
  apply (proj2 (ntss_for_notetype_outcomes ex_addon "Cloze") [nts_timer_secs; nts_autoflip]).
  vm_compute. reflexivity.
Defined.

(** ** Where a [NotetypeParseException] comes from *)

Lemma search_group1_no_parse_exception r section msg :
  search_group1 r section <> Raise (NotetypeParseException msg).
Proof.
  unfold search_group1, group. destruct (re_search r section) as [m|]; [|done].
  destruct (ngroups r <? 1); [done|]. by destruct (assoc 1 (m_groups m)) as [[??]|].
Qed.

Lemma extract_parse_exception nts section msg :
  _extract_setting_value nts section = Raise (NotetypeParseException msg) ->
  nts_class nts = ReCheckboxSetting /\
  exists pairs, cfg_replacement_pairs (config nts) = Some pairs /\
                all_on pairs section = all_off pairs section /\
                msg = ErrorInvolving pairs section.
Proof.
  unfold _extract_setting_value. intros H.
  destruct (nts_class nts);
    try (exfalso; by apply (search_group1_no_parse_exception _ _ _ H));
    try (exfalso;
         destruct (search_group1 _ _) as [v|e] eqn:E; simpl in H;
         [|injection H as ->; by apply search_group1_no_parse_exception in E]).
  - by destruct (_ || _).
  - split; [done|].
    destruct (cfg_replacement_pairs (config nts)) as [pairs|]; [|done].
    exists pairs. split; [done|]. fold (all_on pairs section) in H.
    fold (all_off pairs section) in H.
    destruct (all_on pairs section), (all_off pairs section); simpl in H;
      try done; by injection H as <-.
  - by destruct v as [|[]| |t]; simpl in H; try done; destruct (parse_int t).
  - by destruct (_ && _).
Qed.

Lemma set_no_parse_exception nts section v msg :
  _set_setting_value nts section v <> Raise (NotetypeParseException msg).
Proof.
  unfold _set_setting_value. intros H.
  assert (forall a b m, py_replace_first section a b <> Raise (NotetypeParseException m))
    as Hp.
  { intros a b m. unfold py_replace_first. by destruct a, b. }
  assert (forall m, splice_group1 (cfg_regex (config nts)) section v
                    <> Raise (NotetypeParseException m)) as Hs.
  { intros m. unfold splice_group1. destruct (re_search _ _) as [m0|]; [|done].
    destruct (ngroups _ <? 1); [done|].
    destruct (assoc 1 (m_groups m0)) as [[??]|]; by destruct v. }
  destruct (nts_class nts) eqn:Ek; try (by eapply Hs);
    try (destruct (_extract_setting_value nts section) as [cur|x] eqn:E; simpl in H;
         [|injection H as ->; apply extract_parse_exception in E as [? _]; congruence]).
  - done.
  - by destruct (cfg_replacement_pairs (config nts)).
  - done.
  - by eapply Hp.
  - destruct (_ && _); by eapply Hp.
Qed.

(** X15. [updated_model] raises a [NotetypeParseException] exactly when
    the pattern of the setting is not found in the blob it is looked for in,
    and the message then names the setting, the blob and the note type; no
    codec makes [updated_model] raise this exception. *)
Theorem updated_model_parse_exception_iff nts model notetype_name w d msg :
  models w !! model = Some d ->
  (updated_model nts model notetype_name w).1 = Raise (NotetypeParseException msg) <->
  exists b,
    blobs_of w model = Some b /\
    re_search (cfg_regex (config nts)) (target (cfg_file (config nts)) b) = None /\
    msg = CouldNotFind (cfg_name (config nts)) (cfg_file (config nts)) (name d).
Proof.
  intros Hd. rewrite (updated_model_pure _ _ _ _ _ Hd).
  unfold blobs_of, encode_pure. rewrite Hd.
  destruct (tmpls d) as [|template [|??]];
    [split; [done|by intros (b & ? & _)]| |split; [done|by intros (b & ? & _)]].
  destruct (templates w !! template) as [t|];
    [|split; [done|by intros (b & ? & _)]].
  cbn zeta.
  destruct (re_search _ _) as [m|] eqn:Em.
  - split.
    + intros H. exfalso.
      destruct (conf w !! _) as [v|]; [|done].
      destruct (_set_setting_value _ _ _) as [ps|e] eqn:Es.
      * by destruct (String.eqb _ "front"); [|destruct (String.eqb _ "back")].
      * simpl in H. injection H as ->. by apply set_no_parse_exception in Es.
    + intros (b & [= <-] & Hb & _). congruence.
  - split.
    + intros [= <-]. by eexists.
    + by intros (b & [= <-] & _ & ->).
Qed.

Lemma updated_model_parse_exception_iff_witness :
  (updated_model nts_timer_secs 0 "Cloze" ex_world).1
  = Raise (NotetypeParseException (CouldNotFind "timer_secs" "front" "Cloze")) <->
  exists b,
    blobs_of ex_world 0 = Some b /\
    re_search (cfg_regex (config nts_timer_secs))
      (target (cfg_file (config nts_timer_secs)) b) = None /\
    CouldNotFind "timer_secs" "front" "Cloze"
    = CouldNotFind (cfg_name (config nts_timer_secs)) (cfg_file (config nts_timer_secs))
        (name ex_model).
Proof.
  by apply (updated_model_parse_exception_iff nts_timer_secs 0 "Cloze" ex_world ex_model).
Defined.

Lemma extract_re_checkbox_ambiguous nts section pairs :
  nts_class nts = ReCheckboxSetting ->
  cfg_replacement_pairs (config nts) = Some pairs ->
  all_on pairs section = all_off pairs section ->
  _extract_setting_value nts section
  = Raise (NotetypeParseException (ErrorInvolving pairs section)).
Proof.
  intros Hk Hp H. unfold _extract_setting_value. rewrite Hk, Hp.
  fold (all_on pairs section). fold (all_off pairs section). rewrite H.
  by destruct (all_off pairs section).
Qed.

(** X16. [setting_value] raises a [NotetypeParseException] in two cases
    and no other: the pattern of the setting is not found in its blob, or
    the setting is a pair check box and the section holds all the
    on-literals and all the off-literals of its pairs, or neither all of
    the ones nor all of the others. *)
Theorem setting_value_parse_exception_iff nts model w d msg :
  models w !! model = Some d ->
  (setting_value nts model w).1 = Raise (NotetypeParseException msg) <->
  exists b,
    blobs_of w model = Some b /\
    let blob := target (cfg_file (config nts)) b in
    match re_search (cfg_regex (config nts)) blob with
    | None =>
        msg = CouldNotFind (cfg_name (config nts)) (cfg_file (config nts)) (name d)
    | Some m =>
        let section := slice (m_start m) (m_end m) blob in
        nts_class nts = ReCheckboxSetting /\
        exists pairs,
          cfg_replacement_pairs (config nts) = Some pairs /\
          all_on pairs section = all_off pairs section /\
          msg = ErrorInvolving pairs section
    end.
Proof.
  intros Hd. rewrite setting_value_pure. cbn [fst].
  unfold blobs_of, decode_pure. rewrite Hd.
  destruct (tmpls d) as [|template [|??]];
    [split; [done|by intros (b & ? & _)]| |split; [done|by intros (b & ? & _)]].
  destruct (templates w !! template) as [t|];
    [|split; [done|by intros (b & ? & _)]].
  cbn zeta. split.
  - intros H. eexists. split; [done|].
    destruct (re_search _ _) as [m|]; [|by injection H as <-].
    by apply extract_parse_exception.
  - intros (b & [= <-] & H).
    destruct (re_search _ _) as [m|]; [|by rewrite H].
    destruct H as (Hk & pairs & Hp & Ha & ->).
    by apply extract_re_checkbox_ambiguous.
Qed.

Lemma setting_value_parse_exception_iff_witness :
  (setting_value nts_timer_secs 0 ex_world).1
  = Raise (NotetypeParseException (CouldNotFind "timer_secs" "front" "Cloze")) <->
  exists b,
    blobs_of ex_world 0 = Some b /\
    let blob := target (cfg_file (config nts_timer_secs)) b in
    match re_search (cfg_regex (config nts_timer_secs)) blob with
    | None =>
        CouldNotFind "timer_secs" "front" "Cloze"
        = CouldNotFind (cfg_name (config nts_timer_secs))
            (cfg_file (config nts_timer_secs)) (name ex_model)
    | Some m =>
        let section := slice (m_start m) (m_end m) blob in
        nts_class nts_timer_secs = ReCheckboxSetting /\
        exists pairs,
          cfg_replacement_pairs (config nts_timer_secs) = Some pairs /\
          all_on pairs section = all_off pairs section /\
          CouldNotFind "timer_secs" "front" "Cloze" = ErrorInvolving pairs section
    end.
Proof.
  by apply (setting_value_parse_exception_iff nts_timer_secs 0 ex_world ex_model).
Defined.
